(** * Keyword Cluster Visualizer: the data pipeline, embedded in Rocq

    A shallow embedding of the pure data-processing code of the visualizer:

    - [7.1. dataProcessingUtils.js]: [transformNodeForHierarchicalView],
      [extractAllNodesAndKeywords], [processRawDataFromFile],
      [calculateDynamicNodeMetrics];
    - [7.2. filterSortUtils.js]: [checkRangeSelectionFilter_internal],
      [filterHierarchicalTreeRecursive_internal], [filterFlatListByType_internal],
      [sortFlatDataList_internal];
    - [7.4. csvExportUtils.js]: [flattenNodeData], [convertToCSV];
    - [1. constants.js]: [NodeType] and the three named-range tables;
    - [2. helpers.js]: [customKeywordSort];
    - [8. searchLogic.js]: [normalise] and the four handlers of the
      exclusion list;
    - [7. InteractiveDentalTaxonomy.js] and [6. DataDisplayArea.js]: the
      search-term parser and [getFilteredData], [calculateMetricsForNode],
      [globalMetrics] with its [aggregateMetrics] and [walk],
      [paginatedViewData] and the two page buttons.

    Conventions of the embedding.

    - A JavaScript number is an exact rational ([Q]); rounding of doubles is
      not modelled.  [NaN] and the infinities appear only where [parseFloat]
      can produce them ([num], [option num]).
    - A JavaScript string is a [string] of ASCII characters; [toLowerCase],
      [trim] and the [\b] word class are the ASCII ones.
    - A field that may hold anything is a [value]; a field the code only uses
      as "a string or not" is an [option string]; an array that may be absent
      is an [option (list _)].
    - Objects used as dictionaries are [gmap string _]; the [Set] of seen
      keywords is a [gset string] threaded through the calls that share it.
    - What the runtime supplies and the code does not define is a
      parameter: the random suffix of an id, the printing of a number,
      [localeCompare], the identity of objects behind a [WeakMap].
      [Array.prototype.sort] is the stable sort it is specified to be. *)

From Stdlib Require Import Ascii String QArith Qfield Lqa Sorted.
From stdpp Require Import base option list gmap strings pretty.

Local Open Scope string_scope.
Local Open Scope list_scope.

(** ** JavaScript values *)

(** Results of numeric parsing: a finite number or one of the infinities.
    [NaN] is the [None] of [option num]. *)
Inductive num :=
  | Fin (q : Q)
  | PInf
  | NInf.

Inductive value :=
  | VUndef
  | VNull
  | VBool (b : bool)
  | VNum (q : Q)
  | VStr (s : string).

Definition Qltb (x y : Q) : bool := negb (Qle_bool y x).

(** [a < b] on non-NaN numbers. *)
Definition num_ltb (a b : num) : bool :=
  match a, b with
  | Fin x, Fin y => Qltb x y
  | NInf, NInf => false
  | NInf, _ => true
  | _, PInf => match a with PInf => false | _ => true end
  | _, _ => false
  end.

Definition num_lt (a b : num) : Prop := num_ltb a b = true.
Definition num_le (a b : num) : Prop := num_ltb b a = false.

(** ToBoolean. *)
Definition truthy (v : value) : bool :=
  match v with
  | VUndef | VNull => false
  | VBool b => b
  | VNum q => negb (Qeq_bool q 0)
  | VStr s => negb (String.eqb s "")
  end.

(** [v || 0]. *)
Definition orZero (v : value) : value := if truthy v then v else VNum 0.

(** [v || ''] *)
Definition orEmpty (v : value) : value := if truthy v then v else VStr "".

(** [!s] for a string-or-absent field. *)
Definition falsyStr (s : option string) : bool :=
  match s with
  | Some s => String.eqb s ""
  | None => true
  end.

(** ** Strings *)

Definition isUpperAscii (c : ascii) : bool :=
  let n := nat_of_ascii c in (65 <=? n)%nat && (n <=? 90)%nat.
Definition isLowerAscii (c : ascii) : bool :=
  let n := nat_of_ascii c in (97 <=? n)%nat && (n <=? 122)%nat.
Definition isDigitAscii (c : ascii) : bool :=
  let n := nat_of_ascii c in (48 <=? n)%nat && (n <=? 57)%nat.

Definition lowerAscii (c : ascii) : ascii :=
  if isUpperAscii c then ascii_of_nat (nat_of_ascii c + 32) else c.
Definition upperAscii (c : ascii) : ascii :=
  if isLowerAscii c then ascii_of_nat (nat_of_ascii c - 32) else c.

Fixpoint toLowerCase (s : string) : string :=
  match s with
  | "" => ""
  | String c r => String (lowerAscii c) (toLowerCase r)
  end.

Fixpoint trimStart (s : string) : string :=
  match s with
  | String c r => if Ascii.is_space c then trimStart r else s
  | "" => ""
  end.

Definition trim (s : string) : string :=
  String.rev (trimStart (String.rev (trimStart s))).

(** [s.startsWith(p)] *)
Definition startsWith (s p : string) : bool := String.prefix p s.

(** [s.includes(ex)] *)
Fixpoint includes (s ex : string) : bool :=
  startsWith s ex ||
  match s with
  | String _ r => includes r ex
  | "" => false
  end.

(** [parts.join(sep)] *)
Fixpoint join (sep : string) (parts : list string) : string :=
  match parts with
  | [] => ""
  | [p] => p
  | p :: rest => p +:+ sep +:+ join sep rest
  end.

(** *** [new RegExp('\\b' + escapeRegExp(term) + '\\b', 'i').test(s)]

    [escapeRegExp] makes every character of the term literal, so the
    pattern matches exactly when the term occurs in [s], compared without
    regard to case, between two word boundaries. *)

Definition isWordChar (c : ascii) : bool :=
  isUpperAscii c || isLowerAscii c || isDigitAscii c || Ascii.eqb c "_".

Definition isWordAt (c : option ascii) : bool :=
  match c with Some c => isWordChar c | None => false end.

(** [\b] between the character before a position and the one at it. *)
Definition wordBoundary (before at_ : option ascii) : bool :=
  xorb (isWordAt before) (isWordAt at_).

Definition headChar (s : string) : option ascii :=
  match s with String c _ => Some c | "" => None end.

Definition ciEq (a b : ascii) : bool := Ascii.eqb (upperAscii a) (upperAscii b).

(** Consume [term] at the head of [s]; on success return the last character
    consumed (or [before] when the term is empty) and what is left of [s]. *)
Fixpoint consumeTerm (term s : string) (before : option ascii)
  : option (option ascii * string) :=
  match term with
  | "" => Some (before, s)
  | String t term' =>
      match s with
      | String c s' => if ciEq t c then consumeTerm term' s' (Some c) else None
      | "" => None
      end
  end.

Definition matchHere (term s : string) (before : option ascii) : bool :=
  wordBoundary before (headChar s) &&
  match consumeTerm term s before with
  | Some (last, rest) => wordBoundary last (headChar rest)
  | None => false
  end.

Fixpoint matchFrom (term s : string) (before : option ascii) : bool :=
  matchHere term s before ||
  match s with
  | String c s' => matchFrom term s' (Some c)
  | "" => false
  end.

Definition wordBoundaryTest (term s : string) : bool := matchFrom term s None.

(** *** [parseFloat] *)

Fixpoint takeDigits (s : string) : list nat * string :=
  match s with
  | String c r =>
      match Ascii.is_nat c with
      | Some d => let '(ds, rest) := takeDigits r in (d :: ds, rest)
      | None => ([], s)
      end
  | "" => ([], "")
  end.

Definition digitsValue (ds : list nat) : Z :=
  fold_left (fun acc d => (10 * acc + Z.of_nat d)%Z) ds 0%Z.

(** The optional [ExponentPart]: [e] or [E], an optional sign, at least one
    digit.  An incomplete exponent is not part of the literal. *)
Definition exponentPart (s : string) : Z :=
  match s with
  | String c r =>
      if Ascii.eqb c "e" || Ascii.eqb c "E" then
        let '(neg, r') :=
          match r with
          | String "+" r' => (false, r')
          | String "-" r' => (true, r')
          | _ => (false, r)
          end in
        match takeDigits r' with
        | ([], _) => 0%Z
        | (ds, _) => if neg then (- digitsValue ds)%Z else digitsValue ds
        end
      else 0%Z
  | "" => 0%Z
  end.

Definition scale10 (m : Q) (e : Z) : Q := (m * Qpower 10 e)%Q.

(** The longest prefix of [s] that is an unsigned [StrDecimalLiteral] other
    than [Infinity], as a rational; [None] when there is none. *)
Definition unsignedDecimal (s : string) : option Q :=
  let '(ip, s1) := takeDigits s in
  match s1 with
  | String "." r =>
      let '(fp, s2) := takeDigits r in
      match ip, fp with
      | [], [] => None
      | _, _ =>
          let m := (inject_Z (digitsValue (ip ++ fp)) / inject_Z (10 ^ Z.of_nat (length fp)))%Q in
          Some (scale10 m (exponentPart s2))
      end
  | _ =>
      match ip with
      | [] => None
      | _ => Some (scale10 (inject_Z (digitsValue ip)) (exponentPart s1))
      end
  end.

Definition parseFloatStr (s : string) : option num :=
  let s0 := trimStart s in
  let '(neg, s1) :=
    match s0 with
    | String "+" r => (false, r)
    | String "-" r => (true, r)
    | _ => (false, s0)
    end in
  if startsWith s1 "Infinity" then Some (if neg then NInf else PInf)
  else
    match unsignedDecimal s1 with
    | Some q => Some (Fin (if neg then - q else q)%Q)
    | None => None
    end.

(** [parseFloat(v)]: the argument is converted to a string first; a number
    reads back as itself, and [undefined], [null], [true] and [false] spell
    no number. *)
Definition parseFloat (v : value) : option num :=
  match v with
  | VNum q => Some (Fin q)
  | VStr s => parseFloatStr s
  | VUndef | VNull | VBool _ => None
  end.

(** ** [1. constants.js] *)

Record NodeTypes := {
  PILLAR : string;
  PARENT : string;
  SUBTOPIC : string;
  CLUSTER : string;
  KEYWORDS : string
}.

Definition NodeType : NodeTypes := {|
  PILLAR := "pillar";
  PARENT := "parent";
  SUBTOPIC := "subtopic";
  CLUSTER := "cluster";
  KEYWORDS := "keywords"
|}.

Record Range := {
  label : string;
  min : value;
  max : value
}.

Definition mkRange (l : string) (lo hi : value) : Range :=
  {| label := l; min := lo; max := hi |}.

Definition rangesOf (l : list (string * Range)) : gmap string Range := list_to_map l.

(** The three tables.  The labels are display text only; their dashes are
    written as hyphens here. *)

Definition SEARCH_VOLUME_RANGES : gmap string Range := rangesOf [
  ("any", mkRange "Any" VNull VNull);
  ("1-10", mkRange "1-10" (VNum 1) (VNum 10));
  ("11-100", mkRange "11-100" (VNum 11) (VNum 100));
  ("101-1000", mkRange "101-1,000" (VNum 101) (VNum 1000));
  ("1001-10000", mkRange "1,001-10,000" (VNum 1001) (VNum 10000));
  ("10001-100000", mkRange "10,001-100,000" (VNum 10001) (VNum 100000));
  ("100001+", mkRange "100,001+" (VNum 100001) VNull);
  ("custom", mkRange "Custom range" VNull VNull) ].

Definition KEYWORD_DIFFICULTY_RANGES : gmap string Range := rangesOf [
  ("any", mkRange "Any" VNull VNull);
  ("0-14", mkRange "Very easy (0-14%)" (VNum 0) (VNum 14));
  ("15-29", mkRange "Easy (15-29%)" (VNum 15) (VNum 29));
  ("30-49", mkRange "Possible (30-49%)" (VNum 30) (VNum 49));
  ("50-69", mkRange "Difficult (50-69%)" (VNum 50) (VNum 69));
  ("70-84", mkRange "Hard (70-84%)" (VNum 70) (VNum 84));
  ("85-100", mkRange "Very hard (85-100%)" (VNum 85) (VNum 100));
  ("custom", mkRange "Custom range" VNull VNull) ].

Definition CPC_RANGES : gmap string Range := rangesOf [
  ("any", mkRange "Any" VNull VNull);
  ("0.01-0.50", mkRange "$0.01 - $0.50" (VNum (1 # 100)) (VNum (50 # 100)));
  ("0.51-1.00", mkRange "$0.51 - $1.00" (VNum (51 # 100)) (VNum 1));
  ("1.01-2.00", mkRange "$1.01 - $2.00" (VNum (101 # 100)) (VNum 2));
  ("2.01-5.00", mkRange "$2.01 - $5.00" (VNum (201 # 100)) (VNum 5));
  ("5.01+", mkRange "$5.01+" (VNum (501 # 100)) VNull);
  ("custom", mkRange "Custom range" VNull VNull) ].

(** ** [7.2. filterSortUtils.js]: the range matcher *)

Record RangeFilter := {
  currentSelection : option string;
  customMin : value;
  customMax : value
}.

Definition isEmptyStr (v : value) : bool :=
  match v with VStr "" => true | _ => false end.

Definition isNull (v : value) : bool :=
  match v with VNull => true | _ => false end.

(** A bound as the code holds it: [None] is [null], [Some None] is [NaN]. *)
Definition bound := option (option num).

(** The bounds chosen for a selection that is neither ['any'] nor falsy;
    [None] is the early [return true] of the final [else]. *)
Definition selectBounds (sel : string) (filterSetting : RangeFilter)
    (rangeCollection : gmap string Range) : option (bound * bound) :=
  if String.eqb sel "custom" then
    Some (if isEmptyStr (customMin filterSetting) then None
          else Some (parseFloat (customMin filterSetting)),
          if isEmptyStr (customMax filterSetting) then None
          else Some (parseFloat (customMax filterSetting)))
  else
    match rangeCollection !! sel with
    | Some range =>
        Some (if isNull (min range) then None else Some (parseFloat (min range)),
              if isNull (max range) then None else Some (parseFloat (max range)))
    | None => None
    end.

(** [minBound !== null && !isNaN(minBound) && val < minBound] *)
Definition belowMin (val : num) (minBound : bound) : bool :=
  match minBound with
  | Some (Some lo) => num_ltb val lo
  | _ => false
  end.

(** [maxBound !== null && !isNaN(maxBound) && val > maxBound] *)
Definition aboveMax (val : num) (maxBound : bound) : bool :=
  match maxBound with
  | Some (Some hi) => num_ltb hi val
  | _ => false
  end.

Definition checkRangeSelectionFilter_internal (v : value)
    (filterSetting : RangeFilter) (rangeCollection : gmap string Range) : bool :=
  match parseFloat v with
  | None => true
  | Some val =>
      match currentSelection filterSetting with
      | None => true
      | Some sel =>
          if String.eqb sel "any" || String.eqb sel "" then true
          else
            match selectBounds sel filterSetting rangeCollection with
            | None => true
            | Some (minBound, maxBound) =>
                if belowMin val minBound then false
                else if aboveMax val maxBound then false
                else true
            end
      end
  end.

(** ** The data model *)

Record Keyword := {
  kw_keyword : option string;      (* [None]: missing or not a string *)
  kw_searchVolume : value;
  kw_keywordDifficulty : value;
  kw_cpc : value
}.

Record Metadata := {
  centroid_keywords : option string;
  tfidf_keywords : option string
}.

#[local] Unset Elimination Schemes.
Inductive Node := mkNode {
  node_name : option string;
  node_type : option string;
  node_size : value;
  node_totalKeywords : value;
  node_totalClusters : value;
  node_averageKD : value;
  node_averageCPC : value;
  node_metadata : option Metadata;
  node_keywords : option (list Keyword);
  node_children : option (list Node)
}.
#[local] Set Elimination Schemes.

Record FlatRecord := {
  item_id : string;
  item_name : option string;
  item_type : option string;
  item_searchVolume : value;
  item_keywordDifficulty : value;
  item_cpc : value;
  item_totalKeywords : value;
  item_totalClusters : value;
  item_fullHierarchyPath : option string;
  item_metadata : option Metadata
}.

(** [node.type === tag] *)
Definition typeIs (t : option string) (tag : string) : bool :=
  match t with
  | Some t => String.eqb t tag
  | None => false
  end.

(** [node.children || []] *)
Definition childrenOf (node : Node) : list Node := default [] (node_children node).

(** Induction on a node, with the property known of all its children. *)
Section NodeInduction.
Variable P : Node → Prop.
Hypothesis step : ∀ node, Forall P (childrenOf node) → P node.

Fixpoint Node_ind (node : Node) : P node :=
  step node
    (match node as n return Forall P (childrenOf n) with
     | mkNode _ _ _ _ _ _ _ _ _ children =>
         match children as c return Forall P (default [] c) with
         | Some cs =>
             (fix all (cs : list Node) : Forall P cs :=
                match cs with
                | [] => List.Forall_nil P
                | c :: rest => List.Forall_cons P c rest (Node_ind c) (all rest)
                end) cs
         | None => List.Forall_nil P
         end
     end).
End NodeInduction.

(** ** [7.1. dataProcessingUtils.js]: normalization *)

(** The [filter] callback of [transformNodeForHierarchicalView], run over
    the array with the shared [seenKeywords] set. *)
Fixpoint keepUnseen (kws : list Keyword) (seenKeywords : gset string)
  : list Keyword * gset string :=
  match kws with
  | [] => ([], seenKeywords)
  | kw :: rest =>
      match kw_keyword kw with
      | None => keepUnseen rest seenKeywords
      | Some k =>
          if decide (k ∈ seenKeywords) then keepUnseen rest seenKeywords
          else
            let '(kept, seen') := keepUnseen rest ({[k]} ∪ seenKeywords) in
            (kw :: kept, seen')
      end
  end.

Fixpoint transformNodeForHierarchicalView (node : Node) (seenKeywords : gset string)
  : Node * gset string :=
  match node with
  | mkNode name type size totalKeywords totalClusters averageKD averageCPC
           metadata keywords children =>
      let '(keywords', seen1) :=
        match keywords with
        | Some kws => let '(kept, s) := keepUnseen kws seenKeywords in (Some kept, s)
        | None => (None, seenKeywords)
        end in
      let '(children', seen2) :=
        match children with
        | Some cs =>
            let '(cs', s) :=
              (fix mapChildren (cs : list Node) (seen : gset string) : list Node * gset string :=
                 match cs with
                 | [] => ([], seen)
                 | child :: rest =>
                     let '(child', s1) := transformNodeForHierarchicalView child seen in
                     let '(rest', s2) := mapChildren rest s1 in
                     (child' :: rest', s2)
                 end) cs seen1 in
            (Some cs', s)
        | None => (None, seen1)
        end in
      (mkNode name type (orZero size) (orZero totalKeywords) (orZero totalClusters)
              (orZero averageKD) (orZero averageCPC) metadata keywords' children',
       seen2)
  end.

(** [nodes.map(child => transformNodeForHierarchicalView(child, seenKeywords))] *)
Fixpoint transformChildren (cs : list Node) (seen : gset string) : list Node * gset string :=
  match cs with
  | [] => ([], seen)
  | child :: rest =>
      let '(child', s1) := transformNodeForHierarchicalView child seen in
      let '(rest', s2) := transformChildren rest s1 in
      (child' :: rest', s2)
  end.

Record Extracted := {
  keywordsList : list FlatRecord;
  pillarsList : list FlatRecord;
  parentsList : list FlatRecord;
  subtopicsList : list FlatRecord;
  clustersList : list FlatRecord
}.

Definition noneExtracted : Extracted :=
  {| keywordsList := []; pillarsList := []; parentsList := [];
     subtopicsList := []; clustersList := [] |}.

Definition concatExtracted (a b : Extracted) : Extracted :=
  {| keywordsList := keywordsList a ++ keywordsList b;
     pillarsList := pillarsList a ++ pillarsList b;
     parentsList := parentsList a ++ parentsList b;
     subtopicsList := subtopicsList a ++ subtopicsList b;
     clustersList := clustersList a ++ clustersList b |}.

(** What the traversal of [extractAllNodesAndKeywords] carries along: the
    shared [seenKeywords] set and the number of [Math.random()] draws made. *)
Record ExtractState := {
  seen : gset string;
  draws : nat
}.

(** A template-literal hole holding a string-or-absent field. *)
Definition showStr (s : option string) : string := default "undefined" s.

Section Extract.
(** [randomSuffix n]: what the [n]-th evaluation of
    [Math.random().toString(36).substr(2, 9)] returns. *)
Variable randomSuffix : nat → string.
Variable NT : NodeTypes.

(** The [forEach] over a cluster's keywords. *)
Fixpoint extractKeywords (kws : list Keyword) (newPath : list string)
    (fullPathString : string) (st : ExtractState) : list FlatRecord * ExtractState :=
  match kws with
  | [] => ([], st)
  | kw :: rest =>
      match kw_keyword kw with
      | None => extractKeywords rest newPath fullPathString st
      | Some k =>
          if decide (k ∈ seen st) then extractKeywords rest newPath fullPathString st
          else
            let record := {|
              item_id := "keyword-" +:+ k +:+ "-" +:+ randomSuffix (draws st);
              item_name := Some k;
              item_type := Some (KEYWORDS NT);
              item_searchVolume := orZero (kw_searchVolume kw);
              item_keywordDifficulty := orZero (kw_keywordDifficulty kw);
              item_cpc := orZero (kw_cpc kw);
              item_totalKeywords := VUndef;
              item_totalClusters := VUndef;
              item_fullHierarchyPath :=
                Some (match newPath with
                      | [] => k
                      | _ => fullPathString +:+ " > " +:+ k
                      end);
              item_metadata := None |} in
            let '(more, st') :=
              extractKeywords rest newPath fullPathString
                {| seen := {[k]} ∪ seen st; draws := S (draws st) |} in
            (record :: more, st')
      end
  end.

(** What one iteration of the [for] loop pushes for [node] itself, before
    it descends into the children: the node's record in the list of its
    type and, for a cluster, the records of its unseen keywords. *)
Definition extractOwn (node : Node) (currentPath : list string) (level : nat)
    (st : ExtractState) : Extracted * list string * ExtractState :=
  let newPath :=
    if falsyStr (node_name node) then currentPath
    else currentPath ++ [showStr (node_name node)] in
  let fullPathString := join " > " newPath in
  let commonNodeData := {|
    item_id := showStr (node_type node) +:+ "-" +:+ showStr (node_name node) +:+ "-"
               +:+ pretty level +:+ "-" +:+ randomSuffix (draws st);
    item_name := node_name node;
    item_type := node_type node;
    item_searchVolume := orZero (node_size node);
    item_keywordDifficulty := orZero (node_averageKD node);
    item_cpc := orZero (node_averageCPC node);
    item_totalKeywords := orZero (node_totalKeywords node);
    item_totalClusters := orZero (node_totalClusters node);
    item_fullHierarchyPath := Some fullPathString;
    item_metadata := None |} in
  let st1 := {| seen := seen st; draws := S (draws st) |} in
  if typeIs (node_type node) (PILLAR NT) then
    ({| keywordsList := []; pillarsList := [commonNodeData]; parentsList := [];
        subtopicsList := []; clustersList := [] |}, newPath, st1)
  else if typeIs (node_type node) (PARENT NT) then
    ({| keywordsList := []; pillarsList := []; parentsList := [commonNodeData];
        subtopicsList := []; clustersList := [] |}, newPath, st1)
  else if typeIs (node_type node) (SUBTOPIC NT) then
    ({| keywordsList := []; pillarsList := []; parentsList := [];
        subtopicsList := [commonNodeData]; clustersList := [] |}, newPath, st1)
  else if typeIs (node_type node) (CLUSTER NT) then
    let '(kws, st2) :=
      match node_keywords node with
      | Some kws => extractKeywords kws newPath fullPathString st1
      | None => ([], st1)
      end in
    ({| keywordsList := kws; pillarsList := []; parentsList := [];
        subtopicsList := []; clustersList := [commonNodeData] |}, newPath, st2)
  else (noneExtracted, newPath, st1).

Fixpoint extractNode (node : Node) (currentPath : list string) (level : nat)
    (st : ExtractState) {struct node} : Extracted * ExtractState :=
  if falsyStr (node_type node) then (noneExtracted, st)
  else
    let '(own, newPath, st1) := extractOwn node currentPath level st in
    match node with
    | mkNode _ _ _ _ _ _ _ _ _ (Some cs) =>
        let '(nested, st2) :=
          (fix loop (nodes : list Node) (st : ExtractState) : Extracted * ExtractState :=
             match nodes with
             | [] => (noneExtracted, st)
             | n :: rest =>
                 let '(e1, s1) := extractNode n newPath (S level) st in
                 let '(e2, s2) := loop rest s1 in
                 (concatExtracted e1 e2, s2)
             end) cs st1 in
        (concatExtracted own nested, st2)
    | mkNode _ _ _ _ _ _ _ _ _ None => (own, st1)
    end.

(** [extractAllNodesAndKeywords(nodes, NodeType, currentPath, level, seenKeywords)] *)
Fixpoint extractAllNodesAndKeywords (nodes : list Node) (currentPath : list string)
    (level : nat) (st : ExtractState) : Extracted * ExtractState :=
  match nodes with
  | [] => (noneExtracted, st)
  | n :: rest =>
      let '(e1, s1) := extractNode n currentPath level st in
      let '(e2, s2) := extractAllNodesAndKeywords rest currentPath level s1 in
      (concatExtracted e1 e2, s2)
  end.

Record Processed := {
  hierarchicalData : list Node;
  allPillarsData : list FlatRecord;
  allParentsData : list FlatRecord;
  allSubtopicsData : list FlatRecord;
  allClustersData : list FlatRecord;
  allKeywordsData : list FlatRecord
}.

(** Steps 1 and 2, shared by [processRawDataFromFile] and
    [processSampleDataForApp]: every top-level node is transformed with a
    set of its own ([new Set()] inside the [map] callback), then the flat
    lists are extracted with one fresh set. *)
Definition processSampleDataForApp (sampleDataInput : list Node) : Processed :=
  let hierarchicalData :=
    map (fun node => fst (transformNodeForHierarchicalView node ∅)) sampleDataInput in
  let extracted :=
    fst (extractAllNodesAndKeywords hierarchicalData [] 0 {| seen := ∅; draws := 0 |}) in
  {| hierarchicalData := hierarchicalData;
     allPillarsData := pillarsList extracted;
     allParentsData := parentsList extracted;
     allSubtopicsData := subtopicsList extracted;
     allClustersData := clustersList extracted;
     allKeywordsData := keywordsList extracted |}.

(** [JSON.parse(fileContents)] is taken as given: [inl msg] when parsing
    (or reading the document) throws with message [msg], otherwise the
    [data] field, [None] when it is missing. *)
Definition processRawDataFromFile (parsedData : string + option (list Node))
  : string + Processed :=
  match parsedData with
  | inl message => inl ("Error parsing JSON file: " +:+ message)
  | inr data => inr (processSampleDataForApp (default [] data))
  end.
End Extract.

(** ** [7.1. dataProcessingUtils.js]: aggregated metrics *)

Record Metrics := {
  totalSearchVolume : Q;
  totalKeywords : Q;
  totalClusters : Q;
  weightedKDSum : Q;
  totalVolumeForKD : Q;
  itemsWithKD : Q;
  simpleKDSum : Q;
  weightedCPCSum : Q;
  totalVolumeForCPC : Q;
  itemsWithCPC : Q;
  simpleCPCSum : Q;
  averageKD : Q;
  averageCPC : Q
}.

(** [typeof v === 'number' ? v : 0] *)
Definition numberOrZero (v : value) : Q :=
  match v with VNum q => q | _ => 0%Q end.

(** [typeof v === 'number' ? v : null] *)
Definition numberOrNull (v : value) : option Q :=
  match v with VNum q => Some q | _ => None end.

Definition initialMetrics (isCluster : bool) : Metrics :=
  {| totalSearchVolume := 0; totalKeywords := 0;
     totalClusters := if isCluster then 1 else 0;
     weightedKDSum := 0; totalVolumeForKD := 0; itemsWithKD := 0; simpleKDSum := 0;
     weightedCPCSum := 0; totalVolumeForCPC := 0; itemsWithCPC := 0; simpleCPCSum := 0;
     averageKD := 0; averageCPC := 0 |}.

(** The body of the [forEach] over a cluster's keywords. *)
Definition addKeyword (metrics : Metrics) (kw : Keyword) : Metrics :=
  let sv := numberOrZero (kw_searchVolume kw) in
  let kd := numberOrNull (kw_keywordDifficulty kw) in
  let cpc := numberOrNull (kw_cpc kw) in
  {| totalSearchVolume := totalSearchVolume metrics + sv;
     totalKeywords := totalKeywords metrics + 1;
     totalClusters := totalClusters metrics;
     weightedKDSum :=
       match kd with Some kd => weightedKDSum metrics + kd * sv | None => weightedKDSum metrics end;
     totalVolumeForKD :=
       match kd with Some _ => totalVolumeForKD metrics + sv | None => totalVolumeForKD metrics end;
     itemsWithKD :=
       match kd with Some _ => itemsWithKD metrics + 1 | None => itemsWithKD metrics end;
     simpleKDSum :=
       match kd with Some kd => simpleKDSum metrics + kd | None => simpleKDSum metrics end;
     weightedCPCSum :=
       match cpc with Some cpc => weightedCPCSum metrics + cpc * sv | None => weightedCPCSum metrics end;
     totalVolumeForCPC :=
       match cpc with Some _ => totalVolumeForCPC metrics + sv | None => totalVolumeForCPC metrics end;
     itemsWithCPC :=
       match cpc with Some _ => itemsWithCPC metrics + 1 | None => itemsWithCPC metrics end;
     simpleCPCSum :=
       match cpc with Some cpc => simpleCPCSum metrics + cpc | None => simpleCPCSum metrics end;
     averageKD := averageKD metrics;
     averageCPC := averageCPC metrics |}%Q.

(** The body of the [forEach] over the children: every accumulator of the
    child is added, its two averages are not. *)
Definition addChild (metrics childMetrics : Metrics) : Metrics :=
  {| totalSearchVolume := totalSearchVolume metrics + totalSearchVolume childMetrics;
     totalKeywords := totalKeywords metrics + totalKeywords childMetrics;
     totalClusters := totalClusters metrics + totalClusters childMetrics;
     weightedKDSum := weightedKDSum metrics + weightedKDSum childMetrics;
     totalVolumeForKD := totalVolumeForKD metrics + totalVolumeForKD childMetrics;
     itemsWithKD := itemsWithKD metrics + itemsWithKD childMetrics;
     simpleKDSum := simpleKDSum metrics + simpleKDSum childMetrics;
     weightedCPCSum := weightedCPCSum metrics + weightedCPCSum childMetrics;
     totalVolumeForCPC := totalVolumeForCPC metrics + totalVolumeForCPC childMetrics;
     itemsWithCPC := itemsWithCPC metrics + itemsWithCPC childMetrics;
     simpleCPCSum := simpleCPCSum metrics + simpleCPCSum childMetrics;
     averageKD := averageKD metrics;
     averageCPC := averageCPC metrics |}%Q.

(** The two [if / else if / else] ladders that set the averages. *)
Definition average (weightedSum totalVolume simpleSum items : Q) : Q :=
  if Qltb 0 totalVolume then (weightedSum / totalVolume)%Q
  else if Qltb 0 items then (simpleSum / items)%Q
  else 0%Q.

Definition setAverages (metrics : Metrics) : Metrics :=
  {| totalSearchVolume := totalSearchVolume metrics;
     totalKeywords := totalKeywords metrics;
     totalClusters := totalClusters metrics;
     weightedKDSum := weightedKDSum metrics;
     totalVolumeForKD := totalVolumeForKD metrics;
     itemsWithKD := itemsWithKD metrics;
     simpleKDSum := simpleKDSum metrics;
     weightedCPCSum := weightedCPCSum metrics;
     totalVolumeForCPC := totalVolumeForCPC metrics;
     itemsWithCPC := itemsWithCPC metrics;
     simpleCPCSum := simpleCPCSum metrics;
     averageKD := average (weightedKDSum metrics) (totalVolumeForKD metrics)
                          (simpleKDSum metrics) (itemsWithKD metrics);
     averageCPC := average (weightedCPCSum metrics) (totalVolumeForCPC metrics)
                           (simpleCPCSum metrics) (itemsWithCPC metrics) |}.

(** The [WeakMap]: the entries set so far, newest first.  A [WeakMap] is
    keyed by object identity, which is finer than equality of contents;
    [sameObject] stands for it. *)
Definition Cache := list (Node * Metrics).

Section MetricsCache.
Variable sameObject : Node → Node → bool.
Variable NT : NodeTypes.

(** [cache && cache.has(node)], then [cache.get(node)] *)
Definition cacheGet (cache : option Cache) (node : Node) : option Metrics :=
  match cache with
  | Some entries => snd <$> find (fun e => sameObject (fst e) node) entries
  | None => None
  end.

(** [if (cache) cache.set(node, metrics)] *)
Definition cacheSet (cache : option Cache) (node : Node) (metrics : Metrics)
  : option Cache :=
  match cache with
  | Some entries => Some ((node, metrics) :: entries)
  | None => None
  end.

(** The metrics before the children are visited: the cluster count and the
    node's own keywords. *)
Definition ownMetrics (node : Node) : Metrics :=
  let isCluster := typeIs (node_type node) (CLUSTER NT) in
  let metrics := initialMetrics isCluster in
  match node_keywords node with
  | Some kws => if isCluster then fold_left addKeyword kws metrics else metrics
  | None => metrics
  end.

(** [calculateMetricsRecursively] is the function itself, as every caller
    passes it. *)
Fixpoint calculateDynamicNodeMetrics (node : Node) (cache : option Cache)
    {struct node} : Metrics * option Cache :=
  match cacheGet cache node with
  | Some cached => (cached, cache)
  | None =>
      let metrics := ownMetrics node in
      let '(metrics, cache) :=
        match node with
        | mkNode _ _ _ _ _ _ _ _ _ (Some cs) =>
            (fix forEach (cs : list Node) (metrics : Metrics) (cache : option Cache)
               : Metrics * option Cache :=
               match cs with
               | [] => (metrics, cache)
               | childNode :: rest =>
                   let '(childMetrics, cache) :=
                     calculateDynamicNodeMetrics childNode cache in
                   forEach rest (addChild metrics childMetrics) cache
               end) cs metrics cache
        | mkNode _ _ _ _ _ _ _ _ _ None => (metrics, cache)
        end in
      let metrics := setAverages metrics in
      (metrics, cacheSet cache node metrics)
  end.

(** The [forEach] over the children. *)
Fixpoint forEachChild (cs : list Node) (metrics : Metrics) (cache : option Cache)
  : Metrics * option Cache :=
  match cs with
  | [] => (metrics, cache)
  | childNode :: rest =>
      let '(childMetrics, cache) := calculateDynamicNodeMetrics childNode cache in
      forEachChild rest (addChild metrics childMetrics) cache
  end.
End MetricsCache.

(** ** [7.2. filterSortUtils.js]: text matching *)

Record SearchTerm := {
  term_value : string;
  isExact : bool
}.

(** The filter state, as far as the two filters read it: its
    [pillarTopic] entry is read by the caller only, who passes the selection
    on as [selectedPillar]. *)
Record Filters := {
  nodeTypes : gmap string bool;
  filters_searchVolume : RangeFilter;
  filters_keywordDifficulty : RangeFilter;
  filters_averageCPC : RangeFilter
}.

(** [filters.nodeTypes[key]], as a condition. *)
Definition nodeTypeSelected (filters : Filters) (key : string) : bool :=
  default false (nodeTypes filters !! key).

(** The [isExcluded] helper of both filters. *)
Definition isExcluded (excludedKeywords : list string) (name : option string) : bool :=
  match name with
  | Some name =>
      if String.eqb name "" then false
      else
        let lower := toLowerCase (trim name) in
        existsb (fun ex => includes lower ex) excludedKeywords
  | None => false
  end.

(** [s ? s.toLowerCase() : ''] *)
Definition lowerOrEmpty (s : option string) : string :=
  match s with
  | Some s => toLowerCase s
  | None => ""
  end.

(** One search term against one lowercased text. *)
Definition termMatches (termObj : SearchTerm) (textLower : string) : bool :=
  if isExact termObj then String.eqb textLower (term_value termObj)
  else wordBoundaryTest (term_value termObj) textLower.

(** [node.metadata?.centroid_keywords] and [node.metadata?.tfidf_keywords],
    lowercased or empty. *)
Definition centroidLower (metadata : option Metadata) : string :=
  lowerOrEmpty (metadata ≫= centroid_keywords).
Definition tfidfLower (metadata : option Metadata) : string :=
  lowerOrEmpty (metadata ≫= tfidf_keywords).

(** ** [7.2. filterSortUtils.js]: the tree filter *)

Section TreeFilter.
Variable filters : Filters.
Variable searchTermsArray : list SearchTerm.
Variable NT : NodeTypes.
Variable applyFiltersToNodeNames : bool.
Variable checkRangeFunc : value → RangeFilter → gmap string Range → bool.
Variables SV_RANGES KD_RANGES CPC_RANGES_ : gmap string Range.
Variable excludedKeywords : list string.

Definition passesNumerics (node : Node) : bool :=
  if applyFiltersToNodeNames then
    checkRangeFunc (orZero (node_size node)) (filters_searchVolume filters) SV_RANGES &&
    checkRangeFunc (orZero (node_averageKD node)) (filters_keywordDifficulty filters) KD_RANGES &&
    checkRangeFunc (orZero (node_averageCPC node)) (filters_averageCPC filters) CPC_RANGES_
  else true.

Definition passesSearch (node : Node) : bool :=
  match applyFiltersToNodeNames, searchTermsArray with
  | true, _ :: _ =>
      let nodeNameLower := lowerOrEmpty (node_name node) in
      let centroidKeywordsLower := centroidLower (node_metadata node) in
      let tfidfKeywordsLower := tfidfLower (node_metadata node) in
      existsb (fun termObj =>
                 termMatches termObj nodeNameLower ||
                 termMatches termObj centroidKeywordsLower ||
                 termMatches termObj tfidfKeywordsLower) searchTermsArray
  | _, _ => true
  end.

(** The callback of [node.keywords.filter]. *)
Definition keywordPasses (kw : Keyword) : bool :=
  match kw_keyword kw with
  | None => false
  | Some k =>
      if isExcluded excludedKeywords (Some k) then false
      else
        let kwTextLower := toLowerCase k in
        let kwSearchMatch :=
          match searchTermsArray with
          | _ :: _ => existsb (fun termObj => termMatches termObj kwTextLower) searchTermsArray
          | [] => true
          end in
        let kwNumericMatch :=
          checkRangeFunc (orZero (kw_searchVolume kw)) (filters_searchVolume filters) SV_RANGES &&
          checkRangeFunc (orZero (kw_keywordDifficulty kw)) (filters_keywordDifficulty filters) KD_RANGES &&
          checkRangeFunc (orZero (kw_cpc kw)) (filters_averageCPC filters) CPC_RANGES_ in
        kwSearchMatch && kwNumericMatch
  end.

Definition filteredKeywordsOf (node : Node) : list Keyword :=
  match node_keywords node with
  | Some kws =>
      if typeIs (node_type node) (CLUSTER NT) && nodeTypeSelected filters (KEYWORDS NT)
      then filter (fun kw => keywordPasses kw = true) kws
      else []
  | None => []
  end.

(** The decision taken for [node] once its [visibleChildren] are known. *)
Definition includeNode (node : Node) (visibleChildren : list Node) : bool :=
  let isNodeTypeSelected := nodeTypeSelected filters (showStr (node_type node)) in
  let selfMatchesContentFilters := passesNumerics node && passesSearch node in
  let clusterHasMatchingKeywords :=
    match filteredKeywordsOf node with [] => false | _ :: _ => true end in
  match visibleChildren with
  | _ :: _ => true
  | [] =>
      if isNodeTypeSelected && selfMatchesContentFilters then true
      else typeIs (node_type node) (CLUSTER NT) &&
           nodeTypeSelected filters (KEYWORDS NT) && clusterHasMatchingKeywords
  end.

(** [{ ...node, children: visibleChildren, keywords: filteredKeywords }] *)
Definition withChildrenAndKeywords (node : Node) (visibleChildren : list Node)
    (filteredKeywords : list Keyword) : Node :=
  mkNode (node_name node) (node_type node) (node_size node) (node_totalKeywords node)
         (node_totalClusters node) (node_averageKD node) (node_averageCPC node)
         (node_metadata node) (Some filteredKeywords) (Some visibleChildren).

(** The guard of the [continue] that concerns a node's name. *)
Definition skippedByName (node : Node) : bool :=
  applyFiltersToNodeNames && isExcluded excludedKeywords (node_name node).

(** One iteration of the [for] loop: the node pushed for [node], if any. *)
Fixpoint filterNode (node : Node) : option Node :=
  if skippedByName node then None
  else
    let visibleChildren :=
      match node with
      | mkNode _ _ _ _ _ _ _ _ _ (Some cs) =>
          (fix loop (nodes : list Node) : list Node :=
             match nodes with
             | [] => []
             | n :: rest =>
                 match filterNode n with
                 | Some n' => n' :: loop rest
                 | None => loop rest
                 end
             end) cs
      | mkNode _ _ _ _ _ _ _ _ _ None => []
      end in
    if includeNode node visibleChildren
    then Some (withChildrenAndKeywords node visibleChildren (filteredKeywordsOf node))
    else None.

Fixpoint filterHierarchicalTreeRecursive_internal (nodesToFilter : list Node) : list Node :=
  match nodesToFilter with
  | [] => []
  | node :: rest =>
      match filterNode node with
      | Some node' => node' :: filterHierarchicalTreeRecursive_internal rest
      | None => filterHierarchicalTreeRecursive_internal rest
      end
  end.
End TreeFilter.

(** The exposed wrapper: it fixes [checkRangeFunc]. *)
Definition filterHierarchicalTreeRecursive (nodesToFilter : list Node) (filters : Filters)
    (searchTermsArray : list SearchTerm) (NT : NodeTypes) (applyFiltersToNodeNames : bool)
    (SV_RANGES KD_RANGES CPC_RANGES_ : gmap string Range) (excludedKeywords : list string)
  : list Node :=
  filterHierarchicalTreeRecursive_internal filters searchTermsArray NT applyFiltersToNodeNames
    checkRangeSelectionFilter_internal SV_RANGES KD_RANGES CPC_RANGES_ excludedKeywords
    nodesToFilter.

(** ** [7.2. filterSortUtils.js]: the flat-list filter *)

Section FlatFilter.
Variable filters : Filters.
Variable selectedPillar : string.
Variable searchTermsArray : list SearchTerm.
Variable singleSelectedType : string.
Variable NT : NodeTypes.
Variable rangeCheckFunc : value → RangeFilter → gmap string Range → bool.
Variables SV_RANGES_local KD_RANGES_local CPC_RANGES_local : gmap string Range.
Variable excludedKeywords : list string.

(** The callback of the pillar-scoping [filter]. *)
Definition inSelectedPillar (item : FlatRecord) : bool :=
  match item_fullHierarchyPath item with
  | Some path =>
      if String.eqb path "" then
        typeIs (item_type item) (PILLAR NT) &&
        bool_decide (item_name item = Some selectedPillar)
      else if typeIs (item_type item) (PILLAR NT) then
        bool_decide (item_name item = Some selectedPillar)
      else startsWith path (selectedPillar +:+ " > ")
  | None =>
      typeIs (item_type item) (PILLAR NT) &&
      bool_decide (item_name item = Some selectedPillar)
  end.

(** Stage 1: [pillarFilteredList]. *)
Definition pillarFilteredList (sourceList : list FlatRecord) : list FlatRecord :=
  if negb (String.eqb selectedPillar "all") && negb (String.eqb selectedPillar "")
  then filter (fun item => inSelectedPillar item = true) sourceList
  else sourceList.

(** The callback of the numeric [filter]. *)
Definition passesRanges (item : FlatRecord) : bool :=
  rangeCheckFunc (orZero (item_searchVolume item)) (filters_searchVolume filters)
                 SV_RANGES_local &&
  rangeCheckFunc (orZero (item_keywordDifficulty item)) (filters_keywordDifficulty filters)
                 KD_RANGES_local &&
  rangeCheckFunc (orZero (item_cpc item)) (filters_averageCPC filters) CPC_RANGES_local.

(** The callback of the search [filter]. *)
Definition itemPassesSearch (item : FlatRecord) : bool :=
  let itemNameLower := lowerOrEmpty (item_name item) in
  let passesSearch :=
    existsb (fun termObj => termMatches termObj itemNameLower) searchTermsArray in
  if negb passesSearch && negb (String.eqb singleSelectedType (KEYWORDS NT)) then
    match item_metadata item with
    | Some metadata =>
        let centroidKeywordsLower := lowerOrEmpty (centroid_keywords metadata) in
        let tfidfKeywordsLower := lowerOrEmpty (tfidf_keywords metadata) in
        existsb (fun termObj =>
                   termMatches termObj centroidKeywordsLower ||
                   termMatches termObj tfidfKeywordsLower) searchTermsArray
    | None => passesSearch
    end
  else passesSearch.

Definition filterFlatListByType_internal (sourceList : list FlatRecord) : list FlatRecord :=
  let pillarFilteredList := pillarFilteredList sourceList in
  let numericFilteredList :=
    filter (fun item => passesRanges item = true) pillarFilteredList in
  let exclusionFilteredList :=
    filter (fun item => isExcluded excludedKeywords (item_name item) = false)
           numericFilteredList in
  match searchTermsArray with
  | _ :: _ => filter (fun item => itemPassesSearch item = true) exclusionFilteredList
  | [] => exclusionFilteredList
  end.
End FlatFilter.

(** [window.filterFlatListByType], called as the application calls it, with
    [checkRangeSelectionFilter] for [rangeCheckFunc]. *)
Definition filterFlatListByType (sourceList : list FlatRecord) (filters : Filters)
    (selectedPillar : string) (searchTermsArray : list SearchTerm)
    (singleSelectedType : string) (NT : NodeTypes)
    (SV_RANGES_local KD_RANGES_local CPC_RANGES_local : gmap string Range)
    (excludedKeywords : list string) : list FlatRecord :=
  filterFlatListByType_internal filters selectedPillar searchTermsArray singleSelectedType NT
    checkRangeSelectionFilter_internal SV_RANGES_local KD_RANGES_local CPC_RANGES_local
    excludedKeywords sourceList.

(** ** [7.4. csvExportUtils.js] *)

(** A row handed to the export: the fields [flattenNodeData] reads. *)
Record ExportRow := {
  row_name : value;
  row_type : option string;
  row_searchVolume : value;
  row_keywordDifficulty : value;
  row_cpc : value;
  row_keyword : value;
  row_keywords : option (list Keyword)
}.

(** A flattened row: an object whose keys keep their insertion order. *)
Definition FlatData := list (string * value).

(** [flatData[key] = v]: an existing key keeps its place. *)
Fixpoint setField (flatData : FlatData) (key : string) (v : value) : FlatData :=
  match flatData with
  | [] => [(key, v)]
  | (k, old) :: rest =>
      if String.eqb k key then (k, v) :: rest else (k, old) :: setField rest key v
  end.

(** [flatData[key]] *)
Fixpoint getField (flatData : FlatData) (key : string) : value :=
  match flatData with
  | [] => VUndef
  | (k, v) :: rest => if String.eqb k key then v else getField rest key
  end.

(** [node.keywords.map(k => k.keyword).join('; ')]; [join] writes nothing
    for a missing keyword. *)
Definition joinKeywords (kws : list Keyword) : string :=
  join "; " (map (fun k => default "" (kw_keyword k)) kws).

Definition flattenNodeData (node : ExportRow) : FlatData :=
  let flatData := [
    ("Keyword", orEmpty (row_name node));
    ("Search Volume", orEmpty (row_searchVolume node));
    ("Keyword Difficulty", orEmpty (row_keywordDifficulty node));
    ("CPC (USD)", orEmpty (row_cpc node)) ] in
  let flatData :=
    if typeIs (row_type node) "KEYWORDS" && truthy (row_keyword node)
    then setField flatData "Keyword" (row_keyword node)
    else flatData in
  match row_keywords node with
  | Some kws =>
      if typeIs (row_type node) "CLUSTER" then
        setField
          (setField flatData "Keyword Count" (VNum (inject_Z (Z.of_nat (length kws)))))
          "Keywords" (VStr (joinKeywords kws))
      else flatData
  | None => flatData
  end.

Definition dquote : ascii := ascii_of_nat 34.

(** The [replace] of [convertToCSV]: every double quote is written twice. *)
Fixpoint doubleQuotes (s : string) : string :=
  match s with
  | "" => ""
  | String c r =>
      if Ascii.eqb c dquote then String dquote (String dquote (doubleQuotes r))
      else String c (doubleQuotes r)
  end.

Section Csv.
(** Number-to-string conversion, as [Array.prototype.join] applies it. *)
Variable numberToString : Q → string.

(** What [join] writes for an element. *)
Definition cellToString (v : value) : string :=
  match v with
  | VUndef | VNull => ""
  | VBool true => "true"
  | VBool false => "false"
  | VNum q => numberToString q
  | VStr s => s
  end.

(** The callback of [headers.map]: quoting of a string holding a comma
    or a double quote. *)
Definition csvCell (v : value) : value :=
  match v with
  | VStr s =>
      if includes s "," || includes s (String dquote "")
      then VStr (String dquote (doubleQuotes s +:+ String dquote ""))
      else v
  | _ => v
  end.

Definition csvRow (headers : list string) (item : ExportRow) : string :=
  let flatItem := flattenNodeData item in
  join "," (map (fun header => cellToString (csvCell (getField flatItem header))) headers).

Definition csvHeaders (data : list ExportRow) : list string :=
  match data with
  | first :: _ => map fst (flattenNodeData first)
  | [] => []
  end.

Definition convertToCSV (data : list ExportRow) : string :=
  match data with
  | [] => ""
  | _ :: _ =>
      let headers := csvHeaders data in
      join (String (ascii_of_nat 10) "") (join "," headers :: map (csvRow headers) data)
  end.
End Csv.

(** ** [1. constants.js]: the initial filter state, and sample records *)

Definition anySelection : RangeFilter :=
  {| currentSelection := Some "any"; customMin := VStr ""; customMax := VStr "" |}.

Definition namedSelection (key : string) : RangeFilter :=
  {| currentSelection := Some key; customMin := VStr ""; customMax := VStr "" |}.

Definition INITIAL_FILTERS_STATE : Filters :=
  {| nodeTypes := list_to_map [("pillar", true); ("parent", true); ("subtopic", true);
                               ("cluster", true); ("keywords", true)];
     filters_searchVolume := anySelection;
     filters_keywordDifficulty := anySelection;
     filters_averageCPC := anySelection |}.

(** A keyword as the flat keyword list holds it. *)
Definition keywordRecord (k : string) (path : string) (sv kd cpc : value) : FlatRecord :=
  {| item_id := "keyword-" +:+ k; item_name := Some k; item_type := Some "keywords";
     item_searchVolume := sv; item_keywordDifficulty := kd; item_cpc := cpc;
     item_totalKeywords := VUndef; item_totalClusters := VUndef;
     item_fullHierarchyPath := Some path; item_metadata := None |}.

(** A node as the flat pillar, parent, subtopic and cluster lists hold it. *)
Definition nodeRecord (type name path : string) : FlatRecord :=
  {| item_id := type +:+ "-" +:+ name; item_name := Some name; item_type := Some type;
     item_searchVolume := VNum 0; item_keywordDifficulty := VNum 0; item_cpc := VNum 0;
     item_totalKeywords := VNum 0; item_totalClusters := VNum 0;
     item_fullHierarchyPath := Some path; item_metadata := None |}.

Definition mkKeyword (k : string) (sv kd cpc : value) : Keyword :=
  {| kw_keyword := Some k; kw_searchVolume := sv; kw_keywordDifficulty := kd; kw_cpc := cpc |}.

(** A raw node with a name, a type, keywords and children, and nothing else. *)
Definition rawNode (type name : string) (keywords : option (list Keyword))
    (children : option (list Node)) : Node :=
  mkNode (Some name) (Some type) VUndef VUndef VUndef VUndef VUndef None keywords children.

(** The dataset of the search scenario, flat and as a cluster. *)
Definition dentalCrown : FlatRecord :=
  keywordRecord "dental crown" "Restorative > Crowns > dental crown" (VNum 900) (VNum 40) (VNum 2).
Definition dentalCrowns : FlatRecord :=
  keywordRecord "dental crowns" "Restorative > Crowns > dental crowns" (VNum 700) (VNum 35) (VNum 3).

Definition crownsCluster : Node :=
  rawNode "cluster" "Crowns"
    (Some [mkKeyword "dental crown" (VNum 900) (VNum 40) (VNum 2);
           mkKeyword "dental crowns" (VNum 700) (VNum 35) (VNum 3)])
    None.

(** What the application's term parser makes of [dental crown] typed bare
    and typed between double quotes. *)
Definition unquotedDentalCrown : SearchTerm :=
  {| term_value := "dental crown"; isExact := false |}.
Definition quotedDentalCrown : SearchTerm :=
  {| term_value := "dental crown"; isExact := true |}.

(** Two pillars over the cluster of the search scenario: one plain, one
    whose name holds an excluded word. *)
Definition restorativePillar : Node :=
  rawNode "pillar" "Restorative" None (Some [crownsCluster]).
Definition flaggedPillar : Node :=
  rawNode "pillar" "Spam Pillar" None (Some [crownsCluster]).

Definition keywordsOff : Filters :=
  {| nodeTypes := <["keywords" := false]> (nodeTypes INITIAL_FILTERS_STATE);
     filters_searchVolume := anySelection;
     filters_keywordDifficulty := anySelection;
     filters_averageCPC := anySelection |}.

Definition volumeFrom101 : Filters :=
  {| nodeTypes := nodeTypes INITIAL_FILTERS_STATE;
     filters_searchVolume := namedSelection "101-1000";
     filters_keywordDifficulty := anySelection;
     filters_averageCPC := anySelection |}.

(** A cluster row handed to the export, tagged as [NodeType.CLUSTER] tags
    it, and the same row tagged with the literal [flattenNodeData] tests. *)
Definition clusterRow (type : string) : ExportRow :=
  {| row_name := VStr "Crowns"; row_type := Some type;
     row_searchVolume := VNum 1600; row_keywordDifficulty := VNum 38; row_cpc := VNum 2;
     row_keyword := VUndef;
     row_keywords := Some [mkKeyword "dental crown" (VNum 900) (VNum 40) (VNum 2);
                           mkKeyword "dental crowns" (VNum 700) (VNum 35) (VNum 3)] |}.

(** A document with the keyword ["seo tips"] in two clusters of two
    different pillars, with different metrics. *)
Definition seoTipsDocument : list Node :=
  [ rawNode "pillar" "Content" None
      (Some [rawNode "cluster" "Blogging"
               (Some [mkKeyword "seo tips" (VNum 1000) (VNum 30) (VNum 1);
                      mkKeyword "blog ideas" (VNum 400) (VNum 20) (VNum 1)])
               None]);
    rawNode "pillar" "Technical" None
      (Some [rawNode "cluster" "Audits"
               (Some [mkKeyword "seo tips" (VNum 50) (VNum 60) (VNum 4)])
               None]) ].

(** ** Vocabulary of the statements *)

(** Equality of parsed numbers as numbers. *)
Definition num_eq (a b : num) : Prop :=
  match a, b with
  | Fin x, Fin y => (x == y)%Q
  | PInf, PInf | NInf, NInf => True
  | _, _ => False
  end.

(** A custom bound that is empty or spells no number. *)
Definition malformedBound (b : value) : Prop := b = VStr "" ∨ parseFloat b = None.

(** The lower bound a filter setting imposes, when its selection is active
    and resolves to one that is a number. *)
Definition activeLowerBound (filterSetting : RangeFilter)
    (rangeCollection : gmap string Range) (lo : num) : Prop :=
  ∃ sel maxBound,
    currentSelection filterSetting = Some sel ∧ sel ≠ "any" ∧ sel ≠ "" ∧
    selectBounds sel filterSetting rangeCollection = Some (Some (Some lo), maxBound).

(** The three metrics of a flat record, each with its filter setting. *)
Inductive metric := SearchVolume | KeywordDifficulty | Cpc.

Definition metricOf (m : metric) (item : FlatRecord) : value :=
  match m with
  | SearchVolume => item_searchVolume item
  | KeywordDifficulty => item_keywordDifficulty item
  | Cpc => item_cpc item
  end.

Definition settingOf (m : metric) (filters : Filters) : RangeFilter :=
  match m with
  | SearchVolume => filters_searchVolume filters
  | KeywordDifficulty => filters_keywordDifficulty filters
  | Cpc => filters_averageCPC filters
  end.

Definition collectionOf (m : metric) (sv kd cpc : gmap string Range) : gmap string Range :=
  match m with
  | SearchVolume => sv
  | KeywordDifficulty => kd
  | Cpc => cpc
  end.

(** [path.startsWith(prefix)] for a path that may be missing. *)
Definition pathStartsWith (path : option string) (prefix : string) : bool :=
  match path with
  | Some path => startsWith path prefix
  | None => false
  end.

(** Pillar scoping as the specification words it: the records whose path
    starts with the pillar's name and separator, plus the Pillar-typed
    records named like the pillar. *)
Definition pillarScopeAsSpecified (NT : NodeTypes) (selectedPillar : string)
    (item : FlatRecord) : bool :=
  pathStartsWith (item_fullHierarchyPath item) (selectedPillar +:+ " > ") ||
  (typeIs (item_type item) (PILLAR NT) && bool_decide (item_name item = Some selectedPillar)).

(** Pillar scoping by cases on the record's type: a Pillar-typed record is
    judged by its name alone, any other record by its path alone. *)
Definition pillarScopeByType (NT : NodeTypes) (selectedPillar : string)
    (item : FlatRecord) : bool :=
  if typeIs (item_type item) (PILLAR NT)
  then bool_decide (item_name item = Some selectedPillar)
  else pathStartsWith (item_fullHierarchyPath item) (selectedPillar +:+ " > ").

(** [subnode n root]: [n] is [root] or lies below it. *)
Inductive subnode (n : Node) : Node → Prop :=
  | subnode_self : subnode n n
  | subnode_below child root :
      child ∈ childrenOf root → subnode n child → subnode n root.

(** [clearPath skipped ancestor descendant]: [descendant] lies strictly
    below [ancestor], and no node from [ancestor] down to the parent of
    [descendant] is skipped. *)
Inductive clearPath (skipped : Node → bool) : Node → Node → Prop :=
  | clearPath_child ancestor descendant :
      skipped ancestor = false → descendant ∈ childrenOf ancestor →
      clearPath skipped ancestor descendant
  | clearPath_below ancestor child descendant :
      skipped ancestor = false → child ∈ childrenOf ancestor →
      clearPath skipped child descendant →
      clearPath skipped ancestor descendant.

(** [descendantOf ancestor descendant]: strictly below. *)
Definition descendantOf : Node → Node → Prop := clearPath (λ _, false).

(** The keywords of the Cluster-typed nodes at or below [node], in
    depth-first, array order. *)
Fixpoint clusterKeywordsUnder (NT : NodeTypes) (node : Node) : list Keyword :=
  (if typeIs (node_type node) (CLUSTER NT) then default [] (node_keywords node) else []) ++
  match node with
  | mkNode _ _ _ _ _ _ _ _ _ (Some cs) =>
      (fix below (cs : list Node) : list Keyword :=
         match cs with
         | [] => []
         | c :: rest => clusterKeywordsUnder NT c ++ below rest
         end) cs
  | mkNode _ _ _ _ _ _ _ _ _ None => []
  end.

(** The keyword strings of all cluster keyword arrays of a tree, taken
    together. *)
Definition treeKeywordStrings (NT : NodeTypes) (nodes : list Node) : list string :=
  omap kw_keyword (flat_map (clusterKeywordsUnder NT) nodes).

(** How many times [k] occurs in a list of strings. *)
Definition occurrences (k : string) (l : list string) : nat :=
  length (filter (λ s, s = k) l).

(** The columns every flattened row has. *)
Definition fixedColumns : list string :=
  ["Keyword"; "Search Volume"; "Keyword Difficulty"; "CPC (USD)"].

(** The metrics of a node computed without a cache. *)
Definition metricsOf (NT : NodeTypes) (node : Node) : Metrics :=
  fst (calculateDynamicNodeMetrics (λ _ _, false) NT node None).

(** Identity of objects implies equality of contents. *)
Definition identityLike (sameObject : Node → Node → bool) : Prop :=
  ∀ a b, sameObject a b = true → a = b.

(** Every entry of the cache holds the metrics of its node. *)
Definition cacheSound (sameObject : Node → Node → bool) (NT : NodeTypes)
    (cache : option Cache) : Prop :=
  ∀ node cached, cacheGet sameObject cache node = Some cached → cached = metricsOf NT node.

Definition sumQ (l : list Q) : Q := fold_right Qplus 0%Q l.

Definition volumeOf (kw : Keyword) : Q := numberOrZero (kw_searchVolume kw).
Definition kdOf (kw : Keyword) : option Q := numberOrNull (kw_keywordDifficulty kw).
Definition cpcOf (kw : Keyword) : option Q := numberOrNull (kw_cpc kw).

(** Over the keywords that supply [metric]: the sum of metric times volume,
    the sum of the volumes, the sum of the metric values, and their number. *)
Definition weightedSum (metric : Keyword → option Q) (kws : list Keyword) : Q :=
  sumQ (map (λ kw, match metric kw with Some x => x * volumeOf kw | None => 0 end)%Q kws).
Definition volumeSum (metric : Keyword → option Q) (kws : list Keyword) : Q :=
  sumQ (map (λ kw, match metric kw with Some _ => volumeOf kw | None => 0 end)%Q kws).
Definition simpleSum (metric : Keyword → option Q) (kws : list Keyword) : Q :=
  sumQ (map (λ kw, match metric kw with Some x => x | None => 0 end)%Q kws).
Definition supplying (metric : Keyword → option Q) (kws : list Keyword) : nat :=
  length (filter (λ kw, is_Some (metric kw)) kws).

(** The average computation policy: volume-weighted when the summed volume
    is positive, else the plain mean of the values supplied, else 0. *)
Definition policyAverage (metric : Keyword → option Q) (kws : list Keyword) (avg : Q) : Prop :=
  ((0 < volumeSum metric kws)%Q →
   (avg == weightedSum metric kws / volumeSum metric kws)%Q) ∧
  (¬ (0 < volumeSum metric kws)%Q → (0 < supplying metric kws)%nat →
   (avg == simpleSum metric kws / inject_Z (Z.of_nat (supplying metric kws)))%Q) ∧
  (¬ (0 < volumeSum metric kws)%Q → supplying metric kws = 0%nat → (avg == 0)%Q).

(** A pillar over two clusters whose own averages are 10 and 50. *)
Definition twoClusterPillar : Node :=
  rawNode "pillar" "Pillar" None
    (Some [rawNode "cluster" "Light" (Some [mkKeyword "a" (VNum 100) (VNum 10) VUndef]) None;
           rawNode "cluster" "Heavy" (Some [mkKeyword "b" (VNum 300) (VNum 50) VUndef]) None]).

(** The cluster of the weighted-average example. *)
Definition weightedExample : Node :=
  rawNode "cluster" "Example"
    (Some [mkKeyword "first" (VNum 100) (VNum 50) VUndef;
           mkKeyword "second" (VNum 0) (VNum 80) VUndef])
    None.

(** A selector of one accumulator, with what a keyword contributes to it. *)
Record Additive (f : Metrics → Q) (g : Keyword → Q) : Prop := {
  additive_initial : ∀ isCluster, (f (initialMetrics isCluster) == 0)%Q;
  additive_keyword : ∀ metrics kw, (f (addKeyword metrics kw) == f metrics + g kw)%Q;
  additive_child : ∀ metrics child, (f (addChild metrics child) == f metrics + f child)%Q;
  additive_averages : ∀ metrics, (f (setAverages metrics) == f metrics)%Q
}.

(** The keywords of every node at or below [node], whatever its type, in
    depth-first, array order. *)
Fixpoint allKeywordsUnder (node : Node) : list Keyword :=
  default [] (node_keywords node) ++
  match node with
  | mkNode _ _ _ _ _ _ _ _ _ (Some cs) =>
      (fix below (cs : list Node) : list Keyword :=
         match cs with
         | [] => []
         | c :: rest => allKeywordsUnder c ++ below rest
         end) cs
  | mkNode _ _ _ _ _ _ _ _ _ None => []
  end.

(** One deduplicating step from [seen] to [seen']: the strings it lets
    through are pairwise distinct, none was seen before, and all are seen
    afterwards. *)
Definition dedupStep (seen : gset string) (names : list string) (seen' : gset string) : Prop :=
  NoDup names ∧ (∀ k, k ∈ names → k ∉ seen) ∧ seen' = seen ∪ list_to_set names.

(** ** Vocabulary of the further properties *)

(** The keys of the named search-volume and difficulty buckets, in the
    order of their tables. *)
Definition searchVolumeBuckets : list string :=
  ["1-10"; "11-100"; "101-1000"; "1001-10000"; "10001-100000"; "100001+"].
Definition difficultyBuckets : list string :=
  ["0-14"; "15-29"; "30-49"; "50-69"; "70-84"; "85-100"].

(** The buckets of a table that accept a number. *)
Definition acceptingBuckets (buckets : list string) (rangeCollection : gmap string Range)
    (q : Q) : list string :=
  filter (λ key, checkRangeSelectionFilter_internal (VNum q) (namedSelection key)
                   rangeCollection = true) buckets.

(** The names of the nodes at or below [node], in depth-first order. *)
Fixpoint nodeNames (node : Node) : list (option string) :=
  node_name node ::
  match node with
  | mkNode _ _ _ _ _ _ _ _ _ (Some cs) =>
      (fix below (cs : list Node) : list (option string) :=
         match cs with
         | [] => []
         | c :: rest => nodeNames c ++ below rest
         end) cs
  | mkNode _ _ _ _ _ _ _ _ _ None => []
  end.

(** What the flat-list filter asks of one record, all four stages at once. *)
Definition flatKeeps (filters : Filters) (selectedPillar : string)
    (searchTermsArray : list SearchTerm) (singleSelectedType : string) (NT : NodeTypes)
    (rangeCheckFunc : value → RangeFilter → gmap string Range → bool)
    (sv kd cpc : gmap string Range) (excludedKeywords : list string)
    (item : FlatRecord) : bool :=
  (String.eqb selectedPillar "all" || String.eqb selectedPillar "" ||
   inSelectedPillar selectedPillar NT item) &&
  passesRanges filters rangeCheckFunc sv kd cpc item &&
  negb (isExcluded excludedKeywords (item_name item)) &&
  match searchTermsArray with
  | [] => true
  | _ :: _ => itemPassesSearch searchTermsArray singleSelectedType NT item
  end.

(** A range setting that selects nothing: no selection, ['any'] or ['']. *)
Definition inactiveSelection (filterSetting : RangeFilter) : Prop :=
  currentSelection filterSetting = None ∨
  currentSelection filterSetting = Some "any" ∨
  currentSelection filterSetting = Some "".

(** [record] is the flat record of the keyword [kw], as
    [extractAllNodesAndKeywords] builds it. *)
Definition recordOfKeyword (record : FlatRecord) (kw : Keyword) : Prop :=
  is_Some (kw_keyword kw) ∧
  item_name record = kw_keyword kw ∧
  item_searchVolume record = orZero (kw_searchVolume kw) ∧
  item_keywordDifficulty record = orZero (kw_keywordDifficulty kw) ∧
  item_cpc record = orZero (kw_cpc kw) ∧
  item_metadata record = None.

(** ** [1. constants.js]: the built-in sample *)

(** A node of the sample: a name, and a [size] or [children]. *)
Definition sampleLeaf (name : string) (size : Q) : Node :=
  mkNode (Some name) None (VNum size) VUndef VUndef VUndef VUndef None None None.
Definition sampleBranch (name : string) (children : list Node) : Node :=
  mkNode (Some name) None VUndef VUndef VUndef VUndef VUndef None None (Some children).

Definition SAMPLE_DATA : list Node := [
  sampleBranch "1. Dental Health Fundamentals" [
    sampleLeaf "General Oral Health Information" 800;
    sampleLeaf "Preventative Care & Hygiene" 800;
    sampleLeaf "Oral Anatomy & Development" 600;
    sampleLeaf "Common Dental Problems" 700;
    sampleLeaf "Nutrition & Oral Health" 500 ];
  sampleBranch "2. Dental Treatments & Procedures" [
    sampleBranch "Diagnostic Procedures" [
      sampleLeaf "Dental X-ray" 300;
      sampleLeaf "Dental CT Scan" 300 ];
    sampleBranch "Restorative Treatments" [
      sampleLeaf "Dental Crowns" 300;
      sampleLeaf "Crown over Implant" 300 ] ] ].

(** A node as normalization leaves it: numeric fields defaulted, and every
    keyword of its array a string. *)
Definition normalised (node : Node) : Prop :=
  orZero (node_size node) = node_size node ∧
  orZero (node_totalKeywords node) = node_totalKeywords node ∧
  orZero (node_totalClusters node) = node_totalClusters node ∧
  orZero (node_averageKD node) = node_averageKD node ∧
  orZero (node_averageCPC node) = node_averageCPC node ∧
  Forall (λ kw, is_Some (kw_keyword kw)) (default [] (node_keywords node)).

(** A keyword record filed under the top-level node named [pillar]. *)
Definition filedUnder (NT : NodeTypes) (pillar : string) (record : FlatRecord) : Prop :=
  item_type record = Some (KEYWORDS NT) ∧
  pathStartsWith (item_fullHierarchyPath record) (pillar +:+ " > ") = true.

(** The number of Cluster-typed nodes at or below [node]. *)
Fixpoint clustersUnder (NT : NodeTypes) (node : Node) : nat :=
  (if typeIs (node_type node) (CLUSTER NT) then 1 else 0) +
  match node with
  | mkNode _ _ _ _ _ _ _ _ _ (Some cs) =>
      (fix below (cs : list Node) : nat :=
         match cs with
         | [] => 0
         | c :: rest => clustersUnder NT c + below rest
         end) cs
  | mkNode _ _ _ _ _ _ _ _ _ None => 0
  end%nat.

(** A count as the number the code holds. *)
Definition countQ (n : nat) : Q := inject_Z (Z.of_nat n).

(** ** The application: metrics of a node and of the whole view

    [calculateMetricsForNode] starts every pass with a [WeakMap] of its
    own. *)
Definition calculateMetricsForNode (sameObject : Node → Node → bool) (NT : NodeTypes)
    (node : Node) : Metrics :=
  fst (calculateDynamicNodeMetrics sameObject NT node (Some [])).

(** What [aggregateMetrics] returns. *)
Record GlobalMetrics := {
  global_totalSearchVolume : Q;
  global_averageKD : Q;
  global_totalKeywords : Q;
  global_averageCPC : Q
}.

(** [aggregateMetrics] of [globalMetrics].  An item is read through its
    [searchVolume], [keywordDifficulty] and [cpc] only; the body of its
    [forEach] updates the ten sums as the loop over a cluster's keywords
    does in [calculateDynamicNodeMetrics], and the two conditional
    expressions are the ladder of [average]. *)
Definition aggregateMetrics (itemList : list Keyword) : GlobalMetrics :=
  let sums := fold_left addKeyword itemList (initialMetrics false) in
  {| global_totalSearchVolume := totalSearchVolume sums;
     global_averageKD := average (weightedKDSum sums) (totalVolumeForKD sums)
                                 (simpleKDSum sums) (itemsWithKD sums);
     global_totalKeywords := totalKeywords sums;
     global_averageCPC := average (weightedCPCSum sums) (totalVolumeForCPC sums)
                                  (simpleCPCSum sums) (itemsWithCPC sums) |}.

(** ** [useSearchLogic]: the exclusion list, and the search-term parser *)

(** [str.split(',')] *)
Fixpoint splitComma (s : string) : list string :=
  match s with
  | "" => [""]
  | String c r =>
      if Ascii.eqb c "," then "" :: splitComma r
      else
        match splitComma r with
        | first :: more => String c first :: more
        | [] => [String c ""]
        end
  end.

(** Without its last character when that is a double quote. *)
Definition dropClosingQuote (s : string) : string :=
  match String.rev s with
  | String c r => if Ascii.eqb c dquote then String.rev r else s
  | "" => s
  end.

(** [raw.replace(/^"|"$/g, '')]: a double quote at the start goes, and one
    at the end of what follows it. *)
Definition stripQuotes (raw : string) : string :=
  dropClosingQuote
    match raw with
    | String c r => if Ascii.eqb c dquote then r else raw
    | "" => ""
    end.

(** [normalise] *)
Definition normalise (str : string) : string := toLowerCase (trim str).

(** The updater [handleAddExcludedKeyword] passes to
    [setExcludedKeywords]; an empty keyword returns before it. *)
Definition handleAddExcludedKeyword (rawKeyword : string) (prev : list string)
  : list string :=
  let keyword := normalise (stripQuotes rawKeyword) in
  if String.eqb keyword "" then prev
  else if bool_decide (keyword ∈ prev) then prev else prev ++ [keyword].

(** The updater of [handleRemoveExcludedKeyword]. *)
Definition handleRemoveExcludedKeyword (rawKeyword : string) (prev : list string)
  : list string :=
  let keyword := normalise rawKeyword in
  filter (λ k, k ≠ keyword) prev.

(** [[...new Set(array)]]: the first occurrence of every element, in
    order. *)
Definition uniqueInOrder (array : list string) : list string :=
  fold_left (λ set x, if bool_decide (x ∈ set) then set else set ++ [x]) array [].

(** The updater of [handleAddMultipleExcludedKeywords]. *)
Definition handleAddMultipleExcludedKeywords (rawSearchTermString : string)
    (prev : list string) : list string :=
  let termsToExclude :=
    filter (λ t, t ≠ "")
      (map (λ t, normalise (stripQuotes t)) (splitComma rawSearchTermString)) in
  match termsToExclude with
  | [] => prev
  | _ :: _ => uniqueInOrder (prev ++ termsToExclude)
  end.

(** [resetExcludedKeywords] *)
Definition resetExcludedKeywords (prev : list string) : list string := [].

(** A call of one of the four handlers. *)
Inductive ExclusionCall :=
  | AddExcluded (rawKeyword : string)
  | RemoveExcluded (rawKeyword : string)
  | AddMultipleExcluded (rawSearchTermString : string)
  | ResetExcluded.

Definition exclusionStep (prev : list string) (call : ExclusionCall) : list string :=
  match call with
  | AddExcluded raw => handleAddExcludedKeyword raw prev
  | RemoveExcluded raw => handleRemoveExcludedKeyword raw prev
  | AddMultipleExcluded raw => handleAddMultipleExcludedKeywords raw prev
  | ResetExcluded => resetExcludedKeywords prev
  end.

(** The exclusion list after a series of calls, from the initial [[]]. *)
Definition excludedAfter (calls : list ExclusionCall) : list string :=
  fold_left exclusionStep calls [].

(** [s.endsWith(p)] *)
Definition endsWith (s p : string) : bool := startsWith (String.rev s) (String.rev p).

(** [s.slice(1, -1)] *)
Definition sliceInner (s : string) : string :=
  match s with
  | String _ r =>
      match String.rev r with
      | String _ m => String.rev m
      | "" => ""
      end
  | "" => ""
  end.

(** The callback of the [map] that reads the search box, with [None] for
    [null]. *)
Definition parseSearchTerm (term : string) : option SearchTerm :=
  let trimmed := trim term in
  if (String.length trimmed =? 0)%nat then None
  else if startsWith trimmed (String dquote "") && endsWith trimmed (String dquote "")
          && (1 <? String.length trimmed)%nat
  then Some {| term_value := toLowerCase (sliceInner trimmed); isExact := true |}
  else Some {| term_value := toLowerCase trimmed; isExact := false |}.

(** [searchTermsArray] of [getFilteredData]. *)
Definition parseSearchTerms (debouncedSearchTerm : string) : list SearchTerm :=
  filter (λ termObj, (0 <? String.length (term_value termObj))%nat = true)
    (omap parseSearchTerm (splitComma debouncedSearchTerm)).

(** [s] does not start with white space. *)
Definition noLeadingSpace (s : string) : Prop :=
  match s with
  | String c _ => Ascii.is_space c = false
  | "" => True
  end.

(** ** [7.2. filterSortUtils.js] and [2. helpers.js]: sorting the flat list *)

Section ArraySort.
Context {A : Type}.
Variable compareFn : A → A → Q.

(** [array.sort(compareFn)], which is stable: an element goes after the
    elements [compareFn] puts strictly before it, and before the others.
    For a [compareFn] that orders the elements consistently this is the
    one result a stable sort can give. *)
Fixpoint insertInOrder (x : A) (sorted : list A) : list A :=
  match sorted with
  | [] => [x]
  | y :: rest =>
      if Qltb 0 (compareFn x y) then y :: insertInOrder x rest else x :: y :: rest
  end.

Definition arraySort (array : list A) : list A := foldr insertInOrder [] array.
End ArraySort.

(** [{ key, direction }] *)
Record SortConfig := {
  sort_key : string;
  sort_direction : string
}.

Definition stringField (s : option string) : value :=
  match s with
  | Some s => VStr s
  | None => VUndef
  end.

(** [item[sortKey]].  The comparison asks of a value whether it is a
    number, whether it is truthy, and its [String(...)]; an object, which
    [metadata] is, is no number, is truthy and prints as the text below. *)
Definition fieldOf (sortKey : string) (item : FlatRecord) : value :=
  if String.eqb sortKey "id" then VStr (item_id item)
  else if String.eqb sortKey "name" then stringField (item_name item)
  else if String.eqb sortKey "type" then stringField (item_type item)
  else if String.eqb sortKey "searchVolume" then item_searchVolume item
  else if String.eqb sortKey "keywordDifficulty" then item_keywordDifficulty item
  else if String.eqb sortKey "cpc" then item_cpc item
  else if String.eqb sortKey "totalKeywords" then item_totalKeywords item
  else if String.eqb sortKey "totalClusters" then item_totalClusters item
  else if String.eqb sortKey "fullHierarchyPath"
       then stringField (item_fullHierarchyPath item)
  else if String.eqb sortKey "metadata"
       then match item_metadata item with
            | Some _ => VStr "[object Object]"
            | None => VUndef
            end
  else VUndef.

(** [getCategory] of [customKeywordSort] *)
Definition getCategory (s : string) : Z :=
  match s with
  | String c _ =>
      if isUpperAscii c || isLowerAscii c then 1
      else if isDigitAscii c then 2
      else 3
  | "" => 3
  end.

Section Sorting.
(** Number-to-string conversion, and [a.localeCompare(b, 'en-US')] and
    [a.localeCompare(b)], which the runtime supplies. *)
Variable numberToString : Q → string.
Variable localeCompare : string → string → Q.
Variable localeCompareDefault : string → string → Q.

(** [String(v || '')] *)
Definition stringOrEmpty (v : value) : string := cellToString numberToString (orEmpty v).

Definition customKeywordSort (valA valB : value) : Q :=
  let strA := trim (stringOrEmpty valA) in
  let strB := trim (stringOrEmpty valB) in
  let categoryA := getCategory strA in
  let categoryB := getCategory strB in
  if negb (categoryA =? categoryB)%Z then inject_Z (categoryA - categoryB)
  else localeCompare (toLowerCase strA) (toLowerCase strB).

(** The comparison used when [customSortFunc] is no function. *)
Definition fallbackSort (a b : value) : Q :=
  localeCompareDefault (toLowerCase (stringOrEmpty a)) (toLowerCase (stringOrEmpty b)).

(** The callback of [sortedList.sort] under a sort configuration. *)
Definition compareBy (sortKey direction : string) (effectiveCustomSort : value → value → Q)
    (a b : FlatRecord) : Q :=
  let valA := fieldOf sortKey a in
  let valB := fieldOf sortKey b in
  let comparison :=
    if String.eqb sortKey "name" || String.eqb sortKey "fullHierarchyPath"
       || String.eqb sortKey "type"
    then effectiveCustomSort valA valB
    else
      match valA, valB with
      | VNum _, VNum _ => (numberOrZero (orZero valA) - numberOrZero (orZero valB))%Q
      | _, _ =>
          localeCompare (toLowerCase (stringOrEmpty valA)) (toLowerCase (stringOrEmpty valB))
      end in
  if String.eqb direction "desc" then (- comparison)%Q else comparison.

Definition sortFlatDataList_internal (list : option (Datatypes.list FlatRecord))
    (sortConfig : option SortConfig) (customSortFunc : option (value → value → Q))
  : Datatypes.list FlatRecord :=
  match list with
  | None => []
  | Some list =>
      let effectiveCustomSort := default fallbackSort customSortFunc in
      let byName :=
        arraySort (λ a b, effectiveCustomSort (stringField (item_name a))
                            (stringField (item_name b))) list in
      match sortConfig with
      | Some config =>
          if negb (String.eqb (sort_key config) "")
          then arraySort (compareBy (sort_key config) (sort_direction config)
                            effectiveCustomSort) list
          else byName
      | None => byName
      end
  end.

(** [sortFlatDataList] as the application calls it, with
    [customKeywordSort]. *)
Definition sortFlatDataList (fullFlatListData : list FlatRecord)
    (sortConfig : option SortConfig) : list FlatRecord :=
  sortFlatDataList_internal (Some fullFlatListData) sortConfig (Some customKeywordSort).
End Sorting.

(** The number in a column. *)
Definition numberIn (sortKey : string) (item : FlatRecord) : Q :=
  numberOrZero (fieldOf sortKey item).

(** The column holds a number in every record of the list. *)
Definition numericColumn (sortKey : string) (records : list FlatRecord) : Prop :=
  Forall (λ item, ∃ q, fieldOf sortKey item = VNum q) records.

(** The records whose number in the column is [v]. *)
Definition withNumber (sortKey : string) (v : Q) (records : list FlatRecord)
  : list FlatRecord :=
  filter (λ item, Qeq_bool (numberIn sortKey item) v = true) records.

(** A comparison of strings that orders them consistently: the signs of
    the two directions agree, and being before-or-level is transitive. *)
Definition consistentComparison (compare : string → string → Q) : Prop :=
  (∀ a b, (0 < compare a b)%Q ↔ (compare b a < 0)%Q) ∧
  (∀ a b c, (compare a b <= 0)%Q → (compare b c <= 0)%Q → (compare a c <= 0)%Q).

(** A comparison by length, for an example. *)
Definition byLength (a b : string) : Q :=
  inject_Z (Z.of_nat (String.length a) - Z.of_nat (String.length b)).

(** The category of a record's name, as [customKeywordSort] sees it. *)
Definition nameCategory (numberToString : Q → string) (item : FlatRecord) : Z :=
  getCategory (trim (stringOrEmpty numberToString (stringField (item_name item)))).

(** ** The application: pages of the flat view *)

Definition ITEMS_PER_PAGE : Z := 100.

(** [array.slice(start, end)]: a negative index counts from the end. *)
Definition slice {A} (array : list A) (start end_ : Z) : list A :=
  let len := Z.of_nat (length array) in
  let from := if (start <? 0)%Z then Z.max (len + start) 0 else Z.min start len in
  let to := if (end_ <? 0)%Z then Z.max (len + end_) 0 else Z.min end_ len in
  take (Z.to_nat (to - from)) (drop (Z.to_nat from) array).

(** [Math.ceil(a / b)] on whole numbers, [b] positive. *)
Definition ceilDiv (a b : Z) : Z := (- ((- a) / b))%Z.

(** [Object.entries(filters.nodeTypes).filter(([_, isSelected]) =>
    isSelected).map(([type]) => type)].  The callers read its length and,
    when that is 1, its one element, so the order of the entries, which the
    map does not record, plays no part. *)
Definition selectedNodeTypesArray (filters : Filters) : list string :=
  (filter (λ entry, entry.2 = true) (map_to_list (nodeTypes filters))).*1.

Definition paginatedViewData (filters : Filters) (currentPage : Z)
    (filteredData : list FlatRecord) : list FlatRecord :=
  let isFlatModeCurrently := (length (selectedNodeTypesArray filters) =? 1)%nat in
  if isFlatModeCurrently && (0 <? length filteredData)%nat then
    let startIndex := ((currentPage - 1) * ITEMS_PER_PAGE)%Z in
    slice filteredData startIndex (startIndex + ITEMS_PER_PAGE)
  else [].

(** The updaters of the [Previous] and [Next] buttons. *)
Definition previousPage (prevPage : Z) : Z := Z.max 1 (prevPage - 1).
Definition nextPage (matchingFlatItemsCount prevPage : Z) : Z :=
  Z.min (ceilDiv matchingFlatItemsCount ITEMS_PER_PAGE) (prevPage + 1).

(** Filters with the keyword type alone switched on, for an example. *)
Definition keywordsOnly : Filters :=
  {| nodeTypes := list_to_map [("pillar", false); ("parent", false); ("subtopic", false);
                               ("cluster", false); ("keywords", true)];
     filters_searchVolume := anySelection;
     filters_keywordDifficulty := anySelection;
     filters_averageCPC := anySelection |}.

(** ** Reading a CSV row back

    The cells of one row as a CSV reader takes them: a comma ends a cell, a
    double quote at the start of a cell opens a quoted cell, in which a
    comma is text and a doubled double quote is one double quote. *)
Inductive ReadMode := Plain | Quoted | Closed.

Fixpoint readCells (mode : ReadMode) (cell : string) (row : string) : list string :=
  match row with
  | "" => [cell]
  | String c rest =>
      match mode with
      | Plain =>
          if Ascii.eqb c "," then cell :: readCells Plain "" rest
          else if Ascii.eqb c dquote && String.eqb cell "" then readCells Quoted cell rest
          else readCells Plain (cell +:+ String c "") rest
      | Quoted =>
          if Ascii.eqb c dquote then readCells Closed cell rest
          else readCells Quoted (cell +:+ String c "") rest
      | Closed =>
          if Ascii.eqb c dquote then readCells Quoted (cell +:+ String c "") rest
          else if Ascii.eqb c "," then cell :: readCells Plain "" rest
          else readCells Plain (cell +:+ String c "") rest
      end
  end.

Definition readRow (row : string) : list string := readCells Plain "" row.

(** Numbers are written without a comma and without a double quote. *)
Definition plainNumbers (numberToString : Q → string) : Prop :=
  ∀ q, includes (numberToString q) "," = false ∧
       includes (numberToString q) (String dquote "") = false.

(** A keyword row whose name holds a comma and double quotes. *)
Definition awkwardRow : ExportRow :=
  {| row_name := VStr ("crowns, " +:+ String dquote ("same day" +:+ String dquote ""));
     row_type := Some "keywords";
     row_searchVolume := VNum 900; row_keywordDifficulty := VNum 40; row_cpc := VUndef;
     row_keyword := VUndef; row_keywords := None |}.

(** [written] is read as the one cell [text], at the end of a row and
    before a comma. *)
Definition cellRead (written text : string) : Prop :=
  readCells Plain "" written = [text] ∧
  ∀ rest, readCells Plain "" (written +:+ String "," rest) = text :: readCells Plain "" rest.

(** ** The application: the global panel *)

(** [keywordMap]: a [Map] keeps its keys in the order they were first
    set. *)
Definition KeywordMap := list (string * Keyword).

(** The callback of [node.keywords.forEach] in [walk].  The copy stored,
    [{ ...kw, type }], has the metrics of [kw]. *)
Definition walkKeyword (keywordMap : KeywordMap) (kw : Keyword) : KeywordMap :=
  match kw_keyword kw with
  | Some keyword =>
      let key := toLowerCase (trim keyword) in
      if bool_decide (key ∈ keywordMap.*1) then keywordMap else keywordMap ++ [(key, kw)]
  | None => keywordMap
  end.

Fixpoint walk (NT : NodeTypes) (node : Node) (keywordMap : KeywordMap) {struct node}
  : KeywordMap :=
  let keywordMap :=
    match node_keywords node with
    | Some kws =>
        if typeIs (node_type node) (CLUSTER NT) then fold_left walkKeyword kws keywordMap
        else keywordMap
    | None => keywordMap
    end in
  match node with
  | mkNode _ _ _ _ _ _ _ _ _ (Some cs) =>
      (fix forEach (cs : list Node) (keywordMap : KeywordMap) : KeywordMap :=
         match cs with
         | [] => keywordMap
         | child :: rest => forEach rest (walk NT child keywordMap)
         end) cs keywordMap
  | mkNode _ _ _ _ _ _ _ _ _ None => keywordMap
  end.

(** A flat record as [aggregateMetrics] reads it. *)
Definition asItem (record : FlatRecord) : Keyword :=
  {| kw_keyword := item_name record;
     kw_searchVolume := item_searchVolume record;
     kw_keywordDifficulty := item_keywordDifficulty record;
     kw_cpc := item_cpc record |}.

(** [globalMetrics]; [getFilteredData] is [None] for [null]. *)
Definition globalMetrics (filters : Filters) (NT : NodeTypes)
    (getFilteredData : option (list Node)) (filteredData : list FlatRecord)
  : GlobalMetrics :=
  let calculatedMetrics :=
    {| global_totalSearchVolume := 0; global_averageKD := 0;
       global_totalKeywords := 0; global_averageCPC := 0 |} in
  let flat := (length (selectedNodeTypesArray filters) =? 1)%nat in
  if negb flat then
    match getFilteredData with
    | Some roots =>
        if (0 <? length roots)%nat then
          let keywordMap :=
            fold_left (λ keywordMap node, walk NT node keywordMap) roots [] in
          aggregateMetrics (keywordMap.*2)
        else calculatedMetrics
    | None => calculatedMetrics
    end
  else
    if (0 <? length filteredData)%nat then aggregateMetrics (map asItem filteredData)
    else calculatedMetrics.

(** The keys [walk] gives the keywords of a tree, in depth-first order. *)
Definition keywordKeys (NT : NodeTypes) (roots : list Node) : list string :=
  omap (λ kw, normalise <$> kw_keyword kw) (flat_map (clusterKeywordsUnder NT) roots).

(** ** The application: [getFilteredData]

    The memo returns the tree to show and stores the flat list in
    [fullFlatListData.current], which is threaded here; [selectedPillar] is
    [filters.pillarTopic.currentSelection], and the five flat lists are
    those of the processed document.  The page, length and progress
    setters it calls are left out. *)
Definition sourceDataForFlatList (NT : NodeTypes) (processed : Processed)
    (singleSelectedType : string) : list FlatRecord :=
  if String.eqb singleSelectedType (PILLAR NT) then allPillarsData processed
  else if String.eqb singleSelectedType (PARENT NT) then allParentsData processed
  else if String.eqb singleSelectedType (SUBTOPIC NT) then allSubtopicsData processed
  else if String.eqb singleSelectedType (CLUSTER NT) then allClustersData processed
  else if String.eqb singleSelectedType (KEYWORDS NT) then allKeywordsData processed
  else [].

Definition getFilteredData (NT : NodeTypes)
    (SEARCH_VOLUME_RANGES_ KEYWORD_DIFFICULTY_RANGES_ CPC_RANGES_ : gmap string Range)
    (data : option (list Node)) (processed : Processed) (filters : Filters)
    (selectedPillar : string) (debouncedSearchTerm : string)
    (excludedKeywords : list string) (fullFlatListData : list FlatRecord)
  : option (list Node) * list FlatRecord :=
  match data with
  | None => (None, fullFlatListData)
  | Some data =>
      let dataSource :=
        if String.eqb selectedPillar "all" || String.eqb selectedPillar "" then data
        else filter (λ node, typeIs (node_type node) (PILLAR NT) &&
                             bool_decide (node_name node = Some selectedPillar) = true) data in
      let searchTermsArray := parseSearchTerms debouncedSearchTerm in
      match selectedNodeTypesArray filters with
      | [] => (Some [], [])
      | [singleSelectedType] =>
          (Some [],
           filterFlatListByType (sourceDataForFlatList NT processed singleSelectedType)
             filters selectedPillar searchTermsArray singleSelectedType NT
             SEARCH_VOLUME_RANGES_ KEYWORD_DIFFICULTY_RANGES_ CPC_RANGES_ excludedKeywords)
      | _ :: _ :: _ =>
          (Some (filterHierarchicalTreeRecursive dataSource filters searchTermsArray NT false
                   SEARCH_VOLUME_RANGES_ KEYWORD_DIFFICULTY_RANGES_ CPC_RANGES_
                   excludedKeywords),
           [])
      end
  end.

(** ** The application: the filter controls

    The three range entries of the filter state are fields of [Filters];
    [filters.pillarTopic] is kept apart from it, so a handler called with
    another key leaves [Filters] as it is. *)
Definition rangeEntry (filterKey : string) (filters : Filters) : option RangeFilter :=
  if String.eqb filterKey "searchVolume" then Some (filters_searchVolume filters)
  else if String.eqb filterKey "keywordDifficulty" then Some (filters_keywordDifficulty filters)
  else if String.eqb filterKey "averageCPC" then Some (filters_averageCPC filters)
  else None.

(** [{ ...prevFilters, [filterKey]: entry(prevFilters[filterKey]) }] *)
Definition withRangeEntry (filterKey : string) (entry : RangeFilter → RangeFilter)
    (prevFilters : Filters) : Filters :=
  if String.eqb filterKey "searchVolume" then
    {| nodeTypes := nodeTypes prevFilters;
       filters_searchVolume := entry (filters_searchVolume prevFilters);
       filters_keywordDifficulty := filters_keywordDifficulty prevFilters;
       filters_averageCPC := filters_averageCPC prevFilters |}
  else if String.eqb filterKey "keywordDifficulty" then
    {| nodeTypes := nodeTypes prevFilters;
       filters_searchVolume := filters_searchVolume prevFilters;
       filters_keywordDifficulty := entry (filters_keywordDifficulty prevFilters);
       filters_averageCPC := filters_averageCPC prevFilters |}
  else if String.eqb filterKey "averageCPC" then
    {| nodeTypes := nodeTypes prevFilters;
       filters_searchVolume := filters_searchVolume prevFilters;
       filters_keywordDifficulty := filters_keywordDifficulty prevFilters;
       filters_averageCPC := entry (filters_averageCPC prevFilters) |}
  else prevFilters.

(** The updater of [handleDropdownChange]. *)
Definition handleDropdownChange (filterKey selectedValue : string) (prevFilters : Filters)
  : Filters :=
  withRangeEntry filterKey
    (λ prev,
       {| currentSelection := Some selectedValue;
          customMin := if negb (String.eqb selectedValue "custom") then VStr ""
                       else customMin prev;
          customMax := if negb (String.eqb selectedValue "custom") then VStr ""
                       else customMax prev |})
    prevFilters.

(** The updater of [handleCustomInputChange]; [boundary] is ['customMin']
    or ['customMax'], [value] the text of the input. *)
Definition handleCustomInputChange (filterKey boundary value : string)
    (prevFilters : Filters) : Filters :=
  withRangeEntry filterKey
    (λ prev,
       if String.eqb boundary "customMin" then
         {| currentSelection := currentSelection prev;
            customMin := VStr value; customMax := customMax prev |}
       else if String.eqb boundary "customMax" then
         {| currentSelection := currentSelection prev;
            customMin := customMin prev; customMax := VStr value |}
       else prev)
    prevFilters.

(** The keys of the three range entries. *)
Definition rangeKeys : list string := ["searchVolume"; "keywordDifficulty"; "averageCPC"].

(** ** The application: the flat view, from the filter to the page

    The effect that sorts: [sortConfig] is the state array, of which the
    first element counts. *)
Definition sortedFlatData (numberToString : Q → string)
    (localeCompare localeCompareDefault : string → string → Q)
    (fullFlatListData : list FlatRecord) (sortConfig : list SortConfig) : list FlatRecord :=
  sortFlatDataList numberToString localeCompare localeCompareDefault fullFlatListData
    (head sortConfig).

(** The updater of [handleSort]. *)
Definition handleSort (columnKey : string) (currentSortConfigArray : list SortConfig)
  : list SortConfig :=
  let newDirection :=
    match head currentSortConfigArray with
    | Some currentSort =>
        if String.eqb (sort_key currentSort) columnKey
           && String.eqb (sort_direction currentSort) "asc"
        then "desc" else "asc"
    | None => "asc"
    end in
  [{| sort_key := columnKey; sort_direction := newDirection |}].

(** * Properties *)

(** ** The string and number primitives, on examples *)

Example parseFloat_examples :
  parseFloat (VStr "  -12.5e1abc") = Some (Fin (- (125 # 10) * 10)) ∧
  parseFloat (VStr "1e") = Some (Fin (1 * 1)) ∧
  parseFloat (VStr "-Infinity") = Some NInf ∧
  parseFloat (VStr "abc") = None ∧
  parseFloat (VStr ".") = None ∧
  parseFloat (VStr "") = None ∧
  parseFloat VNull = None.
Proof.
  repeat split; reflexivity.
Qed.

Example string_examples :
  trim "  Dental Crown  " = "Dental Crown" ∧
  toLowerCase "Dental Crown" = "dental crown" ∧
  includes "dental crown" "tal c" = true ∧
  includes "dental crown" "" = true ∧
  startsWith "Pillar A > Crowns" "Pillar A > " = true ∧
  join " > " ["Pillar A"; "Crowns"; "dental crown"] = "Pillar A > Crowns > dental crown".
Proof.
  repeat split; reflexivity.
Qed.

(** A word boundary needs a word character on exactly one side. *)
Example wordBoundaryTest_examples :
  wordBoundaryTest "crown" "dental crown" = true ∧
  wordBoundaryTest "crown" "dental crowns" = false ∧
  wordBoundaryTest "crown" "dental-crown, front" = true ∧
  wordBoundaryTest "CROWN" "dental crown" = true ∧
  wordBoundaryTest "c++" "c++ tips" = false ∧
  wordBoundaryTest "" "crown" = true ∧
  wordBoundaryTest "" "" = false.
Proof.
  repeat split; reflexivity.
Qed.

(** ** The range matcher *)

(** One unit below the minimum or above the maximum fails, the two ends
    pass. *)
Example checkRange_named_examples :
  checkRangeSelectionFilter_internal (VNum 0) (namedSelection "1-10") SEARCH_VOLUME_RANGES = false ∧
  checkRangeSelectionFilter_internal (VNum 1) (namedSelection "1-10") SEARCH_VOLUME_RANGES = true ∧
  checkRangeSelectionFilter_internal (VNum 10) (namedSelection "1-10") SEARCH_VOLUME_RANGES = true ∧
  checkRangeSelectionFilter_internal (VNum 11) (namedSelection "1-10") SEARCH_VOLUME_RANGES = false ∧
  checkRangeSelectionFilter_internal (VStr "n/a") (namedSelection "1-10") SEARCH_VOLUME_RANGES = true ∧
  checkRangeSelectionFilter_internal (VNum 5) (namedSelection "100001+") SEARCH_VOLUME_RANGES = false ∧
  checkRangeSelectionFilter_internal (VNum 5) (namedSelection "no such range") SEARCH_VOLUME_RANGES = true.
Proof.
  repeat split; vm_compute; reflexivity.
Qed.

Lemma Qltb_lt (x y : Q) : Qltb x y = true ↔ (x < y)%Q.
Proof.
  unfold Qltb. rewrite negb_true_iff, <- not_true_iff_false, Qle_bool_iff.
  split; [apply Qnot_le_lt | apply Qlt_not_le].
Qed.

Lemma Qltb_irrefl (x y : Q) : (x == y)%Q → Qltb x y = false.
Proof.
  intros E. apply not_true_iff_false. rewrite Qltb_lt, E. apply Qlt_irrefl.
Qed.

Lemma num_ltb_irrefl (a b : num) : num_eq a b → num_ltb a b = false.
Proof.
  destruct a, b; simpl; try tauto. apply Qltb_irrefl.
Qed.

Lemma num_eq_sym (a b : num) : num_eq a b → num_eq b a.
Proof.
  destruct a, b; simpl; try tauto. apply Qeq_sym.
Qed.

Lemma num_ltb_eq_l (a b c : num) : num_eq a b → num_ltb a c = num_ltb b c.
Proof.
  destruct a, b, c; simpl; try tauto. intros E.
  apply eq_true_iff_eq. rewrite !Qltb_lt, E. tauto.
Qed.

Lemma num_ltb_eq_r (a b c : num) : num_eq a b → num_ltb c a = num_ltb c b.
Proof.
  destruct a, b, c; simpl; try tauto. intros E.
  apply eq_true_iff_eq. rewrite !Qltb_lt, E. tauto.
Qed.

(** The function, once its early returns are behind: a parsable value, an
    active selection and resolved bounds. *)
Lemma checkRange_resolved v filterSetting rangeCollection sel val minBound maxBound :
  parseFloat v = Some val →
  currentSelection filterSetting = Some sel → sel ≠ "any" → sel ≠ "" →
  selectBounds sel filterSetting rangeCollection = Some (minBound, maxBound) →
  checkRangeSelectionFilter_internal v filterSetting rangeCollection
  = negb (belowMin val minBound || aboveMax val maxBound).
Proof.
  intros Hv Hsel Hany Hempty Hb. unfold checkRangeSelectionFilter_internal.
  rewrite Hv, Hsel.
  apply String.eqb_neq in Hany, Hempty. rewrite Hany, Hempty, Hb. simpl.
  destruct (belowMin val minBound), (aboveMax val maxBound); reflexivity.
Qed.

(** C5.  A parsable value checked against a filter that resolves to two
    defined bounds is rejected exactly when it lies strictly below the
    lower bound or strictly above the upper one; so in a range whose lower
    bound does not exceed its upper bound, a value equal to either bound
    passes. *)
Theorem checkRange_bounds_inclusive v filterSetting rangeCollection sel val lo hi :
  parseFloat v = Some val →
  currentSelection filterSetting = Some sel → sel ≠ "any" → sel ≠ "" →
  selectBounds sel filterSetting rangeCollection = Some (Some (Some lo), Some (Some hi)) →
  (checkRangeSelectionFilter_internal v filterSetting rangeCollection = false
   ↔ num_lt val lo ∨ num_lt hi val) ∧
  (num_le lo hi → num_eq val lo ∨ num_eq val hi →
   checkRangeSelectionFilter_internal v filterSetting rangeCollection = true).
Proof.
  intros Hv Hsel Hany Hempty Hb.
  rewrite (checkRange_resolved _ _ _ _ _ _ _ Hv Hsel Hany Hempty Hb).
  unfold num_lt, num_le. simpl. split.
  - rewrite negb_false_iff, orb_true_iff. tauto.
  - intros Hle [E | E]; apply negb_true_iff, orb_false_iff.
    + split; [by apply num_ltb_irrefl |].
      by rewrite (num_ltb_eq_r _ _ hi E).
    + split; [| by apply num_ltb_irrefl, num_eq_sym].
      by rewrite (num_ltb_eq_l _ _ lo E).
Qed.


Lemma checkRange_bounds_inclusive_witness :
  let setting := {| currentSelection := Some "1-10"; customMin := VStr ""; customMax := VStr "" |} in
  selectBounds "1-10" setting SEARCH_VOLUME_RANGES = Some (Some (Some (Fin 1)), Some (Some (Fin 10))) ∧
  ((checkRangeSelectionFilter_internal (VNum 10) setting SEARCH_VOLUME_RANGES = false
    ↔ num_lt (Fin 10) (Fin 1) ∨ num_lt (Fin 10) (Fin 10)) ∧
   (num_le (Fin 1) (Fin 10) → num_eq (Fin 10) (Fin 1) ∨ num_eq (Fin 10) (Fin 10) →
    checkRangeSelectionFilter_internal (VNum 10) setting SEARCH_VOLUME_RANGES = true)).
Proof.
  split; [vm_compute; reflexivity |].
  apply (checkRange_bounds_inclusive (VNum 10) _ SEARCH_VOLUME_RANGES "1-10"
           (Fin 10) (Fin 1) (Fin 10));
    [reflexivity | reflexivity | discriminate | discriminate | vm_compute; reflexivity].
Defined.

Lemma belowMin_malformed (val : num) (b : value) :
  malformedBound b →
  belowMin val (if isEmptyStr b then None else Some (parseFloat b)) = false.
Proof.
  intros [-> | H]; [reflexivity |].
  destruct (isEmptyStr b); [reflexivity |]. by rewrite H.
Qed.

Lemma aboveMax_malformed (val : num) (b : value) :
  malformedBound b →
  aboveMax val (if isEmptyStr b then None else Some (parseFloat b)) = false.
Proof.
  intros [-> | H]; [reflexivity |].
  destruct (isEmptyStr b); [reflexivity |]. by rewrite H.
Qed.

Lemma isEmptyStr_false (b : value) : b ≠ VStr "" → isEmptyStr b = false.
Proof.
  destruct b as [| | | |[|]]; try reflexivity. congruence.
Qed.

(** A custom selection, spelled out. *)
Lemma checkRange_custom v filterSetting rangeCollection val :
  parseFloat v = Some val →
  currentSelection filterSetting = Some "custom" →
  checkRangeSelectionFilter_internal v filterSetting rangeCollection
  = negb (belowMin val (if isEmptyStr (customMin filterSetting) then None
                        else Some (parseFloat (customMin filterSetting)))
          || aboveMax val (if isEmptyStr (customMax filterSetting) then None
                           else Some (parseFloat (customMax filterSetting)))).
Proof.
  intros Hv Hsel.
  by apply (checkRange_resolved v filterSetting rangeCollection "custom").
Qed.

(** C7.  A range filter whose configuration is malformed never rejects on
    that account: a selection naming no entry of the range collection lets
    every value pass, and a custom bound that is empty or unparsable
    constrains nothing, so that a value is then rejected only by the other
    bound, when that one is a number the value lies beyond. *)
Theorem checkRange_malformed_fail_open v filterSetting rangeCollection sel :
  currentSelection filterSetting = Some sel →
  (sel ≠ "custom" → rangeCollection !! sel = None →
   checkRangeSelectionFilter_internal v filterSetting rangeCollection = true) ∧
  (sel = "custom" → malformedBound (customMin filterSetting) →
   malformedBound (customMax filterSetting) →
   checkRangeSelectionFilter_internal v filterSetting rangeCollection = true) ∧
  (sel = "custom" → malformedBound (customMin filterSetting) →
   (checkRangeSelectionFilter_internal v filterSetting rangeCollection = false
    ↔ ∃ val hi, parseFloat v = Some val ∧ customMax filterSetting ≠ VStr "" ∧
                parseFloat (customMax filterSetting) = Some hi ∧ num_lt hi val)) ∧
  (sel = "custom" → malformedBound (customMax filterSetting) →
   (checkRangeSelectionFilter_internal v filterSetting rangeCollection = false
    ↔ ∃ val lo, parseFloat v = Some val ∧ customMin filterSetting ≠ VStr "" ∧
                parseFloat (customMin filterSetting) = Some lo ∧ num_lt val lo)).
Proof.
  intros Hsel. repeat split.
  - intros Hcustom Hnone. unfold checkRangeSelectionFilter_internal.
    rewrite Hsel. destruct (parseFloat v); [| reflexivity].
    destruct (_ || _); [reflexivity |].
    unfold selectBounds. apply String.eqb_neq in Hcustom.
    by rewrite Hcustom, Hnone.
  - intros -> Hmin Hmax. destruct (parseFloat v) as [val |] eqn:Hv.
    + rewrite (checkRange_custom _ _ _ _ Hv Hsel).
      by rewrite belowMin_malformed, aboveMax_malformed.
    + unfold checkRangeSelectionFilter_internal. by rewrite Hv.
  - subst sel. destruct (parseFloat v) as [val |] eqn:Hv.
    + rewrite (checkRange_custom _ _ _ _ Hv Hsel).
      rewrite belowMin_malformed by done. simpl. rewrite negb_false_iff.
      destruct (isEmptyStr (customMax filterSetting)) eqn:He; [discriminate |].
      simpl. destruct (parseFloat (customMax filterSetting)) as [hi |] eqn:Hhi;
        [| discriminate].
      intros Hlt. exists val, hi. repeat split; try done.
      intros E. by rewrite E in He.
    + unfold checkRangeSelectionFilter_internal. rewrite Hv. discriminate.
  - subst sel. intros (val & hi & Hv & Hne & Hhi & Hlt).
    rewrite (checkRange_custom _ _ _ _ Hv Hsel).
    rewrite belowMin_malformed by done. simpl.
    rewrite (isEmptyStr_false _ Hne), Hhi. simpl. by rewrite Hlt.
  - subst sel. destruct (parseFloat v) as [val |] eqn:Hv.
    + rewrite (checkRange_custom _ _ _ _ Hv Hsel).
      rewrite aboveMax_malformed by done. rewrite orb_false_r, negb_false_iff.
      destruct (isEmptyStr (customMin filterSetting)) eqn:He; [discriminate |].
      simpl. destruct (parseFloat (customMin filterSetting)) as [lo |] eqn:Hlo;
        [| discriminate].
      intros Hlt. exists val, lo. repeat split; try done.
      intros E. by rewrite E in He.
    + unfold checkRangeSelectionFilter_internal. rewrite Hv. discriminate.
  - subst sel. intros (val & lo & Hv & Hne & Hlo & Hlt).
    rewrite (checkRange_custom _ _ _ _ Hv Hsel).
    rewrite aboveMax_malformed by done. rewrite orb_false_r.
    rewrite (isEmptyStr_false _ Hne), Hlo. simpl. by rewrite Hlt.
Qed.

Lemma checkRange_malformed_fail_open_witness :
  let setting :=
    {| currentSelection := Some "custom"; customMin := VStr "abc"; customMax := VStr "" |} in
  currentSelection setting = Some "custom" ∧
  checkRangeSelectionFilter_internal (VNum 5) setting SEARCH_VOLUME_RANGES = true.
Proof.
  split; [reflexivity |].
  apply (proj1 (proj2 (checkRange_malformed_fail_open (VNum 5)
           {| currentSelection := Some "custom"; customMin := VStr "abc"; customMax := VStr "" |}
           SEARCH_VOLUME_RANGES "custom" eq_refl)));
    [reflexivity | right; reflexivity | left; reflexivity].
Defined.

(** ** The flat-list filter *)

Lemma orZero_falsy (v : value) : truthy v = false → orZero v = VNum 0.
Proof.
  unfold orZero. by intros ->.
Qed.

(** Zero fails every active range whose lower bound is positive. *)
Lemma checkRange_zero_below filterSetting rangeCollection lo :
  activeLowerBound filterSetting rangeCollection lo →
  num_lt (Fin 0) lo →
  checkRangeSelectionFilter_internal (VNum 0) filterSetting rangeCollection = false.
Proof.
  intros (sel & maxBound & Hsel & Hany & Hempty & Hb) Hlt.
  rewrite (checkRange_resolved (VNum 0) _ _ sel (Fin 0) _ _ eq_refl Hsel Hany Hempty Hb).
  unfold belowMin, num_lt in *. by rewrite Hlt.
Qed.

Lemma passesRanges_metric (m : metric) filters check sv kd cpc item :
  check (orZero (metricOf m item)) (settingOf m filters) (collectionOf m sv kd cpc) = false →
  passesRanges filters check sv kd cpc item = false.
Proof.
  unfold passesRanges. destruct m; simpl; intros ->;
    rewrite ?andb_false_r; reflexivity.
Qed.

Lemma filterFlat_passesRanges filters selectedPillar terms selectedType NT check sv kd cpc
    excluded sourceList item :
  item ∈ filterFlatListByType_internal filters selectedPillar terms selectedType NT check
           sv kd cpc excluded sourceList →
  passesRanges filters check sv kd cpc item = true.
Proof.
  unfold filterFlatListByType_internal. intros H.
  assert (item ∈ filter (λ item, passesRanges filters check sv kd cpc item = true)
                   (pillarFilteredList selectedPillar NT sourceList)) as Hin.
  { destruct terms; [| apply list_elem_of_filter in H as [_ H]];
      by apply list_elem_of_filter in H as [_ H]. }
  by apply list_elem_of_filter in Hin as [? _].
Qed.

(** C10.  A flat record whose search volume, difficulty or CPC is missing,
    null or otherwise falsy is checked as the value 0; hence an active
    range for that metric whose lower bound is above 0 rejects it, and the
    record is absent from what [filterFlatListByType] returns. *)
Theorem filterFlat_absent_metric_checked_as_zero (m : metric) item sourceList filters
    selectedPillar terms selectedType NT sv kd cpc excluded lo :
  truthy (metricOf m item) = false →
  activeLowerBound (settingOf m filters) (collectionOf m sv kd cpc) lo →
  num_lt (Fin 0) lo →
  orZero (metricOf m item) = VNum 0 ∧
  passesRanges filters checkRangeSelectionFilter_internal sv kd cpc item = false ∧
  item ∉ filterFlatListByType sourceList filters selectedPillar terms selectedType NT
           sv kd cpc excluded.
Proof.
  intros Hfalsy Hactive Hlt.
  assert (passesRanges filters checkRangeSelectionFilter_internal sv kd cpc item = false)
    as Hfail.
  { apply (passesRanges_metric m). rewrite (orZero_falsy _ Hfalsy).
    by apply (checkRange_zero_below _ _ lo). }
  split; [by apply orZero_falsy |]. split; [exact Hfail |].
  intros Hin. apply filterFlat_passesRanges in Hin. congruence.
Qed.

Lemma filterFlat_absent_metric_checked_as_zero_witness :
  let item := keywordRecord "veneers" "Cosmetic > veneers" VUndef (VNum 20) (VNum 1) in
  let filters :=
    {| nodeTypes := nodeTypes INITIAL_FILTERS_STATE;
       filters_searchVolume := namedSelection "11-100";
       filters_keywordDifficulty := anySelection;
       filters_averageCPC := anySelection |} in
  truthy (metricOf SearchVolume item) = false ∧
  num_lt (Fin 0) (Fin 11) ∧
  item ∉ filterFlatListByType [item] filters "all" [] "keywords" NodeType
           SEARCH_VOLUME_RANGES KEYWORD_DIFFICULTY_RANGES CPC_RANGES [].
Proof.
  split; [reflexivity |]. split; [reflexivity |].
  apply (filterFlat_absent_metric_checked_as_zero SearchVolume
           (keywordRecord "veneers" "Cosmetic > veneers" VUndef (VNum 20) (VNum 1))
           _ _ "all" [] "keywords" NodeType SEARCH_VOLUME_RANGES KEYWORD_DIFFICULTY_RANGES
           CPC_RANGES [] (Fin 11)).
  - reflexivity.
  - exists "11-100", (Some (Some (Fin 100))).
    split; [reflexivity |]. split; [discriminate |]. split; [discriminate |].
    vm_compute. reflexivity.
  - reflexivity.
Defined.

(** *** Pillar scoping *)

Lemma startsWith_empty_separator (selectedPillar : string) :
  startsWith "" (selectedPillar +:+ " > ") = false.
Proof.
  by destruct selectedPillar.
Qed.

Lemma inSelectedPillar_byType selectedPillar NT item :
  inSelectedPillar selectedPillar NT item = pillarScopeByType NT selectedPillar item.
Proof.
  unfold inSelectedPillar, pillarScopeByType, pathStartsWith.
  destruct (item_fullHierarchyPath item) as [path |].
  - destruct (String.eqb_spec path "") as [-> | _].
    + rewrite startsWith_empty_separator.
      by destruct (typeIs (item_type item) (PILLAR NT)).
    + reflexivity.
  - by destruct (typeIs (item_type item) (PILLAR NT)).
Qed.

(** C8, as stated, fails twice: an empty [selectedPillar] differs from
    ["all"] yet scopes nothing, and a Pillar-typed record under the
    selected pillar is dropped although its path starts with the pillar's
    name and separator. *)
Lemma pillarFilteredList_counterexample :
  let cluster := nodeRecord "cluster" "Crowns" "Pillar A > Crowns" in
  let nested := nodeRecord "pillar" "Pillar B" "Pillar A > Pillar B" in
  pillarFilteredList "" NodeType [cluster]
    ≠ filter (λ item, pillarScopeAsSpecified NodeType "" item = true) [cluster] ∧
  pillarFilteredList "Pillar A" NodeType [nested]
    ≠ filter (λ item, pillarScopeAsSpecified NodeType "Pillar A" item = true) [nested].
Proof.
  split; vm_compute; discriminate.
Qed.

(** C8, amended.  For a non-empty [selectedPillar] other than ["all"], the
    pillar-scoping stage keeps exactly the Pillar-typed records whose name
    is [selectedPillar] and the records of any other type whose path
    starts with [selectedPillar], a space, [>] and a space; a record
    without a path is therefore kept only as such a Pillar record.  An
    empty [selectedPillar] scopes nothing. *)
Theorem pillarFilteredList_scope (selectedPillar : string) (NT : NodeTypes)
    (sourceList : list FlatRecord) :
  selectedPillar ≠ "all" →
  (selectedPillar ≠ "" →
   pillarFilteredList selectedPillar NT sourceList
   = filter (λ item, pillarScopeByType NT selectedPillar item = true) sourceList) ∧
  (selectedPillar ≠ "" → ∀ item,
   item_fullHierarchyPath item = None →
   (item ∈ pillarFilteredList selectedPillar NT sourceList ↔
    item ∈ sourceList ∧ typeIs (item_type item) (PILLAR NT) = true ∧
    item_name item = Some selectedPillar)) ∧
  (selectedPillar = "" → pillarFilteredList selectedPillar NT sourceList = sourceList).
Proof.
  intros Hall.
  assert (selectedPillar ≠ "" →
          pillarFilteredList selectedPillar NT sourceList
          = filter (λ item, pillarScopeByType NT selectedPillar item = true) sourceList)
    as Hfilter.
  { intros Hempty. unfold pillarFilteredList.
    apply String.eqb_neq in Hall, Hempty. rewrite Hall, Hempty. simpl.
    apply list_filter_iff. intros item. by rewrite inSelectedPillar_byType. }
  split; [exact Hfilter |]. split.
  - intros Hempty item Hpath. rewrite (Hfilter Hempty), list_elem_of_filter.
    unfold pillarScopeByType. rewrite Hpath. simpl.
    destruct (typeIs (item_type item) (PILLAR NT)).
    + rewrite bool_decide_eq_true. tauto.
    + split; [intros [? _]; discriminate | intros (_ & ? & _); discriminate].
  - intros ->. reflexivity.
Qed.

Lemma pillarFilteredList_scope_witness :
  "Pillar A" ≠ "all" ∧
  pillarFilteredList "Pillar A" NodeType
    [nodeRecord "pillar" "Pillar A" "Pillar A";
     nodeRecord "cluster" "Crowns" "Pillar A > Crowns";
     nodeRecord "pillar" "Pillar B" "Pillar B";
     nodeRecord "cluster" "Braces" "Pillar B > Braces"]
  = [nodeRecord "pillar" "Pillar A" "Pillar A";
     nodeRecord "cluster" "Crowns" "Pillar A > Crowns"].
Proof.
  split; [discriminate |].
  rewrite (proj1 (pillarFilteredList_scope "Pillar A" NodeType _ ltac:(discriminate)))
    by discriminate.
  vm_compute. reflexivity.
Defined.

(** ** Text matching *)

(** C4, as stated, fails: the unquoted term does not match both keywords;
    the flat filter drops ["dental crowns"]. *)
Lemma unquoted_search_counterexample :
  filterFlatListByType [dentalCrown; dentalCrowns] INITIAL_FILTERS_STATE "all"
    [unquotedDentalCrown] "keywords" NodeType
    SEARCH_VOLUME_RANGES KEYWORD_DIFFICULTY_RANGES CPC_RANGES []
  ≠ [dentalCrown; dentalCrowns].
Proof.
  vm_compute. discriminate.
Qed.

Lemma termMatches_exact (termObj : SearchTerm) (textLower : string) :
  isExact termObj = true →
  (termMatches termObj textLower = true ↔ textLower = term_value termObj).
Proof.
  unfold termMatches. intros ->. apply String.eqb_eq.
Qed.

(** C4, amended.  With the keywords ["dental crown"] and ["dental crowns"],
    the unquoted term [dental crown] matches ["dental crown"] only: the
    pattern asks for a word boundary after the term, and in
    ["dental crowns"] the term is followed by the word character [s].  It
    does match a keyword that holds it as whole words.  The quoted term
    matches only a keyword whose lowercased text is the term itself.  The
    flat filter and the keyword filter of the tree agree on this. *)
Theorem dental_crown_search :
  (filterFlatListByType [dentalCrown; dentalCrowns] INITIAL_FILTERS_STATE "all"
     [unquotedDentalCrown] "keywords" NodeType
     SEARCH_VOLUME_RANGES KEYWORD_DIFFICULTY_RANGES CPC_RANGES [] = [dentalCrown]) ∧
  (filterFlatListByType [dentalCrown; dentalCrowns] INITIAL_FILTERS_STATE "all"
     [quotedDentalCrown] "keywords" NodeType
     SEARCH_VOLUME_RANGES KEYWORD_DIFFICULTY_RANGES CPC_RANGES [] = [dentalCrown]) ∧
  (∀ terms, terms = [unquotedDentalCrown] ∨ terms = [quotedDentalCrown] →
     (node_keywords <$>
        filterHierarchicalTreeRecursive [crownsCluster] INITIAL_FILTERS_STATE terms NodeType
          false SEARCH_VOLUME_RANGES KEYWORD_DIFFICULTY_RANGES CPC_RANGES [])
     = [Some [mkKeyword "dental crown" (VNum 900) (VNum 40) (VNum 2)]]) ∧
  termMatches unquotedDentalCrown (toLowerCase "dental crowns") = false ∧
  termMatches unquotedDentalCrown (toLowerCase "Best Dental Crown cost") = true ∧
  (∀ keyword, termMatches quotedDentalCrown (toLowerCase keyword) = true
              ↔ toLowerCase keyword = "dental crown").
Proof.
  split; [vm_compute; reflexivity |]. split; [vm_compute; reflexivity |].
  split; [intros terms [-> | ->]; vm_compute; reflexivity |].
  split; [vm_compute; reflexivity |]. split; [vm_compute; reflexivity |].
  intros keyword. by apply termMatches_exact.
Qed.

(** ** The tree filter *)

Section TreeFilterFacts.
Variable filters : Filters.
Variable searchTermsArray : list SearchTerm.
Variable NT : NodeTypes.
Variable applyFiltersToNodeNames : bool.
Variable checkRangeFunc : value → RangeFilter → gmap string Range → bool.
Variables SV_RANGES KD_RANGES CPC_RANGES_ : gmap string Range.
Variable excludedKeywords : list string.

Abbreviation filterNode' :=
  (filterNode filters searchTermsArray NT applyFiltersToNodeNames checkRangeFunc
     SV_RANGES KD_RANGES CPC_RANGES_ excludedKeywords).
Abbreviation filterTree :=
  (filterHierarchicalTreeRecursive_internal filters searchTermsArray NT
     applyFiltersToNodeNames checkRangeFunc SV_RANGES KD_RANGES CPC_RANGES_ excludedKeywords).
Abbreviation skipped := (skippedByName applyFiltersToNodeNames excludedKeywords).
Abbreviation include :=
  (includeNode filters searchTermsArray NT applyFiltersToNodeNames checkRangeFunc
     SV_RANGES KD_RANGES CPC_RANGES_ excludedKeywords).
Abbreviation keptKeywords :=
  (filteredKeywordsOf filters searchTermsArray NT checkRangeFunc
     SV_RANGES KD_RANGES CPC_RANGES_ excludedKeywords).

(** The loop over a list of nodes pushes what each iteration yields. *)
Lemma filterTree_omap (nodes : list Node) : filterTree nodes = omap filterNode' nodes.
Proof.
  induction nodes as [| node rest IH]; [reflexivity |].
  simpl. destruct (filterNode' node); by rewrite IH.
Qed.

(** One iteration, with the recursive call on the children spelled as the
    source spells it. *)
Lemma filterNode_unfold (node : Node) :
  filterNode' node =
  if skipped node then None
  else
    let visibleChildren := filterTree (childrenOf node) in
    if include node visibleChildren
    then Some (withChildrenAndKeywords node visibleChildren (keptKeywords node))
    else None.
Proof.
  destruct node as [name type size tk tc kd cpc md kws [cs |]]; [| reflexivity].
  cbn [filterNode childrenOf node_children default].
  match goal with
  | |- context [?loop cs] =>
      is_fix loop;
      assert (∀ l, loop l = filterTree l) as ->; [| reflexivity]
  end.
  induction l as [| n rest IH]; [reflexivity |].
  simpl. destruct (filterNode' n); by rewrite IH.
Qed.
Lemma keptKeywords_off (node : Node) :
  nodeTypeSelected filters (KEYWORDS NT) = false → keptKeywords node = [].
Proof.
  intros Hoff. unfold filteredKeywordsOf. rewrite Hoff, andb_false_r.
  by destruct (node_keywords node).
Qed.

Lemma filterNode_Some (node kept : Node) :
  filterNode' node = Some kept →
  skipped node = false ∧
  kept = withChildrenAndKeywords node (filterTree (childrenOf node)) (keptKeywords node).
Proof.
  rewrite filterNode_unfold. destruct (skipped node); [discriminate |].
  simpl. destruct (include node _); [| discriminate].
  intros [= <-]. done.
Qed.

Lemma filterTree_elem (nodes : list Node) (kept : Node) :
  kept ∈ filterTree nodes ↔ ∃ node, node ∈ nodes ∧ filterNode' node = Some kept.
Proof.
  rewrite filterTree_omap. apply list_elem_of_omap.
Qed.

Lemma filterNode_keywords_cleared :
  nodeTypeSelected filters (KEYWORDS NT) = false →
  ∀ node kept, filterNode' node = Some kept →
  ∀ n, subnode n kept → node_keywords n = Some [].
Proof.
  intros Hoff node. induction node as [node IH] using Node_ind.
  intros kept Hkept n Hsub. apply filterNode_Some in Hkept as [_ ->].
  inversion Hsub as [| child root Hchild Hbelow]; subst.
  - simpl. by rewrite keptKeywords_off.
  - cbn [childrenOf withChildrenAndKeywords node_children default] in Hchild.
    apply filterTree_elem in Hchild as (c & Hc & Hkeptc).
    rewrite Forall_forall in IH. by apply (IH c Hc child).
Qed.

(** C9.  With the Keywords type toggled off, every node anywhere in the
    filtered tree, so every Cluster node in particular, carries an empty
    keywords array, whatever keywords the canonical node holds. *)
Theorem filterTree_keywords_off (nodesToFilter : list Node) (root n : Node) :
  nodeTypeSelected filters (KEYWORDS NT) = false →
  root ∈ filterTree nodesToFilter →
  subnode n root →
  node_keywords n = Some [].
Proof.
  intros Hoff Hroot Hsub. apply filterTree_elem in Hroot as (node & _ & Hkept).
  by apply (filterNode_keywords_cleared Hoff node root).
Qed.

(** A node that is not skipped for its name is kept as soon as one of its
    children is. *)
Lemma filterNode_child_kept (node child keptChild : Node) :
  skipped node = false →
  child ∈ childrenOf node →
  filterNode' child = Some keptChild →
  filterNode' node
  = Some (withChildrenAndKeywords node (filterTree (childrenOf node)) (keptKeywords node)) ∧
  keptChild ∈ filterTree (childrenOf node).
Proof.
  intros Hskip Hchild Hkept.
  assert (keptChild ∈ filterTree (childrenOf node)) as Hin.
  { apply filterTree_elem. by exists child. }
  split; [| exact Hin].
  rewrite filterNode_unfold, Hskip. simpl.
  destruct (filterTree (childrenOf node)) as [| first others]; [| reflexivity].
  by apply not_elem_of_nil in Hin.
Qed.

Lemma subnode_trans (a b c : Node) : subnode a b → subnode b c → subnode a c.
Proof.
  intros Hab Hbc. induction Hbc as [| child root Hchild _ IH]; [exact Hab |].
  by apply (subnode_below _ child).
Qed.

(** The same along a path on which no node is skipped for its name. *)
Lemma filterNode_clearPath_kept (ancestor descendant keptDescendant : Node) :
  clearPath skipped ancestor descendant →
  filterNode' descendant = Some keptDescendant →
  let kept :=
    withChildrenAndKeywords ancestor (filterTree (childrenOf ancestor))
      (keptKeywords ancestor) in
  filterNode' ancestor = Some kept ∧ subnode keptDescendant kept.
Proof.
  intros Hpath Hd.
  induction Hpath as [ancestor descendant Hskip Hchild
                     | ancestor child descendant Hskip Hchild _ IH]; intros kept.
  - destruct (filterNode_child_kept ancestor descendant keptDescendant Hskip Hchild Hd)
      as [Hkept Hin].
    split; [exact Hkept |].
    by apply (subnode_below _ keptDescendant); [| apply subnode_self].
  - destruct (IH Hd) as [Hc Hsub].
    destruct (filterNode_child_kept ancestor child _ Hskip Hchild Hc) as [Hkept Hin].
    split; [exact Hkept |].
    refine (subnode_below _ _ _ _ Hsub). exact Hin.
Qed.

(** C2, amended.  If a descendant of a node survives the filter, and no
    node on the way from that node down to the descendant's parent is
    skipped for an excluded name (none is when [applyFiltersToNodeNames] is
    off), then the node is in the filtered result, with the descendant's
    copy below its own, even if the node itself fails the numeric, search
    or node-type checks. *)
Theorem filterTree_ancestor_preserved (ancestor descendant : Node) :
  clearPath skipped ancestor descendant →
  is_Some (filterNode' descendant) →
  ∃ kept keptDescendant,
    filterNode' ancestor = Some kept ∧
    filterNode' descendant = Some keptDescendant ∧
    node_name kept = node_name ancestor ∧
    subnode keptDescendant kept ∧
    ∀ nodesToFilter, ancestor ∈ nodesToFilter → kept ∈ filterTree nodesToFilter.
Proof.
  intros Hpath [keptDescendant Hd].
  destruct (filterNode_clearPath_kept ancestor descendant keptDescendant Hpath Hd)
    as [Hkept Hsub].
  eexists. exists keptDescendant.
  split; [exact Hkept |]. split; [exact Hd |]. split; [reflexivity |].
  split; [exact Hsub |].
  intros nodes Hnodes. apply filterTree_elem. by exists ancestor.
Qed.
End TreeFilterFacts.

Lemma filterTree_keywords_off_witness :
  let out :=
    filterHierarchicalTreeRecursive_internal keywordsOff [] NodeType false
      checkRangeSelectionFilter_internal SEARCH_VOLUME_RANGES KEYWORD_DIFFICULTY_RANGES
      CPC_RANGES [] [restorativePillar] in
  nodeTypeSelected keywordsOff (KEYWORDS NodeType) = false ∧
  ∃ root cluster,
    out = [root] ∧ childrenOf root = [cluster] ∧
    node_name cluster = Some "Crowns" ∧ node_keywords cluster = Some [].
Proof.
  split; [reflexivity |].
  eexists. eexists.
  split; [vm_compute; reflexivity |]. split; [reflexivity |]. split; [reflexivity |].
  apply (filterTree_keywords_off keywordsOff [] NodeType false
           checkRangeSelectionFilter_internal SEARCH_VOLUME_RANGES KEYWORD_DIFFICULTY_RANGES
           CPC_RANGES [] [restorativePillar]
           (withChildrenAndKeywords restorativePillar
              [withChildrenAndKeywords crownsCluster [] []] [])).
  - reflexivity.
  - vm_compute. left.
  - eapply subnode_below; [| apply subnode_self]. left.
Defined.

(** C2, as stated, fails: with node-name filtering on, a pillar whose name
    holds an excluded word is pruned although the cluster below it
    survives the same filter. *)
Lemma filterTree_ancestor_counterexample :
  filterHierarchicalTreeRecursive (childrenOf flaggedPillar) INITIAL_FILTERS_STATE []
    NodeType true SEARCH_VOLUME_RANGES KEYWORD_DIFFICULTY_RANGES CPC_RANGES ["spam"] ≠ [] ∧
  filterHierarchicalTreeRecursive [flaggedPillar] INITIAL_FILTERS_STATE []
    NodeType true SEARCH_VOLUME_RANGES KEYWORD_DIFFICULTY_RANGES CPC_RANGES ["spam"] = [].
Proof.
  split; vm_compute; [discriminate | reflexivity].
Qed.

Lemma filterTree_ancestor_preserved_witness :
  let skipped := skippedByName true ["spam"] in
  let filterNode' :=
    filterNode volumeFrom101 [] NodeType true checkRangeSelectionFilter_internal
      SEARCH_VOLUME_RANGES KEYWORD_DIFFICULTY_RANGES CPC_RANGES ["spam"] in
  clearPath skipped restorativePillar crownsCluster ∧
  is_Some (filterNode' crownsCluster) ∧
  passesNumerics volumeFrom101 true checkRangeSelectionFilter_internal
    SEARCH_VOLUME_RANGES KEYWORD_DIFFICULTY_RANGES CPC_RANGES restorativePillar = false ∧
  ∃ kept keptDescendant,
    filterNode' restorativePillar = Some kept ∧
    filterNode' crownsCluster = Some keptDescendant ∧
    node_name kept = node_name restorativePillar ∧
    subnode keptDescendant kept ∧
    ∀ nodesToFilter, restorativePillar ∈ nodesToFilter →
      kept ∈ filterHierarchicalTreeRecursive_internal volumeFrom101 [] NodeType true
               checkRangeSelectionFilter_internal SEARCH_VOLUME_RANGES
               KEYWORD_DIFFICULTY_RANGES CPC_RANGES ["spam"] nodesToFilter.
Proof.
  assert (clearPath (skippedByName true ["spam"]) restorativePillar crownsCluster) as Hpath.
  { apply clearPath_child; [reflexivity | left]. }
  assert (is_Some (filterNode volumeFrom101 [] NodeType true checkRangeSelectionFilter_internal
                     SEARCH_VOLUME_RANGES KEYWORD_DIFFICULTY_RANGES CPC_RANGES ["spam"]
                     crownsCluster)) as Hsome.
  { vm_compute. eauto. }
  split; [exact Hpath |]. split; [exact Hsome |]. split; [vm_compute; reflexivity |].
  exact (filterTree_ancestor_preserved volumeFrom101 [] NodeType true
           checkRangeSelectionFilter_internal SEARCH_VOLUME_RANGES KEYWORD_DIFFICULTY_RANGES
           CPC_RANGES ["spam"] restorativePillar crownsCluster Hpath Hsome).
Defined.

(** With node-name filtering off, as the hierarchical view calls the
    filter, nothing is skipped for its name, and every ancestor of a
    surviving node survives. *)
Corollary filterTree_ancestor_preserved_hierarchical filters terms NT check sv kd cpc excluded
    (ancestor descendant : Node) :
  descendantOf ancestor descendant →
  is_Some (filterNode filters terms NT false check sv kd cpc excluded descendant) →
  is_Some (filterNode filters terms NT false check sv kd cpc excluded ancestor).
Proof.
  intros Hpath Hsome.
  assert (clearPath (skippedByName false excluded) ancestor descendant) as Hclear.
  { induction Hpath; [by apply clearPath_child | by eapply clearPath_below]. }
  destruct Hsome as [keptDescendant Hd].
  destruct (filterNode_clearPath_kept filters terms NT false check sv kd cpc excluded
              ancestor descendant keptDescendant Hclear Hd) as [Hkept _].
  by eexists.
Qed.

(** ** CSV export *)

(** The columns of a flattened row: the four fixed ones, and the two
    cluster columns exactly when the row's type is the literal ["CLUSTER"]
    and its [keywords] is an array. *)
Lemma flattenNodeData_columns (node : ExportRow) :
  map fst (flattenNodeData node)
  = fixedColumns ++
    (if typeIs (row_type node) "CLUSTER" && bool_decide (is_Some (row_keywords node))
     then ["Keyword Count"; "Keywords"] else []).
Proof.
  unfold flattenNodeData.
  destruct (typeIs (row_type node) "KEYWORDS" && truthy (row_keyword node));
    destruct (row_keywords node) as [kws |];
    destruct (typeIs (row_type node) "CLUSTER"); reflexivity.
Qed.

(** C6 on a row whose type tag is the Cluster tag of [NodeType]: the export
    gives it the four fixed columns only, because [flattenNodeData]
    compares the tag with ["CLUSTER"] while [NodeType.CLUSTER] is
    ["cluster"].  The same row tagged ["CLUSTER"] does get both columns,
    with the keywords joined by a semicolon and a space. *)
Theorem flattenNodeData_cluster_tag (numberToString : Q → string) :
  row_type (clusterRow "cluster") = Some (CLUSTER NodeType) ∧
  map fst (flattenNodeData (clusterRow "cluster")) = fixedColumns ∧
  convertToCSV numberToString [clusterRow "cluster"]
  = "Keyword,Search Volume,Keyword Difficulty,CPC (USD)" +:+ String (ascii_of_nat 10) "" +:+
    "Crowns," +:+ numberToString 1600%Q +:+ "," +:+ numberToString 38%Q +:+ "," +:+
    numberToString 2%Q ∧
  map fst (flattenNodeData (clusterRow "CLUSTER"))
  = fixedColumns ++ ["Keyword Count"; "Keywords"] ∧
  getField (flattenNodeData (clusterRow "CLUSTER")) "Keyword Count" = VNum 2 ∧
  getField (flattenNodeData (clusterRow "CLUSTER")) "Keywords"
  = VStr "dental crown; dental crowns".
Proof.
  repeat split; reflexivity.
Qed.

(** ** Normalization *)

(** C1 on a document with ["seo tips"] under two different pillars: every
    top-level node is transformed with a seen-set of its own, so the
    canonical tree keeps both occurrences; only the flat keyword list,
    extracted with one shared set, holds the keyword once, with the
    metrics of the first occurrence. *)
Theorem processRawDataFromFile_seo_tips (randomSuffix : nat → string) :
  ∃ processed,
    processRawDataFromFile randomSuffix NodeType (inr (Some seoTipsDocument)) = inr processed ∧
    treeKeywordStrings NodeType (hierarchicalData processed)
    = ["seo tips"; "blog ideas"; "seo tips"] ∧
    occurrences "seo tips" (treeKeywordStrings NodeType (hierarchicalData processed)) = 2 ∧
    occurrences "seo tips" (omap item_name (allKeywordsData processed)) = 1 ∧
    (λ item, (item_name item, item_searchVolume item)) <$> allKeywordsData processed
    = [(Some "seo tips", VNum 1000); (Some "blog ideas", VNum 400)].
Proof.
  eexists. split; [reflexivity |]. repeat split; vm_compute; reflexivity.
Qed.

(** ** Aggregated metrics *)

Section MetricsFacts.
Variable sameObject : Node → Node → bool.
Variable NT : NodeTypes.

Abbreviation calc := (calculateDynamicNodeMetrics sameObject NT).
Abbreviation forEach := (forEachChild sameObject NT).

(** The function, with its loop over the children named. *)
Lemma calculateDynamicNodeMetrics_unfold (node : Node) (cache : option Cache) :
  calc node cache =
  match cacheGet sameObject cache node with
  | Some cached => (cached, cache)
  | None =>
      let '(metrics, cache) := forEach (childrenOf node) (ownMetrics NT node) cache in
      (setAverages metrics, cacheSet cache node (setAverages metrics))
  end.
Proof.
  destruct node as [name type size tk tc kd cpc md kws [cs |]]; [| reflexivity].
  cbn [calculateDynamicNodeMetrics childrenOf node_children default].
  destruct (cacheGet sameObject cache _); [reflexivity |].
  match goal with
  | |- context [?loop cs] =>
      is_fix loop;
      assert (∀ l metrics cache, loop l metrics cache = forEach l metrics cache) as ->;
      [| reflexivity]
  end.
  induction l as [| n rest IH]; intros metrics c; [reflexivity |].
  simpl. destruct (calc n c). apply IH.
Qed.

(** No cache comes out where none went in. *)
Lemma forEachChild_no_cache (cs : list Node) :
  Forall (λ c, snd (calc c None) = None) cs →
  ∀ metrics, snd (forEach cs metrics None) = None.
Proof.
  induction 1 as [| c rest Hc _ IH]; intros metrics; [reflexivity |].
  simpl. destruct (calc c None) as [m c']. simpl in Hc. subst c'. apply IH.
Qed.

Lemma calculateDynamicNodeMetrics_no_cache (node : Node) : snd (calc node None) = None.
Proof.
  induction node as [node IH] using Node_ind.
  rewrite calculateDynamicNodeMetrics_unfold. simpl.
  pose proof (forEachChild_no_cache _ IH (ownMetrics NT node)) as Hnone.
  destruct (forEach (childrenOf node) (ownMetrics NT node) None) as [m c'].
  simpl in *. by subst c'.
Qed.
End MetricsFacts.

(** Without a cache the loop over the children is a fold. *)
Lemma forEachChild_uncached (NT : NodeTypes) (cs : list Node) (metrics : Metrics) :
  forEachChild (λ _ _, false) NT cs metrics None
  = (fold_left addChild (map (metricsOf NT) cs) metrics, None).
Proof.
  revert metrics. induction cs as [| c rest IH]; intros metrics; [reflexivity |].
  simpl.
  assert (metricsOf NT c = fst (calculateDynamicNodeMetrics (λ _ _, false) NT c None))
    as -> by reflexivity.
  pose proof (calculateDynamicNodeMetrics_no_cache (λ _ _, false) NT c) as Hnone.
  destruct (calculateDynamicNodeMetrics (λ _ _, false) NT c None) as [m c'].
  simpl in *. subst c'. apply IH.
Qed.

Lemma metricsOf_unfold (NT : NodeTypes) (node : Node) :
  metricsOf NT node
  = setAverages (fold_left addChild (map (metricsOf NT) (childrenOf node)) (ownMetrics NT node)).
Proof.
  unfold metricsOf at 1. rewrite calculateDynamicNodeMetrics_unfold. simpl.
  by rewrite forEachChild_uncached.
Qed.

Section CachedMetrics.
Variable sameObject : Node → Node → bool.
Variable NT : NodeTypes.
Hypothesis sameObject_identity : identityLike sameObject.

Lemma cacheSound_set (cache : option Cache) (node : Node) :
  cacheSound sameObject NT cache →
  cacheSound sameObject NT (cacheSet cache node (metricsOf NT node)).
Proof.
  intros Hsound n cached. destruct cache as [entries |]; [| discriminate].
  simpl. destruct (sameObject node n) eqn:Hsame.
  - intros [= <-]. by rewrite (sameObject_identity _ _ Hsame).
  - intros Hget. by apply (Hsound n).
Qed.

(** A sound cache changes nothing in what the loop over the children and
    the function return, and stays sound. *)
Lemma forEachChild_cached (cs : list Node) :
  Forall (λ c, ∀ cache, cacheSound sameObject NT cache →
               fst (calculateDynamicNodeMetrics sameObject NT c cache) = metricsOf NT c ∧
               cacheSound sameObject NT
                 (snd (calculateDynamicNodeMetrics sameObject NT c cache))) cs →
  ∀ metrics cache, cacheSound sameObject NT cache →
    fst (forEachChild sameObject NT cs metrics cache)
    = fold_left addChild (map (metricsOf NT) cs) metrics ∧
    cacheSound sameObject NT (snd (forEachChild sameObject NT cs metrics cache)).
Proof.
  induction 1 as [| c rest Hc _ IH]; intros metrics cache Hsound; [done |].
  simpl. destruct (Hc cache Hsound) as [Hm Hs].
  destruct (calculateDynamicNodeMetrics sameObject NT c cache) as [m cache'].
  simpl in *. subst m. by apply IH.
Qed.

Lemma calculateDynamicNodeMetrics_cached (node : Node) :
  ∀ cache, cacheSound sameObject NT cache →
    fst (calculateDynamicNodeMetrics sameObject NT node cache) = metricsOf NT node ∧
    cacheSound sameObject NT (snd (calculateDynamicNodeMetrics sameObject NT node cache)).
Proof.
  induction node as [node IH] using Node_ind. intros cache Hsound.
  rewrite calculateDynamicNodeMetrics_unfold.
  destruct (cacheGet sameObject cache node) as [cached |] eqn:Hget.
  - split; [by apply Hsound | exact Hsound].
  - destruct (forEachChild_cached _ IH (ownMetrics NT node) cache Hsound) as [Hm Hs].
    destruct (forEachChild sameObject NT (childrenOf node) (ownMetrics NT node) cache)
      as [m cache'].
    simpl in *. subst m. rewrite <- metricsOf_unfold. split; [reflexivity |].
    by apply cacheSound_set.
Qed.
End CachedMetrics.

(** *** Accumulators are sums over the keywords of the subtree *)

Lemma sumQ_app (l1 l2 : list Q) : (sumQ (l1 ++ l2) == sumQ l1 + sumQ l2)%Q.
Proof.
  induction l1 as [| x l1 IH]; simpl; [ring |]. rewrite IH. ring.
Qed.

Lemma clusterKeywordsUnder_unfold (NT : NodeTypes) (node : Node) :
  clusterKeywordsUnder NT node
  = (if typeIs (node_type node) (CLUSTER NT) then default [] (node_keywords node) else [])
    ++ flat_map (clusterKeywordsUnder NT) (childrenOf node).
Proof.
  by destruct node as [name type size tk tc kd cpc md kws [cs |]].
Qed.

Section AdditiveFacts.
Variable NT : NodeTypes.
Variable f : Metrics → Q.
Variable g : Keyword → Q.
Hypothesis additive : Additive f g.

Lemma additive_keywords (kws : list Keyword) (metrics : Metrics) :
  (f (fold_left addKeyword kws metrics) == f metrics + sumQ (map g kws))%Q.
Proof.
  revert metrics. induction kws as [| kw rest IH]; intros metrics; simpl; [ring |].
  rewrite IH, (additive_keyword f g additive). ring.
Qed.

Lemma additive_children (children : list Metrics) (metrics : Metrics) :
  (f (fold_left addChild children metrics) == f metrics + sumQ (map f children))%Q.
Proof.
  revert metrics. induction children as [| c rest IH]; intros metrics; simpl; [ring |].
  rewrite IH, (additive_child f g additive). ring.
Qed.

Lemma additive_own (node : Node) :
  (f (ownMetrics NT node)
   == sumQ (map g (if typeIs (node_type node) (CLUSTER NT)
                   then default [] (node_keywords node) else [])))%Q.
Proof.
  unfold ownMetrics.
  destruct (node_keywords node) as [kws |], (typeIs (node_type node) (CLUSTER NT)); simpl;
    rewrite ?additive_keywords, (additive_initial f g additive); ring.
Qed.

(** Each accumulator of a node's metrics is the sum of what the keywords of
    the whole subtree contribute to it. *)
Lemma additive_subtree (node : Node) :
  (f (metricsOf NT node) == sumQ (map g (clusterKeywordsUnder NT node)))%Q.
Proof.
  induction node as [node IH] using Node_ind.
  rewrite metricsOf_unfold, (additive_averages f g additive), additive_children.
  rewrite clusterKeywordsUnder_unfold, map_app, sumQ_app, additive_own.
  apply Qplus_comp; [reflexivity |].
  induction IH as [| c rest Hc _ IHrest]; [reflexivity |].
  simpl. rewrite map_app, sumQ_app, Hc, IHrest. reflexivity.
Qed.
End AdditiveFacts.

Ltac additive_selector :=
  split; intros; unfold addKeyword, addChild, setAverages, initialMetrics, kdOf, cpcOf,
    volumeOf; simpl;
  repeat match goal with
         | |- context [numberOrNull ?v] => destruct (numberOrNull v)
         end;
  simpl; ring.

Lemma weightedKDSum_additive :
  Additive weightedKDSum
    (λ kw, match kdOf kw with Some x => x * volumeOf kw | None => 0 end)%Q.
Proof. additive_selector. Qed.

Lemma totalVolumeForKD_additive :
  Additive totalVolumeForKD (λ kw, match kdOf kw with Some _ => volumeOf kw | None => 0 end)%Q.
Proof. additive_selector. Qed.

Lemma simpleKDSum_additive :
  Additive simpleKDSum (λ kw, match kdOf kw with Some x => x | None => 0 end)%Q.
Proof. additive_selector. Qed.

Lemma itemsWithKD_additive :
  Additive itemsWithKD (λ kw, match kdOf kw with Some _ => 1 | None => 0 end)%Q.
Proof. additive_selector. Qed.

Lemma weightedCPCSum_additive :
  Additive weightedCPCSum
    (λ kw, match cpcOf kw with Some x => x * volumeOf kw | None => 0 end)%Q.
Proof. additive_selector. Qed.

Lemma totalVolumeForCPC_additive :
  Additive totalVolumeForCPC
    (λ kw, match cpcOf kw with Some _ => volumeOf kw | None => 0 end)%Q.
Proof. additive_selector. Qed.

Lemma simpleCPCSum_additive :
  Additive simpleCPCSum (λ kw, match cpcOf kw with Some x => x | None => 0 end)%Q.
Proof. additive_selector. Qed.

Lemma itemsWithCPC_additive :
  Additive itemsWithCPC (λ kw, match cpcOf kw with Some _ => 1 | None => 0 end)%Q.
Proof. additive_selector. Qed.

Lemma supplying_count (metric : Keyword → option Q) (kws : list Keyword) :
  (sumQ (map (λ kw, match metric kw with Some _ => 1 | None => 0 end) kws)
   == inject_Z (Z.of_nat (supplying metric kws)))%Q.
Proof.
  unfold supplying. induction kws as [| kw rest IH]; [reflexivity |].
  rewrite filter_cons. simpl. rewrite IH.
  destruct (metric kw) as [x |].
  - rewrite decide_True by eauto. simpl length.
    rewrite Nat2Z.inj_succ, <- Z.add_1_l, inject_Z_plus. reflexivity.
  - rewrite decide_False by (by intros [? ?]). ring.
Qed.

(** The ladder that sets an average follows the policy, whatever equal
    numbers stand for the four sums. *)
Lemma average_policy (metric : Keyword → option Q) (kws : list Keyword)
    (weighted volume simple items : Q) :
  (weighted == weightedSum metric kws)%Q →
  (volume == volumeSum metric kws)%Q →
  (simple == simpleSum metric kws)%Q →
  (items == inject_Z (Z.of_nat (supplying metric kws)))%Q →
  policyAverage metric kws (average weighted volume simple items).
Proof.
  intros Hw Hv Hs Hi. unfold policyAverage, average.
  assert ((0 < items)%Q ↔ (0 < supplying metric kws)%nat) as Hitems.
  { rewrite Hi. change 0%Q with (inject_Z 0). rewrite <- Zlt_Qlt. lia. }
  destruct (Qltb 0 volume) eqn:Evol.
  - apply Qltb_lt in Evol. rewrite Hv in Evol.
    split; [intros _; by rewrite Hw, Hv |]. split; intros Hn; by destruct Hn.
  - apply not_true_iff_false in Evol. rewrite Qltb_lt, Hv in Evol.
    split; [intros Hpos; by destruct Evol |].
    destruct (Qltb 0 items) eqn:Eitems.
    + apply Qltb_lt, Hitems in Eitems.
      split; [intros _ _; by rewrite Hs, Hi | intros _ Hzero; lia].
    + apply not_true_iff_false in Eitems. rewrite Qltb_lt, Hitems in Eitems.
      split; [intros _ Hpos; lia | intros _ _; reflexivity].
Qed.

Lemma metricsOf_averages (NT : NodeTypes) (node : Node) :
  policyAverage kdOf (clusterKeywordsUnder NT node) (averageKD (metricsOf NT node)) ∧
  policyAverage cpcOf (clusterKeywordsUnder NT node) (averageCPC (metricsOf NT node)).
Proof.
  pose proof (additive_subtree NT _ _ weightedKDSum_additive node) as Hw.
  pose proof (additive_subtree NT _ _ totalVolumeForKD_additive node) as Hv.
  pose proof (additive_subtree NT _ _ simpleKDSum_additive node) as Hs.
  pose proof (additive_subtree NT _ _ itemsWithKD_additive node) as Hi.
  pose proof (additive_subtree NT _ _ weightedCPCSum_additive node) as Hw'.
  pose proof (additive_subtree NT _ _ totalVolumeForCPC_additive node) as Hv'.
  pose proof (additive_subtree NT _ _ simpleCPCSum_additive node) as Hs'.
  pose proof (additive_subtree NT _ _ itemsWithCPC_additive node) as Hi'.
  rewrite supplying_count in Hi, Hi'.
  rewrite metricsOf_unfold in *. simpl in *.
  split; by apply average_policy.
Qed.

(** The average of a parent weighs every keyword by its own volume: 40
    here, not the mean 30 of the two child averages. *)
Example averageKD_weighs_keywords :
  (averageKD (metricsOf NodeType twoClusterPillar) == 40)%Q ∧
  Forall2 Qeq (map (λ c, averageKD (metricsOf NodeType c)) (childrenOf twoClusterPillar))
    [10%Q; 50%Q] ∧
  (totalClusters (metricsOf NodeType twoClusterPillar) == 2)%Q ∧
  (totalKeywords (metricsOf NodeType twoClusterPillar) == 2)%Q.
Proof.
  split; [reflexivity |]. split; [| split; reflexivity].
  repeat constructor.
Qed.

(** C3.  Whatever the cache holds, as long as it is sound, the averages
    computed for a node follow the policy over the keywords of all
    clusters of its subtree: the volume-weighted average when the summed
    volume of the keywords supplying the metric is positive, else the
    plain mean of the values supplied, else 0.  For a cluster with the
    keywords [{sv:100, kd:50}] and [{sv:0, kd:80}], [averageKD] is 50. *)
Theorem calculateDynamicNodeMetrics_averages (sameObject : Node → Node → bool)
    (NT : NodeTypes) (node : Node) (cache : option Cache) :
  identityLike sameObject →
  cacheSound sameObject NT cache →
  let metrics := fst (calculateDynamicNodeMetrics sameObject NT node cache) in
  policyAverage kdOf (clusterKeywordsUnder NT node) (averageKD metrics) ∧
  policyAverage cpcOf (clusterKeywordsUnder NT node) (averageCPC metrics) ∧
  (∀ first second,
     typeIs (node_type node) (CLUSTER NT) = true →
     node_keywords node = Some [first; second] → childrenOf node = [] →
     kw_searchVolume first = VNum 100 → kw_keywordDifficulty first = VNum 50 →
     kw_searchVolume second = VNum 0 → kw_keywordDifficulty second = VNum 80 →
     (averageKD metrics == 50)%Q).
Proof.
  intros Hid Hsound metrics.
  assert (metrics = metricsOf NT node) as ->.
  { by apply calculateDynamicNodeMetrics_cached. }
  destruct (metricsOf_averages NT node) as [Hkd Hcpc].
  split; [exact Hkd |]. split; [exact Hcpc |].
  intros first second Htype Hkws Hchildren Hsv1 Hkd1 Hsv2 Hkd2.
  destruct Hkd as [Hweighted _]. revert Hweighted.
  rewrite clusterKeywordsUnder_unfold, Htype, Hkws, Hchildren.
  unfold weightedSum, volumeSum, kdOf, volumeOf. simpl.
  rewrite Hsv1, Hkd1, Hsv2, Hkd2. simpl.
  intros Hweighted. rewrite Hweighted; reflexivity.
Qed.

Lemma calculateDynamicNodeMetrics_averages_witness :
  identityLike (λ _ _, false) ∧
  cacheSound (λ _ _, false) NodeType (Some []) ∧
  (averageKD (fst (calculateDynamicNodeMetrics (λ _ _, false) NodeType weightedExample
                     (Some []))) == 50)%Q.
Proof.
  assert (identityLike (λ _ _, false)) as Hid by (intros a b H; discriminate H).
  assert (cacheSound (λ _ _, false) NodeType (Some [])) as Hsound
    by (intros n m H; discriminate H).
  split; [exact Hid |]. split; [exact Hsound |].
  by apply (proj2 (proj2 (calculateDynamicNodeMetrics_averages (λ _ _, false) NodeType
                            weightedExample (Some []) Hid Hsound))
              (mkKeyword "first" (VNum 100) (VNum 50) VUndef)
              (mkKeyword "second" (VNum 0) (VNum 80) VUndef)).
Defined.

(** *** What one shared seen-set does deduplicate *)

Lemma dedupStep_nil (seen : gset string) : dedupStep seen [] seen.
Proof.
  split; [constructor |]. split; [by intros k ?%not_elem_of_nil |].
  simpl. by rewrite (right_id_L ∅ (∪)).
Qed.

Lemma dedupStep_cons (seen seen' : gset string) (k : string) (names : list string) :
  k ∉ seen → dedupStep ({[k]} ∪ seen) names seen' → dedupStep seen (k :: names) seen'.
Proof.
  intros Hk (Hnodup & Hfresh & ->). split; [| split].
  - constructor; [| exact Hnodup]. intros Hin. apply (Hfresh k Hin).
    apply elem_of_union. left. by apply elem_of_singleton.
  - intros k' [-> | Hin]%elem_of_cons; [exact Hk |].
    intros Hseen. apply (Hfresh k' Hin). apply elem_of_union. by right.
  - rewrite list_to_set_cons. by rewrite (comm_L (∪) {[k]} seen), <- (assoc_L (∪)).
Qed.

Lemma dedupStep_app (s1 s2 s3 : gset string) (n1 n2 : list string) :
  dedupStep s1 n1 s2 → dedupStep s2 n2 s3 → dedupStep s1 (n1 ++ n2) s3.
Proof.
  intros (Hnodup1 & Hfresh1 & ->) (Hnodup2 & Hfresh2 & ->). split; [| split].
  - apply NoDup_app. split; [exact Hnodup1 |]. split; [| exact Hnodup2].
    intros k Hin1 Hin2. apply (Hfresh2 k Hin2).
    apply elem_of_union. right. by apply elem_of_list_to_set.
  - intros k [Hin | Hin]%elem_of_app; [by apply Hfresh1 |].
    intros Hseen. apply (Hfresh2 k Hin). apply elem_of_union. by left.
  - by rewrite list_to_set_app_L, (assoc_L (∪)).
Qed.

Lemma keepUnseen_step (kws : list Keyword) (seen : gset string) :
  dedupStep seen (omap kw_keyword (fst (keepUnseen kws seen))) (snd (keepUnseen kws seen)).
Proof.
  revert seen. induction kws as [| kw rest IH]; intros seen; [apply dedupStep_nil |].
  simpl. destruct (kw_keyword kw) as [k |] eqn:Hk; [| apply IH].
  destruct (decide (k ∈ seen)) as [Hin | Hout]; [apply IH |].
  specialize (IH ({[k]} ∪ seen)).
  destruct (keepUnseen rest ({[k]} ∪ seen)) as [kept seen'].
  simpl in *. rewrite Hk. simpl. by apply dedupStep_cons.
Qed.

Lemma transformNode_unfold (node : Node) (seenKeywords : gset string) :
  transformNodeForHierarchicalView node seenKeywords =
  let '(keywords', seen1) :=
    match node_keywords node with
    | Some kws => let '(kept, s) := keepUnseen kws seenKeywords in (Some kept, s)
    | None => (None, seenKeywords)
    end in
  let '(children', seen2) :=
    match node_children node with
    | Some cs => let '(cs', s) := transformChildren cs seen1 in (Some cs', s)
    | None => (None, seen1)
    end in
  (mkNode (node_name node) (node_type node) (orZero (node_size node))
          (orZero (node_totalKeywords node)) (orZero (node_totalClusters node))
          (orZero (node_averageKD node)) (orZero (node_averageCPC node))
          (node_metadata node) keywords' children',
   seen2).
Proof.
  destruct node as [name type size tk tc kd cpc md kws [cs |]]; [| reflexivity].
  cbn [transformNodeForHierarchicalView node_keywords node_children node_name node_type
       node_size node_totalKeywords node_totalClusters node_averageKD node_averageCPC
       node_metadata].
  match goal with
  | |- context [?loop cs] =>
      is_fix loop;
      assert (∀ l seen, loop l seen = transformChildren l seen) as Hloop
  end.
  { induction l as [| n rest IH]; intros seen; [reflexivity |].
    simpl. destruct (transformNodeForHierarchicalView n seen) as [n' s1].
    by rewrite IH. }
  destruct kws as [kws |]; [destruct (keepUnseen kws seenKeywords) |];
    by rewrite Hloop.
Qed.

Lemma allKeywordsUnder_unfold (node : Node) :
  allKeywordsUnder node
  = default [] (node_keywords node) ++ flat_map allKeywordsUnder (childrenOf node).
Proof.
  by destruct node as [name type size tk tc kd cpc md kws [cs |]].
Qed.

Lemma transformChildren_step (cs : list Node) :
  Forall (λ c, ∀ seen,
            dedupStep seen
              (omap kw_keyword (allKeywordsUnder (fst (transformNodeForHierarchicalView c seen))))
              (snd (transformNodeForHierarchicalView c seen))) cs →
  ∀ seen,
    dedupStep seen
      (omap kw_keyword (flat_map allKeywordsUnder (fst (transformChildren cs seen))))
      (snd (transformChildren cs seen)).
Proof.
  induction 1 as [| c rest Hc _ IH]; intros seen; [apply dedupStep_nil |].
  simpl. specialize (Hc seen).
  destruct (transformNodeForHierarchicalView c seen) as [c' s1].
  specialize (IH s1). destruct (transformChildren rest s1) as [rest' s2].
  simpl in *. rewrite omap_app. by apply (dedupStep_app _ s1).
Qed.

(** One call of [transformNodeForHierarchicalView] lets every keyword
    string through at most once, in the whole subtree it returns. *)
Lemma transformNode_step (node : Node) (seen : gset string) :
  dedupStep seen
    (omap kw_keyword (allKeywordsUnder (fst (transformNodeForHierarchicalView node seen))))
    (snd (transformNodeForHierarchicalView node seen)).
Proof.
  revert seen. induction node as [node IH] using Node_ind. intros seen.
  rewrite transformNode_unfold.
  pose proof (keepUnseen_step (default [] (node_keywords node)) seen) as Hown.
  assert (∃ kws' s1,
            match node_keywords node with
            | Some kws => let '(kept, s) := keepUnseen kws seen in (Some kept, s)
            | None => (None, seen)
            end = (kws', s1) ∧
            dedupStep seen (omap kw_keyword (default [] kws')) s1)
    as (kws' & s1 & -> & Hstep1).
  { destruct (node_keywords node) as [kws |]; simpl in Hown.
    - destruct (keepUnseen kws seen) as [kept s]. by exists (Some kept), s.
    - exists None, seen. split; [reflexivity | apply dedupStep_nil]. }
  pose proof (transformChildren_step _ IH s1) as Hbelow.
  unfold childrenOf in Hbelow.
  destruct (node_children node) as [cs |]; simpl in Hbelow.
  - destruct (transformChildren cs s1) as [cs' s2].
    rewrite allKeywordsUnder_unfold. simpl. rewrite omap_app.
    by apply (dedupStep_app _ s1).
  - rewrite allKeywordsUnder_unfold. simpl. rewrite app_nil_r. exact Hstep1.
Qed.

Lemma omap_sublist {A B} (f : A → option B) (l1 l2 : list A) :
  l1 `sublist_of` l2 → omap f l1 `sublist_of` omap f l2.
Proof.
  induction 1 as [| x l1 l2 _ IH | x l1 l2 _ IH]; simpl; [constructor | |];
    destruct (f x); try constructor; exact IH.
Qed.

Lemma clusterKeywords_sublist (NT : NodeTypes) (node : Node) :
  clusterKeywordsUnder NT node `sublist_of` allKeywordsUnder node.
Proof.
  induction node as [node IH] using Node_ind.
  rewrite clusterKeywordsUnder_unfold, allKeywordsUnder_unfold.
  apply sublist_app.
  - destruct (typeIs (node_type node) (CLUSTER NT)); [reflexivity | apply sublist_nil_l].
  - induction IH as [| c rest Hc _ IHrest]; [constructor |].
    simpl. by apply sublist_app.
Qed.

(** Within one top-level node of the canonical tree every keyword string
    occurs at most once in the cluster keyword arrays. *)
Lemma transformNode_unique (NT : NodeTypes) (node : Node) (seen : gset string) :
  NoDup (treeKeywordStrings NT [fst (transformNodeForHierarchicalView node seen)]).
Proof.
  destruct (transformNode_step node seen) as [Hnodup _].
  apply (sublist_NoDup _ _ Hnodup), omap_sublist.
  unfold flat_map. rewrite app_nil_r. apply clusterKeywords_sublist.
Qed.

Section ExtractFacts.
Variable randomSuffix : nat → string.
Variable NT : NodeTypes.

Abbreviation extractAll := (extractAllNodesAndKeywords randomSuffix NT).

Lemma extractKeywords_step kws newPath fullPathString (st : ExtractState) :
  dedupStep (seen st)
    (omap item_name (fst (extractKeywords randomSuffix NT kws newPath fullPathString st)))
    (seen (snd (extractKeywords randomSuffix NT kws newPath fullPathString st))).
Proof.
  revert st. induction kws as [| kw rest IH]; intros st; [apply dedupStep_nil |].
  simpl. destruct (kw_keyword kw) as [k |]; [| apply IH].
  destruct (decide (k ∈ seen st)) as [Hin | Hout]; [apply IH |].
  specialize (IH {| seen := {[k]} ∪ seen st; draws := S (draws st) |}).
  destruct (extractKeywords randomSuffix NT rest newPath fullPathString _) as [more st'].
  simpl in *. by apply dedupStep_cons.
Qed.

Lemma extractOwn_step node currentPath level (st : ExtractState) :
  dedupStep (seen st)
    (omap item_name (keywordsList (extractOwn randomSuffix NT node currentPath level st).1.1))
    (seen (extractOwn randomSuffix NT node currentPath level st).2).
Proof.
  unfold extractOwn.
  repeat (destruct (typeIs (node_type node) _); [apply dedupStep_nil |]).
  destruct (typeIs (node_type node) (CLUSTER NT)); [| apply dedupStep_nil].
  destruct (node_keywords node) as [kws |]; [| apply dedupStep_nil].
  match goal with
  | |- context [extractKeywords _ _ _ ?p ?f ?s] =>
      pose proof (extractKeywords_step kws p f s) as Hstep;
      destruct (extractKeywords randomSuffix NT kws p f s) as [recs st2]
  end.
  exact Hstep.
Qed.

Lemma extractNode_unfold node currentPath level (st : ExtractState) :
  extractNode randomSuffix NT node currentPath level st =
  if falsyStr (node_type node) then (noneExtracted, st)
  else
    let '(own, newPath, st1) := extractOwn randomSuffix NT node currentPath level st in
    match node_children node with
    | Some cs =>
        let '(nested, st2) := extractAll cs newPath (S level) st1 in
        (concatExtracted own nested, st2)
    | None => (own, st1)
    end.
Proof.
  destruct node as [name type size tk tc kd cpc md kws [cs |]]; [| reflexivity].
  cbn [extractNode node_children node_type].
  destruct (falsyStr type); [reflexivity |].
  destruct (extractOwn _ _ _ _ _ _) as [[own newPath] st1].
  match goal with
  | |- context [?loop cs] =>
      is_fix loop;
      assert (∀ l s, loop l s = extractAll l newPath (S level) s) as ->; [| reflexivity]
  end.
  induction l as [| n rest IH]; intros s; [reflexivity |].
  simpl. destruct (extractNode _ _ n _ _ s) as [e1 s1]. by rewrite IH.
Qed.

Lemma extractAll_step_of (nodes : list Node) :
  Forall (λ n, ∀ currentPath level st,
            dedupStep (seen st)
              (omap item_name
                 (keywordsList (fst (extractNode randomSuffix NT n currentPath level st))))
              (seen (snd (extractNode randomSuffix NT n currentPath level st)))) nodes →
  ∀ currentPath level st,
    dedupStep (seen st)
      (omap item_name (keywordsList (fst (extractAll nodes currentPath level st))))
      (seen (snd (extractAll nodes currentPath level st))).
Proof.
  induction 1 as [| n rest Hn _ IH]; intros currentPath level st; [apply dedupStep_nil |].
  simpl. specialize (Hn currentPath level st).
  destruct (extractNode randomSuffix NT n currentPath level st) as [e1 s1].
  specialize (IH currentPath level s1).
  destruct (extractAll rest currentPath level s1) as [e2 s2].
  simpl in *. rewrite omap_app. by apply (dedupStep_app _ (seen s1)).
Qed.

Lemma extractNode_step (node : Node) :
  ∀ currentPath level st,
    dedupStep (seen st)
      (omap item_name
         (keywordsList (fst (extractNode randomSuffix NT node currentPath level st))))
      (seen (snd (extractNode randomSuffix NT node currentPath level st))).
Proof.
  induction node as [node IH] using Node_ind. intros currentPath level st.
  rewrite extractNode_unfold.
  destruct (falsyStr (node_type node)); [apply dedupStep_nil |].
  pose proof (extractOwn_step node currentPath level st) as Hown.
  destruct (extractOwn randomSuffix NT node currentPath level st) as [[own newPath] st1].
  unfold childrenOf in IH.
  destruct (node_children node) as [cs |]; [| exact Hown].
  pose proof (extractAll_step_of cs IH newPath (S level) st1) as Hnested.
  destruct (extractAll cs newPath (S level) st1) as [nested st2].
  simpl in *. rewrite omap_app. by apply (dedupStep_app _ (seen st1)).
Qed.

(** One call of [extractAllNodesAndKeywords] puts every keyword string in
    the flat keyword list at most once, over the whole tree it is given. *)
Lemma extractAll_step (nodes : list Node) currentPath level (st : ExtractState) :
  dedupStep (seen st)
    (omap item_name (keywordsList (fst (extractAll nodes currentPath level st))))
    (seen (snd (extractAll nodes currentPath level st))).
Proof.
  apply extractAll_step_of, Forall_forall. intros n _. apply extractNode_step.
Qed.

(** The flat keyword list of a processed document holds every keyword
    string at most once, across the entire input. *)
Lemma processed_flat_keywords_unique (document : list Node) :
  NoDup (omap item_name
           (allKeywordsData (processSampleDataForApp randomSuffix NT document))).
Proof.
  unfold processSampleDataForApp. simpl.
  by destruct (extractAll_step
                 (map (λ node, (transformNodeForHierarchicalView node ∅).1) document)
                 [] 0%nat {| seen := ∅; draws := 0 |}) as [Hnodup _].
Qed.

(** Every top-level node of the canonical tree is free of duplicates in
    itself. *)
Lemma processed_tree_unique_per_root (document : list Node) :
  Forall (λ root, NoDup (treeKeywordStrings NT [root]))
    (hierarchicalData (processSampleDataForApp randomSuffix NT document)).
Proof.
  unfold processSampleDataForApp. simpl. apply Forall_forall.
  intros root (node & -> & _)%list_elem_of_fmap. apply transformNode_unique.
Qed.
End ExtractFacts.

(** * Further properties of the code *)

(** ** The range matcher: what it accepts *)

Lemma num_le_lt_trans (a b c : num) : num_le a b → num_lt b c → num_lt a c.
Proof.
  unfold num_le, num_lt. destruct a, b, c; simpl; try done.
  rewrite <- not_true_iff_false, !Qltb_lt. intros Hab Hbc.
  apply Qnot_lt_le in Hab. by apply (Qle_lt_trans _ q0).
Qed.

Lemma num_lt_le_trans (a b c : num) : num_lt a b → num_le b c → num_lt a c.
Proof.
  unfold num_le, num_lt. destruct a, b, c; simpl; try done.
  rewrite <- not_true_iff_false, !Qltb_lt. intros Hab Hbc.
  apply Qnot_lt_le in Hbc. by apply (Qlt_le_trans _ q0).
Qed.

(** X1.  What a range filter accepts is an interval: a parsable value
    lying between two accepted values is accepted too, whatever the
    selection and the range collection. *)
Theorem checkRange_accepts_interval va vb vc filterSetting rangeCollection (a b c : num) :
  parseFloat va = Some a → parseFloat vb = Some b → parseFloat vc = Some c →
  num_le a b → num_le b c →
  checkRangeSelectionFilter_internal va filterSetting rangeCollection = true →
  checkRangeSelectionFilter_internal vc filterSetting rangeCollection = true →
  checkRangeSelectionFilter_internal vb filterSetting rangeCollection = true.
Proof.
  intros Ha Hb Hc Hab Hbc. unfold checkRangeSelectionFilter_internal.
  rewrite Ha, Hb, Hc.
  destruct (currentSelection filterSetting) as [sel |]; [| done].
  destruct (_ || _); [done |].
  destruct (selectBounds sel filterSetting rangeCollection) as [[minBound maxBound] |];
    [| done].
  destruct (belowMin a minBound) eqn:Hmin; [done |].
  destruct (aboveMax c maxBound) eqn:Hmax; [by destruct (belowMin c minBound) |].
  intros _ _.
  assert (belowMin b minBound = false) as ->.
  { destruct minBound as [[lo |] |]; try done. simpl in *.
    apply not_true_iff_false. intros Hlt. apply not_true_iff_false in Hmin.
    apply Hmin. by apply (num_le_lt_trans a b lo). }
  assert (aboveMax b maxBound = false) as ->; [| done].
  destruct maxBound as [[hi |] |]; try done. simpl in *.
  apply not_true_iff_false. intros Hlt. apply not_true_iff_false in Hmax.
  apply Hmax. by apply (num_lt_le_trans hi b c).
Qed.

Lemma checkRange_accepts_interval_witness :
  checkRangeSelectionFilter_internal (VNum 20) (namedSelection "11-100") SEARCH_VOLUME_RANGES
  = true.
Proof.
  apply (checkRange_accepts_interval (VNum 11) (VNum 20) (VStr "100") _ _
           (Fin 11) (Fin 20) (Fin (100 * 1)));
    try reflexivity; vm_compute; reflexivity.
Defined.

Lemma Qltb_inject_Z (a b : Z) : Qltb (inject_Z a) (inject_Z b) = (a <? b)%Z.
Proof.
  unfold Qltb, Qle_bool. simpl. rewrite !Z.mul_1_r. apply eq_sym, Z.ltb_antisym.
Qed.

(** A named bucket with two whole bounds, against a whole number. *)
Lemma checkRange_named_whole rangeCollection key l (lo hi n : Z) :
  key ≠ "any" → key ≠ "" → key ≠ "custom" →
  rangeCollection !! key = Some (mkRange l (VNum (inject_Z lo)) (VNum (inject_Z hi))) →
  checkRangeSelectionFilter_internal (VNum (inject_Z n)) (namedSelection key) rangeCollection
  = ((lo <=? n) && (n <=? hi))%Z.
Proof.
  intros Hany Hempty Hcustom Hrange.
  rewrite (checkRange_resolved _ _ _ key (Fin (inject_Z n))
             (Some (Some (Fin (inject_Z lo)))) (Some (Some (Fin (inject_Z hi)))));
    try done.
  - simpl. rewrite !Qltb_inject_Z, negb_orb, !Z.ltb_antisym, !negb_involutive. done.
  - unfold selectBounds. apply String.eqb_neq in Hcustom. by rewrite Hcustom, Hrange.
Qed.

(** A named bucket without an upper bound, against a whole number. *)
Lemma checkRange_named_open rangeCollection key l (lo n : Z) :
  key ≠ "any" → key ≠ "" → key ≠ "custom" →
  rangeCollection !! key = Some (mkRange l (VNum (inject_Z lo)) VNull) →
  checkRangeSelectionFilter_internal (VNum (inject_Z n)) (namedSelection key) rangeCollection
  = (lo <=? n)%Z.
Proof.
  intros Hany Hempty Hcustom Hrange.
  rewrite (checkRange_resolved _ _ _ key (Fin (inject_Z n))
             (Some (Some (Fin (inject_Z lo)))) None); try done.
  - simpl. rewrite Qltb_inject_Z, orb_false_r, Z.ltb_antisym, negb_involutive. done.
  - unfold selectBounds. apply String.eqb_neq in Hcustom. by rewrite Hcustom, Hrange.
Qed.

Ltac bucket_cases :=
  unfold acceptingBuckets, searchVolumeBuckets, difficultyBuckets;
  rewrite ?filter_cons, ?filter_nil;
  repeat match goal with
         | |- context [decide (?b = true)] =>
             let E := fresh "E" in
             destruct (decide (b = true)) as [E | E];
             [apply andb_prop in E as [?%Z.leb_le ?%Z.leb_le] || apply Z.leb_le in E
             | apply not_true_iff_false in E;
               first [apply andb_false_iff in E as [?%Z.leb_gt | ?%Z.leb_gt]
                     | apply Z.leb_gt in E]]
         end;
  try lia; eauto.

(** X2.  The named search-volume buckets partition the whole numbers from
    1 on: each is accepted by exactly one bucket.  A volume of 0 or less is
    accepted by none of them. *)
Theorem searchVolumeBuckets_partition (n : Z) :
  ((1 <= n)%Z →
   ∃ key, acceptingBuckets searchVolumeBuckets SEARCH_VOLUME_RANGES (inject_Z n) = [key]) ∧
  ((n <= 0)%Z →
   acceptingBuckets searchVolumeBuckets SEARCH_VOLUME_RANGES (inject_Z n) = []).
Proof.
  assert (∀ key l lo hi,
            SEARCH_VOLUME_RANGES !! key
            = Some (mkRange l (VNum (inject_Z lo)) (VNum (inject_Z hi))) →
            key ≠ "any" → key ≠ "" → key ≠ "custom" →
            checkRangeSelectionFilter_internal (VNum (inject_Z n)) (namedSelection key)
              SEARCH_VOLUME_RANGES = ((lo <=? n) && (n <=? hi))%Z) as Hboth.
  { intros. by eapply checkRange_named_whole. }
  pose proof (Hboth "1-10" _ 1%Z 10%Z eq_refl) as H1.
  pose proof (Hboth "11-100" _ 11%Z 100%Z eq_refl) as H2.
  pose proof (Hboth "101-1000" _ 101%Z 1000%Z eq_refl) as H3.
  pose proof (Hboth "1001-10000" _ 1001%Z 10000%Z eq_refl) as H4.
  pose proof (Hboth "10001-100000" _ 10001%Z 100000%Z eq_refl) as H5.
  pose proof (checkRange_named_open SEARCH_VOLUME_RANGES "100001+" _ 100001%Z n
                ltac:(done) ltac:(done) ltac:(done) eq_refl) as H6.
  split; intros Hn; unfold acceptingBuckets, searchVolumeBuckets;
    rewrite !filter_cons, filter_nil, H1, H2, H3, H4, H5, H6 by done; bucket_cases.
Qed.

(** A named bucket with two bounds, against any number. *)
Lemma checkRange_named_both rangeCollection key l (lo hi q : Q) :
  key ≠ "any" → key ≠ "" → key ≠ "custom" →
  rangeCollection !! key = Some (mkRange l (VNum lo) (VNum hi)) →
  checkRangeSelectionFilter_internal (VNum q) (namedSelection key) rangeCollection = true
  ↔ (lo <= q)%Q ∧ (q <= hi)%Q.
Proof.
  intros Hany Hempty Hcustom Hrange.
  rewrite (checkRange_resolved _ _ _ key (Fin q) (Some (Some (Fin lo))) (Some (Some (Fin hi))));
    try done.
  - simpl. rewrite negb_true_iff, orb_false_iff, <- !not_true_iff_false, !Qltb_lt.
    split; intros [H1 H2]; split;
      first [by apply Qnot_lt_le | by apply Qle_not_lt].
  - unfold selectBounds. apply String.eqb_neq in Hcustom. by rewrite Hcustom, Hrange.
Qed.

(** X3.  The named difficulty buckets accept each whole number from 0 to
    100 exactly once, but leave gaps between them: a difficulty strictly
    between the end of one bucket and the start of the next, such as 14.5,
    is accepted by no named bucket. *)
Theorem difficultyBuckets_cover_and_gaps :
  (∀ n : Z, (0 <= n <= 100)%Z →
     ∃ key, acceptingBuckets difficultyBuckets KEYWORD_DIFFICULTY_RANGES (inject_Z n) = [key]) ∧
  (∀ q : Q,
     (14 < q < 15 ∨ 29 < q < 30 ∨ 49 < q < 50 ∨ 69 < q < 70 ∨ 84 < q < 85)%Q →
     acceptingBuckets difficultyBuckets KEYWORD_DIFFICULTY_RANGES q = []).
Proof.
  assert (∀ q key l lo hi,
            KEYWORD_DIFFICULTY_RANGES !! key = Some (mkRange l (VNum lo) (VNum hi)) →
            key ≠ "any" → key ≠ "" → key ≠ "custom" →
            checkRangeSelectionFilter_internal (VNum q) (namedSelection key)
              KEYWORD_DIFFICULTY_RANGES = true ↔ (lo <= q)%Q ∧ (q <= hi)%Q) as Hboth.
  { intros. by eapply checkRange_named_both. }
  assert (∀ q,
            (∀ key, key ∈ acceptingBuckets difficultyBuckets KEYWORD_DIFFICULTY_RANGES q →
                    (0 <= q <= 14 ∨ 15 <= q <= 29 ∨ 30 <= q <= 49 ∨ 50 <= q <= 69 ∨
                     70 <= q <= 84 ∨ 85 <= q <= 100)%Q)) as Hin.
  { intros q key [Hcheck Hkey]%list_elem_of_filter.
    unfold difficultyBuckets in Hkey.
    repeat (apply elem_of_cons in Hkey as [-> | Hkey];
            [eapply Hboth in Hcheck; [| reflexivity | done..]; tauto |]).
    by apply not_elem_of_nil in Hkey. }
  split.
  - intros n Hn.
    assert (∀ key l lo hi,
              KEYWORD_DIFFICULTY_RANGES !! key
              = Some (mkRange l (VNum (inject_Z lo)) (VNum (inject_Z hi))) →
              key ≠ "any" → key ≠ "" → key ≠ "custom" →
              checkRangeSelectionFilter_internal (VNum (inject_Z n)) (namedSelection key)
                KEYWORD_DIFFICULTY_RANGES = ((lo <=? n) && (n <=? hi))%Z) as Hwhole.
    { intros. by eapply checkRange_named_whole. }
    pose proof (Hwhole "0-14" _ 0%Z 14%Z eq_refl) as H1.
    pose proof (Hwhole "15-29" _ 15%Z 29%Z eq_refl) as H2.
    pose proof (Hwhole "30-49" _ 30%Z 49%Z eq_refl) as H3.
    pose proof (Hwhole "50-69" _ 50%Z 69%Z eq_refl) as H4.
    pose proof (Hwhole "70-84" _ 70%Z 84%Z eq_refl) as H5.
    pose proof (Hwhole "85-100" _ 85%Z 100%Z eq_refl) as H6.
    unfold acceptingBuckets, difficultyBuckets.
    rewrite !filter_cons, filter_nil, H1, H2, H3, H4, H5, H6 by done. bucket_cases.
  - intros q Hgap.
    destruct (acceptingBuckets difficultyBuckets KEYWORD_DIFFICULTY_RANGES q)
      as [| key rest] eqn:Hacc; [done |].
    exfalso. specialize (Hin q key). rewrite Hacc in Hin.
    specialize (Hin ltac:(left)).
    destruct Hgap as [[]|[[]|[[]|[[]|[]]]]], Hin as [[]|[[]|[[]|[[]|[[]|[]]]]]];
      repeat match goal with
             | H1 : (?a < ?q)%Q, H2 : (?q <= ?b)%Q |- _ =>
                 pose proof (Qlt_le_trans _ _ _ H1 H2) as Habs; by vm_compute in Habs
             | H1 : (?a <= ?q)%Q, H2 : (?q < ?b)%Q |- _ =>
                 pose proof (Qle_lt_trans _ _ _ H1 H2) as Habs; by vm_compute in Habs
             end.
Qed.

(** ** The tree filter: what its output looks like *)

Lemma nodeNames_unfold (node : Node) :
  nodeNames node = node_name node :: flat_map nodeNames (childrenOf node).
Proof.
  by destruct node as [name type size tk tc kd cpc md kws [cs |]].
Qed.

Lemma childrenOf_with (node : Node) (visibleChildren : list Node) (kws : list Keyword) :
  childrenOf (withChildrenAndKeywords node visibleChildren kws) = visibleChildren.
Proof. reflexivity. Qed.

Lemma omap_fixed {A} (f : A → option A) (l : list A) :
  (∀ x, x ∈ l → f x = Some x) → omap f l = l.
Proof.
  induction l as [| x l IH]; intros Hfix; [reflexivity |].
  simpl. rewrite (Hfix x) by left. simpl. f_equal. apply IH.
  intros y Hy. apply Hfix. by right.
Qed.

Lemma filter_fixed {A} (P : A → Prop) `{∀ x, Decision (P x)} (l : list A) :
  Forall P l → filter P l = l.
Proof.
  induction 1 as [| x l Hx _ IH]; [reflexivity |].
  by rewrite filter_cons_True, IH.
Qed.

Lemma filter_sublist {A} (P : A → Prop) `{∀ x, Decision (P x)} (l : list A) :
  filter P l `sublist_of` l.
Proof.
  induction l as [| x l IH]; [constructor |].
  rewrite filter_cons. destruct (decide (P x)); by constructor.
Qed.

Section TreeFilterOutput.
Variable filters : Filters.
Variable searchTermsArray : list SearchTerm.
Variable NT : NodeTypes.
Variable applyFiltersToNodeNames : bool.
Variable checkRangeFunc : value → RangeFilter → gmap string Range → bool.
Variables SV_RANGES KD_RANGES CPC_RANGES_ : gmap string Range.
Variable excludedKeywords : list string.

Abbreviation filterNode_ :=
  (filterNode filters searchTermsArray NT applyFiltersToNodeNames checkRangeFunc
     SV_RANGES KD_RANGES CPC_RANGES_ excludedKeywords).
Abbreviation filterTree_ :=
  (filterHierarchicalTreeRecursive_internal filters searchTermsArray NT
     applyFiltersToNodeNames checkRangeFunc SV_RANGES KD_RANGES CPC_RANGES_ excludedKeywords).
Abbreviation skipped_ := (skippedByName applyFiltersToNodeNames excludedKeywords).
Abbreviation include_ :=
  (includeNode filters searchTermsArray NT applyFiltersToNodeNames checkRangeFunc
     SV_RANGES KD_RANGES CPC_RANGES_ excludedKeywords).
Abbreviation keptKeywords_ :=
  (filteredKeywordsOf filters searchTermsArray NT checkRangeFunc
     SV_RANGES KD_RANGES CPC_RANGES_ excludedKeywords).
Abbreviation keywordPasses_ :=
  (keywordPasses filters searchTermsArray checkRangeFunc
     SV_RANGES KD_RANGES CPC_RANGES_ excludedKeywords).

Lemma keptKeywords_pass (node : Node) (kw : Keyword) :
  kw ∈ keptKeywords_ node → keywordPasses_ kw = true.
Proof.
  unfold filteredKeywordsOf. destruct (node_keywords node) as [kws |];
    [| by intros ?%not_elem_of_nil].
  destruct (_ && _); [| by intros ?%not_elem_of_nil].
  by intros [? _]%list_elem_of_filter.
Qed.

Lemma keywordPasses_not_excluded (kw : Keyword) :
  keywordPasses_ kw = true →
  ∃ k, kw_keyword kw = Some k ∧ isExcluded excludedKeywords (Some k) = false.
Proof.
  unfold keywordPasses. destruct (kw_keyword kw) as [k |]; [| done].
  destruct (isExcluded excludedKeywords (Some k)) eqn:Hex; [done |]. by exists k.
Qed.

Lemma filterNode_sound (node : Node) :
  ∀ kept, filterNode_ node = Some kept →
  ∀ n, subnode n kept →
    skipped_ n = false ∧
    ∀ kw, kw ∈ default [] (node_keywords n) → keywordPasses_ kw = true.
Proof.
  induction node as [node IH] using Node_ind.
  intros kept Hkept n Hsub.
  apply (filterNode_Some _ _ _ _ _ _ _ _ _) in Hkept as [Hskip ->].
  inversion Hsub as [| child root Hchild Hbelow]; subst.
  - split; [exact Hskip |]. simpl. apply keptKeywords_pass.
  - cbn [childrenOf withChildrenAndKeywords node_children default] in Hchild.
    apply filterTree_elem in Hchild as (c & Hc & Hkeptc).
    rewrite Forall_forall in IH. by apply (IH c Hc child).
Qed.

(** X4.  Everything in the filtered tree has passed: at any depth, no node
    kept has a name that the filter skips (with node-name filtering on, no
    kept name holds an excluded word), and every keyword kept is a string
    that holds no excluded word, matches the search terms and lies in the
    three ranges. *)
Theorem filterTree_output_sound (nodesToFilter : list Node) (root n : Node) :
  root ∈ filterTree_ nodesToFilter →
  subnode n root →
  skipped_ n = false ∧
  ∀ kw, kw ∈ default [] (node_keywords n) →
    keywordPasses_ kw = true ∧
    ∃ k, kw_keyword kw = Some k ∧ isExcluded excludedKeywords (Some k) = false.
Proof.
  intros (node & _ & Hkept)%filterTree_elem Hsub.
  destruct (filterNode_sound node root Hkept n Hsub) as [Hskip Hkws].
  split; [exact Hskip |]. intros kw Hkw.
  split; [by apply Hkws |]. by apply keywordPasses_not_excluded, Hkws.
Qed.

Lemma keptKeywords_again (node : Node) (visibleChildren : list Node) :
  keptKeywords_ (withChildrenAndKeywords node visibleChildren (keptKeywords_ node))
  = keptKeywords_ node.
Proof.
  unfold filteredKeywordsOf at 1. cbn [withChildrenAndKeywords node_keywords node_type].
  destruct (typeIs (node_type node) (CLUSTER NT) && nodeTypeSelected filters (KEYWORDS NT))
    eqn:Hon.
  - apply filter_fixed, Forall_forall. intros kw. apply keptKeywords_pass.
  - unfold filteredKeywordsOf. rewrite Hon. by destruct (node_keywords node).
Qed.

Lemma filterNode_again (node : Node) :
  ∀ kept, filterNode_ node = Some kept → filterNode_ kept = Some kept.
Proof.
  induction node as [node IH] using Node_ind. intros kept Hkept.
  pose proof Hkept as Hkept'.
  apply (filterNode_Some _ _ _ _ _ _ _ _ _) in Hkept' as [Hskip ->].
  rewrite filterNode_unfold in Hkept. rewrite Hskip in Hkept. simpl in Hkept.
  destruct (include_ node (filterTree_ (childrenOf node))) eqn:Hinclude; [| done].
  rewrite filterNode_unfold.
  assert (filterTree_ (filterTree_ (childrenOf node)) = filterTree_ (childrenOf node))
    as Hchildren.
  { rewrite (filterTree_omap _ _ _ _ _ _ _ _ _ (filterTree_ _)). apply omap_fixed.
    intros c' (c & Hc & Hkeptc)%filterTree_elem.
    rewrite Forall_forall in IH. by apply (IH c Hc). }
  rewrite childrenOf_with.
  change (skipped_ (withChildrenAndKeywords node (filterTree_ (childrenOf node))
                      (keptKeywords_ node))) with (skipped_ node).
  rewrite Hskip, Hchildren. cbn zeta.
  assert (include_ (withChildrenAndKeywords node (filterTree_ (childrenOf node))
                      (keptKeywords_ node)) (filterTree_ (childrenOf node))
          = include_ node (filterTree_ (childrenOf node))) as ->.
  { unfold includeNode. by rewrite keptKeywords_again. }
  by rewrite Hinclude, keptKeywords_again.
Qed.

(** X5.  Filtering is idempotent: a tree that came out of the filter comes
    out of the same filter unchanged. *)
Theorem filterTree_idempotent (nodesToFilter : list Node) :
  filterTree_ (filterTree_ nodesToFilter) = filterTree_ nodesToFilter.
Proof.
  rewrite (filterTree_omap _ _ _ _ _ _ _ _ _ (filterTree_ _)). apply omap_fixed.
  intros kept (node & _ & Hkept)%filterTree_elem. by apply (filterNode_again node).
Qed.

Lemma filterNode_prunes (node : Node) :
  ∀ kept, filterNode_ node = Some kept →
    nodeNames kept `sublist_of` nodeNames node ∧
    allKeywordsUnder kept `sublist_of` allKeywordsUnder node.
Proof.
  induction node as [node IH] using Node_ind. intros kept Hkept.
  apply (filterNode_Some _ _ _ _ _ _ _ _ _) in Hkept as [_ ->].
  rewrite !nodeNames_unfold, !allKeywordsUnder_unfold, childrenOf_with.
  cbn [withChildrenAndKeywords node_keywords node_name].
  change (default [] (Some (keptKeywords_ node))) with (keptKeywords_ node).
  rewrite filterTree_omap.
  assert (flat_map nodeNames (omap filterNode_ (childrenOf node))
            `sublist_of` flat_map nodeNames (childrenOf node) ∧
          flat_map allKeywordsUnder (omap filterNode_ (childrenOf node))
            `sublist_of` flat_map allKeywordsUnder (childrenOf node)) as [Hnames Hkws].
  { induction IH as [| c rest Hc _ IHrest]; [by split |].
    destruct IHrest as [IHn IHk]. simpl.
    destruct (filterNode_ c) as [c' |] eqn:Hc'; simpl.
    - destruct (Hc c' eq_refl). split; by apply sublist_app.
    - split; by apply sublist_inserts_l. }
  split; [by constructor |].
  apply sublist_app; [| exact Hkws].
  unfold filteredKeywordsOf. destruct (node_keywords node) as [kws |]; [| constructor].
  destruct (_ && _); [apply filter_sublist | apply sublist_nil_l].
Qed.

(** X6.  The filter only prunes: the names of the nodes it returns are the
    names of input nodes in their original depth-first order, and the
    keywords it returns are keywords of the input in their original order;
    nothing is added, changed or moved. *)
Theorem filterTree_only_prunes (nodesToFilter : list Node) :
  flat_map nodeNames (filterTree_ nodesToFilter)
    `sublist_of` flat_map nodeNames nodesToFilter ∧
  flat_map allKeywordsUnder (filterTree_ nodesToFilter)
    `sublist_of` flat_map allKeywordsUnder nodesToFilter.
Proof.
  rewrite filterTree_omap.
  induction nodesToFilter as [| node rest [IHn IHk]]; [by split |].
  simpl. destruct (filterNode_ node) as [kept |] eqn:Hkept; simpl.
  - destruct (filterNode_prunes node kept Hkept). split; by apply sublist_app.
  - split; by apply sublist_inserts_l.
Qed.
End TreeFilterOutput.

Lemma filterTree_output_sound_witness :
  let out :=
    filterHierarchicalTreeRecursive_internal INITIAL_FILTERS_STATE [] NodeType false
      checkRangeSelectionFilter_internal SEARCH_VOLUME_RANGES KEYWORD_DIFFICULTY_RANGES
      CPC_RANGES ["crowns"] [restorativePillar] in
  ∃ root cluster,
    out = [root] ∧ childrenOf root = [cluster] ∧
    node_keywords cluster = Some [mkKeyword "dental crown" (VNum 900) (VNum 40) (VNum 2)] ∧
    ∀ kw, kw ∈ default [] (node_keywords cluster) →
      ∃ k, kw_keyword kw = Some k ∧ isExcluded ["crowns"] (Some k) = false.
Proof.
  eexists. eexists.
  split; [vm_compute; reflexivity |]. split; [reflexivity |]. split; [reflexivity |].
  intros kw Hkw.
  eapply (filterTree_output_sound INITIAL_FILTERS_STATE [] NodeType false
            checkRangeSelectionFilter_internal SEARCH_VOLUME_RANGES
            KEYWORD_DIFFICULTY_RANGES CPC_RANGES ["crowns"] [restorativePillar]).
  - vm_compute. left.
  - eapply subnode_below; [| apply subnode_self]. left.
  - exact Hkw.
Defined.

Section HierarchicalMode.
Variable filters : Filters.
Variable searchTermsArray : list SearchTerm.
Variable NT : NodeTypes.
Variable checkRangeFunc : value → RangeFilter → gmap string Range → bool.
Variables SV_RANGES KD_RANGES CPC_RANGES_ : gmap string Range.
Variable excludedKeywords : list string.

Abbreviation hierarchicalNode :=
  (filterNode filters searchTermsArray NT false checkRangeFunc
     SV_RANGES KD_RANGES CPC_RANGES_ excludedKeywords).
Abbreviation hierarchicalTree :=
  (filterHierarchicalTreeRecursive_internal filters searchTermsArray NT false checkRangeFunc
     SV_RANGES KD_RANGES CPC_RANGES_ excludedKeywords).

(** With node-name filtering off, a node of a selected type is kept on its
    own account. *)
Lemma hierarchical_selected_kept (node : Node) :
  nodeTypeSelected filters (showStr (node_type node)) = true →
  is_Some (hierarchicalNode node).
Proof.
  intros Hselected. rewrite filterNode_unfold. cbn [skippedByName andb].
  cbn zeta. unfold includeNode, passesNumerics, passesSearch. rewrite Hselected.
  cbn [andb]. by destruct (hierarchicalTree (childrenOf node)).
Qed.

Lemma hierarchical_names_kept (node : Node) :
  (∀ n, subnode n node → nodeTypeSelected filters (showStr (node_type n)) = true) →
  ∃ kept, hierarchicalNode node = Some kept ∧ nodeNames kept = nodeNames node.
Proof.
  induction node as [node IH] using Node_ind. intros Hselected.
  destruct (hierarchical_selected_kept node (Hselected node (subnode_self _)))
    as [kept Hkept].
  exists kept. split; [exact Hkept |].
  apply (filterNode_Some _ _ _ _ _ _ _ _ _) in Hkept as [_ ->].
  rewrite !nodeNames_unfold, childrenOf_with. cbn [withChildrenAndKeywords node_name].
  f_equal. rewrite filterTree_omap.
  assert (∀ c, c ∈ childrenOf node →
               ∀ n, subnode n c → nodeTypeSelected filters (showStr (node_type n)) = true)
    as Hbelow.
  { intros c Hc n Hn. apply Hselected. by apply (subnode_below _ c). }
  induction IH as [| c rest Hc _ IHrest]; [reflexivity |].
  destruct (Hc (Hbelow c ltac:(left))) as (c' & Hc' & Hnames).
  simpl. rewrite Hc'. simpl. rewrite Hnames. f_equal. apply IHrest.
  intros d Hd. apply Hbelow. by right.
Qed.

(** X7.  Called as the hierarchical view calls it, with node-name filtering
    off, the filter removes no node of a tree whose node types are all
    toggled on: whatever the search terms, the ranges and the exclusions,
    the result has the same nodes in the same order, and only the keyword
    lists of its clusters are thinned. *)
Theorem filterTree_hierarchical_keeps_nodes (nodesToFilter : list Node) :
  (∀ root n, root ∈ nodesToFilter → subnode n root →
             nodeTypeSelected filters (showStr (node_type n)) = true) →
  flat_map nodeNames (hierarchicalTree nodesToFilter) = flat_map nodeNames nodesToFilter ∧
  length (hierarchicalTree nodesToFilter) = length nodesToFilter.
Proof.
  rewrite filterTree_omap.
  induction nodesToFilter as [| node rest IH]; intros Hselected; [done |].
  destruct (hierarchical_names_kept node) as (kept & Hkept & Hnames).
  { intros n Hn. apply (Hselected node); [left | exact Hn]. }
  destruct IH as [IHnames IHlength].
  { intros root n Hroot. apply Hselected. by right. }
  assert (omap hierarchicalNode (node :: rest) = kept :: omap hierarchicalNode rest) as ->.
  { simpl. by rewrite Hkept. }
  cbn [flat_map length]. by rewrite Hnames, IHnames, IHlength.
Qed.
End HierarchicalMode.

Lemma filterTree_hierarchical_keeps_nodes_witness :
  flat_map nodeNames
    (filterHierarchicalTreeRecursive_internal volumeFrom101 [quotedDentalCrown] NodeType false
       checkRangeSelectionFilter_internal SEARCH_VOLUME_RANGES KEYWORD_DIFFICULTY_RANGES
       CPC_RANGES ["restorative"] [restorativePillar])
  = [Some "Restorative"; Some "Crowns"].
Proof.
  apply (proj1 (filterTree_hierarchical_keeps_nodes volumeFrom101 [quotedDentalCrown] NodeType
                  checkRangeSelectionFilter_internal SEARCH_VOLUME_RANGES
                  KEYWORD_DIFFICULTY_RANGES CPC_RANGES ["restorative"] [restorativePillar]
                  ltac:(intros root n Hroot Hsub;
                        apply list_elem_of_singleton in Hroot; subst root;
                        inversion Hsub as [| child ? Hchild Hbelow]; subst; [reflexivity |];
                        change (childrenOf restorativePillar) with [crownsCluster] in Hchild;
                        apply list_elem_of_singleton in Hchild; subst child;
                        inversion Hbelow as [| child ? Hchild _]; subst; [reflexivity |];
                        change (childrenOf crownsCluster) with (@nil Node) in Hchild;
                        by apply not_elem_of_nil in Hchild))).
Defined.

(** ** The flat-list filter: one test per record *)

Section FlatFilterFacts.
Variable filters : Filters.
Variable selectedPillar : string.
Variable searchTermsArray : list SearchTerm.
Variable singleSelectedType : string.
Variable NT : NodeTypes.
Variable rangeCheckFunc : value → RangeFilter → gmap string Range → bool.
Variables sv kd cpc : gmap string Range.
Variable excludedKeywords : list string.

Abbreviation filterFlat :=
  (filterFlatListByType_internal filters selectedPillar searchTermsArray singleSelectedType NT
     rangeCheckFunc sv kd cpc excludedKeywords).
Abbreviation keeps :=
  (flatKeeps filters selectedPillar searchTermsArray singleSelectedType NT
     rangeCheckFunc sv kd cpc excludedKeywords).

(** The four stages amount to one [filter]. *)
Lemma filterFlat_as_filter (sourceList : list FlatRecord) :
  filterFlat sourceList = filter (λ item, keeps item = true) sourceList.
Proof.
  unfold filterFlatListByType_internal, pillarFilteredList, flatKeeps.
  destruct (String.eqb selectedPillar "all"), (String.eqb selectedPillar "");
    destruct searchTermsArray as [| term terms]; cbn [negb andb orb];
    rewrite ?list_filter_filter; apply list_filter_iff; intros item;
    rewrite ?andb_true_iff, ?negb_true_iff; tauto.
Qed.

(** X8.  The flat filter keeps a record exactly when the record is in the
    source list and passes all four tests: pillar scope (when a pillar is
    selected), the three ranges, no excluded word in its name, and the
    search (when there are terms).  The records kept stay in their order. *)
Theorem filterFlat_membership (sourceList : list FlatRecord) (item : FlatRecord) :
  (item ∈ filterFlat sourceList ↔
   item ∈ sourceList ∧
   (selectedPillar = "all" ∨ selectedPillar = "" ∨
    inSelectedPillar selectedPillar NT item = true) ∧
   passesRanges filters rangeCheckFunc sv kd cpc item = true ∧
   isExcluded excludedKeywords (item_name item) = false ∧
   (searchTermsArray = [] ∨
    itemPassesSearch searchTermsArray singleSelectedType NT item = true)) ∧
  filterFlat sourceList `sublist_of` sourceList.
Proof.
  rewrite filterFlat_as_filter. split; [| apply filter_sublist].
  rewrite list_elem_of_filter. unfold flatKeeps.
  rewrite !andb_true_iff, !orb_true_iff, negb_true_iff, !String.eqb_eq.
  destruct searchTermsArray as [| term terms]; intuition (try done).
Qed.

(** X9.  Each record is judged on its own: filtering a concatenation gives
    the concatenation of the filtered parts, and filtering what was
    already filtered with the same settings changes nothing. *)
Theorem filterFlat_recordwise (l1 l2 : list FlatRecord) :
  filterFlat (l1 ++ l2) = filterFlat l1 ++ filterFlat l2 ∧
  filterFlat (filterFlat l1) = filterFlat l1.
Proof.
  rewrite !filterFlat_as_filter. split; [apply filter_app |].
  apply filter_fixed, Forall_forall. by intros item [? _]%list_elem_of_filter.
Qed.
End FlatFilterFacts.

Lemma checkRange_inactive v filterSetting rangeCollection :
  inactiveSelection filterSetting →
  checkRangeSelectionFilter_internal v filterSetting rangeCollection = true.
Proof.
  unfold checkRangeSelectionFilter_internal.
  intros [-> | [-> | ->]]; by destruct (parseFloat v).
Qed.

(** X10.  With no pillar selected, no search term, no exclusion and the
    three range selections inactive, the flat filter returns its source
    list unchanged, whatever the records hold. *)
Theorem filterFlat_neutral filters singleSelectedType NT sv kd cpc
    (sourceList : list FlatRecord) :
  inactiveSelection (filters_searchVolume filters) →
  inactiveSelection (filters_keywordDifficulty filters) →
  inactiveSelection (filters_averageCPC filters) →
  filterFlatListByType sourceList filters "all" [] singleSelectedType NT sv kd cpc []
  = sourceList.
Proof.
  intros Hsv Hkd Hcpc. unfold filterFlatListByType. rewrite filterFlat_as_filter.
  apply filter_fixed, Forall_forall. intros item _.
  unfold flatKeeps, passesRanges, isExcluded.
  rewrite !checkRange_inactive by done.
  by destruct (item_name item) as [name |]; [destruct (String.eqb name "") |].
Qed.

Lemma filterFlat_neutral_witness :
  filterFlatListByType [dentalCrown; dentalCrowns] INITIAL_FILTERS_STATE "all" [] "keywords"
    NodeType SEARCH_VOLUME_RANGES KEYWORD_DIFFICULTY_RANGES CPC_RANGES []
  = [dentalCrown; dentalCrowns].
Proof.
  apply filterFlat_neutral; right; left; reflexivity.
Defined.

(** ** The two views agree on keywords *)

Lemma orZero_idempotent (v : value) : orZero (orZero v) = orZero v.
Proof.
  unfold orZero. destruct (truthy v) eqn:Htruthy; [by rewrite Htruthy | reflexivity].
Qed.

Lemma extractKeywords_records randomSuffix NT kws newPath fullPathString st record :
  record ∈ fst (extractKeywords randomSuffix NT kws newPath fullPathString st) →
  ∃ kw, kw ∈ kws ∧ recordOfKeyword record kw.
Proof.
  revert st. induction kws as [| kw rest IH]; intros st; [by intros ?%not_elem_of_nil |].
  simpl. destruct (kw_keyword kw) as [k |] eqn:Hk.
  - destruct (decide (k ∈ seen st)).
    + intros (kw' & ? & ?)%IH. exists kw'. split; [by right | done].
    + destruct (extractKeywords randomSuffix NT rest newPath fullPathString _)
        as [more st'] eqn:Hmore.
      simpl. intros [-> | Hin]%elem_of_cons.
      * exists kw. split; [left |]. unfold recordOfKeyword. rewrite Hk. simpl.
        repeat split; eauto.
      * destruct (IH {| seen := {[k]} ∪ seen st; draws := S (draws st) |})
          as (kw' & ? & ?); [by rewrite Hmore |].
        exists kw'. split; [by right | done].
  - intros (kw' & ? & ?)%IH. exists kw'. split; [by right | done].
Qed.

Lemma extractNode_keyword_records randomSuffix NT (node : Node) :
  ∀ currentPath level st record,
    record ∈ keywordsList (fst (extractNode randomSuffix NT node currentPath level st)) →
    ∃ kw, kw ∈ clusterKeywordsUnder NT node ∧ recordOfKeyword record kw.
Proof.
  induction node as [node IH] using Node_ind. intros currentPath level st record.
  rewrite extractNode_unfold, clusterKeywordsUnder_unfold.
  destruct (falsyStr (node_type node)); [by intros ?%not_elem_of_nil |].
  assert (∀ r, r ∈ keywordsList (extractOwn randomSuffix NT node currentPath level st).1.1 →
               ∃ kw, kw ∈ (if typeIs (node_type node) (CLUSTER NT)
                           then default [] (node_keywords node) else []) ∧
                     recordOfKeyword r kw) as Hown.
  { unfold extractOwn.
    repeat (destruct (typeIs (node_type node) _); [by intros r ?%not_elem_of_nil |]).
    destruct (typeIs (node_type node) (CLUSTER NT)); [| by intros r ?%not_elem_of_nil].
    destruct (node_keywords node) as [kws |]; [| by intros r ?%not_elem_of_nil].
    intros r.
    match goal with
    | |- context [extractKeywords _ _ _ ?p ?f ?s] =>
        pose proof (extractKeywords_records randomSuffix NT kws p f s r) as Hrec;
        destruct (extractKeywords randomSuffix NT kws p f s) as [recs st2]
    end.
    exact Hrec. }
  destruct (extractOwn randomSuffix NT node currentPath level st) as [[own newPath] st1].
  simpl in Hown. unfold childrenOf in *.
  destruct (node_children node) as [cs |]; simpl.
  - assert (∀ level st r,
              r ∈ keywordsList
                    (fst (extractAllNodesAndKeywords randomSuffix NT cs newPath level st)) →
              ∃ kw, kw ∈ flat_map (clusterKeywordsUnder NT) cs ∧ recordOfKeyword r kw)
      as Hnested.
    { clear Hown. pose proof (IH : Forall _ cs) as IHcs. clear IH.
      induction IHcs as [| c rest Hc _ IHrest]; intros lvl s r;
        [by intros ?%not_elem_of_nil |].
      simpl. specialize (Hc newPath lvl s r).
      destruct (extractNode randomSuffix NT c newPath lvl s) as [e1 s1].
      specialize (IHrest lvl s1 r).
      destruct (extractAllNodesAndKeywords randomSuffix NT rest newPath lvl s1) as [e2 s2].
      simpl in *. intros [Hin | Hin]%elem_of_app.
      - destruct (Hc Hin) as (kw & ? & ?). exists kw. split; [| done].
        apply elem_of_app. by left.
      - destruct (IHrest Hin) as (kw & ? & ?). exists kw. split; [| done].
        apply elem_of_app. by right. }
    specialize (Hnested (S level) st1 record).
    destruct (extractAllNodesAndKeywords randomSuffix NT cs newPath (S level) st1)
      as [nested st2].
    simpl in *. intros [Hin | Hin]%elem_of_app.
    + destruct (Hown _ Hin) as (kw & ? & ?). exists kw. split; [| done].
      apply elem_of_app. by left.
    + destruct (Hnested Hin) as (kw & ? & ?). exists kw. split; [| done].
      apply elem_of_app. by right.
  - intros Hin. destruct (Hown _ Hin) as (kw & ? & ?). exists kw. split; [| done].
    by rewrite app_nil_r.
Qed.

Lemma flatKeeps_keyword filters terms selectedType NT check sv kd cpc excluded record kw :
  recordOfKeyword record kw →
  flatKeeps filters "all" terms selectedType NT check sv kd cpc excluded record
  = keywordPasses filters terms check sv kd cpc excluded kw.
Proof.
  intros ([k Hk] & Hname & Hsv & Hkd & Hcpc & Hmd).
  unfold flatKeeps, keywordPasses, passesRanges, itemPassesSearch.
  rewrite Hname, Hsv, Hkd, Hcpc, Hmd, Hk, !orZero_idempotent.
  cbn [lowerOrEmpty].
  destruct (isExcluded excluded (Some k));
    [cbn [negb]; by rewrite andb_false_r |].
  cbn [negb]. rewrite andb_true_r.
  destruct terms as [| term terms]; [by rewrite andb_true_r |].
  destruct (negb _ && negb _); apply andb_comm.
Qed.

(** X11.  The flat view and the tree view judge a keyword alike: every
    record of the flat keyword list extracted from a tree is the record of
    a keyword of one of the tree's clusters, and, with no pillar selected,
    the flat filter keeps that record exactly when the keyword filter of
    the tree filter keeps that keyword under the same ranges, search terms
    and exclusions. *)
Theorem flat_and_tree_agree_on_keywords randomSuffix NT (nodes : list Node) currentPath level st
    filters terms selectedType check sv kd cpc excluded (record : FlatRecord) :
  record ∈ keywordsList
             (fst (extractAllNodesAndKeywords randomSuffix NT nodes currentPath level st)) →
  ∃ kw, kw ∈ flat_map (clusterKeywordsUnder NT) nodes ∧
        recordOfKeyword record kw ∧
        ∀ sourceList,
          record ∈ filterFlatListByType_internal filters "all" terms selectedType NT check
                     sv kd cpc excluded sourceList
          ↔ record ∈ sourceList ∧
            keywordPasses filters terms check sv kd cpc excluded kw = true.
Proof.
  intros Hin.
  assert (∃ kw, kw ∈ flat_map (clusterKeywordsUnder NT) nodes ∧ recordOfKeyword record kw)
    as (kw & Hkw & Hrec).
  { revert st Hin. induction nodes as [| node rest IH]; intros st;
      [by intros ?%not_elem_of_nil |].
    simpl.
    pose proof (extractNode_keyword_records randomSuffix NT node currentPath level st record)
      as Hnode.
    destruct (extractNode randomSuffix NT node currentPath level st) as [e1 s1].
    specialize (IH s1).
    destruct (extractAllNodesAndKeywords randomSuffix NT rest currentPath level s1)
      as [e2 s2].
    simpl in *. intros [Hin | Hin]%elem_of_app.
    - destruct (Hnode Hin) as (kw & ? & ?). exists kw. split; [| done].
      apply elem_of_app. by left.
    - destruct (IH Hin) as (kw & ? & ?). exists kw. split; [| done].
      apply elem_of_app. by right. }
  exists kw. split; [exact Hkw |]. split; [exact Hrec |].
  intros sourceList. rewrite filterFlat_as_filter, list_elem_of_filter.
  rewrite (flatKeeps_keyword _ _ _ _ _ _ _ _ _ _ _ Hrec). tauto.
Qed.

Lemma flat_and_tree_agree_on_keywords_witness :
  ∃ record kw,
    keywordsList
      (fst (extractAllNodesAndKeywords (λ _, "x") NodeType [crownsCluster] [] 0
              {| seen := ∅; draws := 0 |})) !! 0%nat = Some record ∧
    recordOfKeyword record kw ∧
    (record ∈ filterFlatListByType_internal INITIAL_FILTERS_STATE "all" [quotedDentalCrown]
                "keywords" NodeType checkRangeSelectionFilter_internal SEARCH_VOLUME_RANGES
                KEYWORD_DIFFICULTY_RANGES CPC_RANGES [] [record]
     ↔ record ∈ [record] ∧
       keywordPasses INITIAL_FILTERS_STATE [quotedDentalCrown]
         checkRangeSelectionFilter_internal SEARCH_VOLUME_RANGES KEYWORD_DIFFICULTY_RANGES
         CPC_RANGES [] kw = true).
Proof.
  eexists.
  destruct (flat_and_tree_agree_on_keywords (λ _, "x") NodeType [crownsCluster] [] 0%nat
              {| seen := ∅; draws := 0 |} INITIAL_FILTERS_STATE [quotedDentalCrown]
              "keywords" checkRangeSelectionFilter_internal SEARCH_VOLUME_RANGES
              KEYWORD_DIFFICULTY_RANGES CPC_RANGES []
              {| item_id := "keyword-dental crown-x"; item_name := Some "dental crown";
                 item_type := Some "keywords"; item_searchVolume := VNum 900;
                 item_keywordDifficulty := VNum 40; item_cpc := VNum 2;
                 item_totalKeywords := VUndef; item_totalClusters := VUndef;
                 item_fullHierarchyPath := Some "Crowns > dental crown";
                 item_metadata := None |}) as (kw & _ & Hrec & Hiff).
  - vm_compute. left.
  - exists kw. split; [vm_compute; reflexivity |]. split; [exact Hrec |]. apply Hiff.
Defined.

(** ** Normalization: fixed points, untyped nodes, paths *)

Lemma keepUnseen_keywords_are_strings (kws : list Keyword) (seen : gset string) :
  Forall (λ kw, is_Some (kw_keyword kw)) (fst (keepUnseen kws seen)).
Proof.
  revert seen. induction kws as [| kw rest IH]; intros seen; [constructor |].
  simpl. destruct (kw_keyword kw) as [k |] eqn:Hk; [| apply IH].
  destruct (decide (k ∈ seen)); [apply IH |].
  specialize (IH ({[k]} ∪ seen)). destruct (keepUnseen rest _) as [kept seen'].
  simpl in *. constructor; [by rewrite Hk | exact IH].
Qed.

Lemma keepUnseen_fixed (kws : list Keyword) (seen : gset string) :
  Forall (λ kw, is_Some (kw_keyword kw)) kws →
  NoDup (omap kw_keyword kws) →
  (∀ k, k ∈ omap kw_keyword kws → k ∉ seen) →
  fst (keepUnseen kws seen) = kws.
Proof.
  intros Hstrings. revert seen.
  induction Hstrings as [| kw rest [k Hk] _ IH]; intros seen Hnodup Hfresh; [reflexivity |].
  simpl in *. rewrite Hk in *. simpl in *.
  apply NoDup_cons in Hnodup as [Hk_rest Hnodup].
  rewrite decide_False by (apply Hfresh; left).
  specialize (IH ({[k]} ∪ seen) Hnodup).
  destruct (keepUnseen rest ({[k]} ∪ seen)) as [kept seen'].
  simpl in *. f_equal. apply IH. intros k' Hk'.
  rewrite elem_of_union, elem_of_singleton. intros [-> | Hseen]; [done |].
  by apply (Hfresh k'); [right |].
Qed.

(** A node whose subtree is normalised and free of duplicates comes out of
    [transformNodeForHierarchicalView] as it went in, for every seen-set
    that holds none of its keywords. *)
Lemma transformNode_fixed (node : Node) :
  ∀ seen,
    (∀ m, subnode m node → normalised m) →
    NoDup (omap kw_keyword (allKeywordsUnder node)) →
    (∀ k, k ∈ omap kw_keyword (allKeywordsUnder node) → k ∉ seen) →
    fst (transformNodeForHierarchicalView node seen) = node.
Proof.
  induction node as [node IH] using Node_ind. intros seen Hnorm Hnodup Hfresh.
  rewrite allKeywordsUnder_unfold, omap_app in Hnodup, Hfresh.
  apply NoDup_app in Hnodup as (Hnodup_own & Hdisjoint & Hnodup_below).
  destruct (Hnorm node (subnode_self _)) as (Hsize & Htk & Htc & Hkd & Hcpc & Hstrings).
  rewrite transformNode_unfold.
  pose proof (keepUnseen_step (default [] (node_keywords node)) seen) as Hstep.
  pose proof (keepUnseen_fixed (default [] (node_keywords node)) seen Hstrings Hnodup_own)
    as Hown.
  assert (∀ cs s1,
            Forall (λ c, ∀ seen,
                      (∀ m, subnode m c → normalised m) →
                      NoDup (omap kw_keyword (allKeywordsUnder c)) →
                      (∀ k, k ∈ omap kw_keyword (allKeywordsUnder c) → k ∉ seen) →
                      fst (transformNodeForHierarchicalView c seen) = c) cs →
            (∀ c m, c ∈ cs → subnode m c → normalised m) →
            NoDup (omap kw_keyword (flat_map allKeywordsUnder cs)) →
            (∀ k, k ∈ omap kw_keyword (flat_map allKeywordsUnder cs) → k ∉ s1) →
            fst (transformChildren cs s1) = cs) as Hchildren.
  { clear. intros cs s1 Hall. revert s1.
    induction Hall as [| c rest Hc _ IHrest]; intros s1 Hnorm Hnodup Hfresh; [reflexivity |].
    simpl in *. rewrite omap_app in Hnodup, Hfresh.
    apply NoDup_app in Hnodup as (Hnodup_c & Hdisjoint & Hnodup_rest).
    pose proof (transformNode_step c s1) as (_ & _ & Hseen).
    specialize (Hc s1 (λ m, Hnorm c m ltac:(left)) Hnodup_c
                  (λ k Hk, Hfresh k ltac:(apply elem_of_app; by left))).
    destruct (transformNodeForHierarchicalView c s1) as [c' s2]. simpl in *. subst c'.
    specialize (IHrest s2).
    destruct (transformChildren rest s2) as [rest' s3]. simpl in *. f_equal.
    apply IHrest; [| exact Hnodup_rest |].
    - intros d m Hd. apply Hnorm. by right.
    - intros k Hk. rewrite Hseen, elem_of_union, elem_of_list_to_set.
      intros [Hs1 | Hc]; [| by apply (Hdisjoint k)].
      by apply (Hfresh k); [apply elem_of_app; right |]. }
  destruct node as [name type size tk tc kd cpc md kws cs]. simpl in *.
  rewrite Hsize, Htk, Htc, Hkd, Hcpc.
  destruct kws as [kws |]; simpl in *.
  - destruct Hstep as (_ & _ & Hseen1).
    specialize (Hown (λ k Hk, Hfresh k ltac:(apply elem_of_app; by left))).
    destruct (keepUnseen kws seen) as [kept s1]. simpl in *. subst kept.
    destruct cs as [cs |]; [| reflexivity].
    specialize (Hchildren cs s1 IH).
    destruct (transformChildren cs s1) as [cs' s2]. simpl in *.
    rewrite Hchildren; [reflexivity | | exact Hnodup_below |].
    + intros c m Hc Hm. apply Hnorm. by apply (subnode_below _ c).
    + intros k Hk. rewrite Hseen1, elem_of_union, elem_of_list_to_set.
      intros [Hs | Hk']; [| by apply (Hdisjoint k)].
      by apply (Hfresh k); [apply elem_of_app; right |].
  - destruct cs as [cs |]; [| reflexivity].
    specialize (Hchildren cs seen IH).
    destruct (transformChildren cs seen) as [cs' s2]. simpl in *.
    rewrite Hchildren; [reflexivity | | exact Hnodup_below |].
    + intros c m Hc Hm. apply Hnorm. by apply (subnode_below _ c).
    + intros k Hk. by apply (Hfresh k).
Qed.

Lemma transformNode_normalised (node : Node) :
  ∀ seen m, subnode m (fst (transformNodeForHierarchicalView node seen)) → normalised m.
Proof.
  induction node as [node IH] using Node_ind. intros seen m.
  rewrite transformNode_unfold.
  pose proof (keepUnseen_keywords_are_strings (default [] (node_keywords node)) seen)
    as Hstrings.
  assert (∀ cs s1,
            Forall (λ c, ∀ seen m,
                      subnode m (fst (transformNodeForHierarchicalView c seen)) →
                      normalised m) cs →
            ∀ c' m, c' ∈ fst (transformChildren cs s1) → subnode m c' → normalised m)
    as Hchildren.
  { clear. intros cs s1 Hall. revert s1.
    induction Hall as [| c rest Hc _ IHrest]; intros s1 c' m;
      [by intros ?%not_elem_of_nil |].
    simpl. specialize (Hc s1).
    destruct (transformNodeForHierarchicalView c s1) as [c1 s2].
    specialize (IHrest s2). destruct (transformChildren rest s2) as [rest' s3].
    simpl in *. intros [-> | Hin]%elem_of_cons; [apply Hc | by apply IHrest]. }
  destruct node as [name type size tk tc kd cpc md kws cs]. simpl in *.
  assert (∀ kws' cs' (s2 : gset string) m0,
            Forall (λ kw, is_Some (kw_keyword kw)) (default [] kws') →
            (∀ c' m, c' ∈ default [] cs' → subnode m c' → normalised m) →
            subnode m0 (mkNode name type (orZero size) (orZero tk) (orZero tc) (orZero kd)
                          (orZero cpc) md kws' cs', s2).1 →
            normalised m0) as Hbuild.
  { intros kws' cs' s2 m0 Hk Hc Hsub. simpl in Hsub.
    inversion Hsub as [| child root Hchild Hbelow]; subst.
    - unfold normalised. simpl. by rewrite !orZero_idempotent.
    - by apply (Hc child). }
  destruct kws as [kws |]; simpl in *.
  - destruct (keepUnseen kws seen) as [kept s1]. simpl in *.
    destruct cs as [cs |].
    + specialize (Hchildren cs s1 IH).
      destruct (transformChildren cs s1) as [cs' s2]. by apply Hbuild.
    + intros Hsub. refine (Hbuild _ _ ∅ _ _ _ Hsub);
        [done | by intros c' m0 ?%not_elem_of_nil].
  - destruct cs as [cs |].
    + specialize (Hchildren cs seen IH).
      destruct (transformChildren cs seen) as [cs' s2]. by apply Hbuild.
    + intros Hsub. refine (Hbuild _ _ ∅ _ _ _ Hsub);
        [done | by intros c' m0 ?%not_elem_of_nil].
Qed.

(** X12.  The canonical tree is a fixed point of normalization: processing
    the tree that [processSampleDataForApp] (and so
    [processRawDataFromFile]) returned gives that same tree again. *)
Theorem processed_tree_is_fixed_point randomSuffix NT (document : list Node) :
  let canonical := hierarchicalData (processSampleDataForApp randomSuffix NT document) in
  hierarchicalData (processSampleDataForApp randomSuffix NT canonical) = canonical.
Proof.
  unfold processSampleDataForApp. cbn [hierarchicalData]. cbv zeta.
  rewrite map_map. apply map_ext. intros node.
  apply transformNode_fixed.
  - apply transformNode_normalised.
  - by destruct (transformNode_step node ∅) as [Hnodup _].
  - intros k _. apply not_elem_of_empty.
Qed.

Lemma transformNode_name_type (node : Node) (seen : gset string) :
  node_name (fst (transformNodeForHierarchicalView node seen)) = node_name node ∧
  node_type (fst (transformNodeForHierarchicalView node seen)) = node_type node.
Proof.
  rewrite transformNode_unfold.
  destruct (node_keywords node) as [kws |]; [destruct (keepUnseen kws seen) |];
    (destruct (node_children node) as [cs |]; [destruct (transformChildren cs _) |]);
    done.
Qed.

Lemma extractAll_untyped randomSuffix NT (nodes : list Node) currentPath level st :
  Forall (λ node, falsyStr (node_type node) = true) nodes →
  extractAllNodesAndKeywords randomSuffix NT nodes currentPath level st = (noneExtracted, st).
Proof.
  induction 1 as [| node rest Hnode _ IH]; [reflexivity |].
  simpl. rewrite extractNode_unfold, Hnode, IH. reflexivity.
Qed.

(** X13.  A node without a type is not indexed, and neither is anything
    below it: for a document whose top-level nodes carry no [type], such as
    the built-in sample, all five flat lists come out empty, while the tree
    itself is kept with all its top-level nodes. *)
Theorem processed_untyped_document randomSuffix NT (document : list Node) :
  Forall (λ node, falsyStr (node_type node) = true) document →
  let processed := processSampleDataForApp randomSuffix NT document in
  allPillarsData processed = [] ∧ allParentsData processed = [] ∧
  allSubtopicsData processed = [] ∧ allClustersData processed = [] ∧
  allKeywordsData processed = [] ∧
  map node_name (hierarchicalData processed) = map node_name document.
Proof.
  intros Huntyped. unfold processSampleDataForApp. cbn [hierarchicalData allPillarsData
    allParentsData allSubtopicsData allClustersData allKeywordsData]. cbv zeta.
  rewrite extractAll_untyped.
  - repeat split; try reflexivity. rewrite map_map. apply map_ext.
    intros node. apply transformNode_name_type.
  - apply Forall_forall. intros node' (node & -> & Hnode)%list_elem_of_fmap.
    rewrite Forall_forall in Huntyped.
    destruct (transformNode_name_type node ∅) as [_ ->]. by apply Huntyped.
Qed.

Lemma processed_untyped_document_witness :
  let processed := processSampleDataForApp (λ _, "x") NodeType SAMPLE_DATA in
  allPillarsData processed = [] ∧ allParentsData processed = [] ∧
  allSubtopicsData processed = [] ∧ allClustersData processed = [] ∧
  allKeywordsData processed = [] ∧
  map node_name (hierarchicalData processed)
  = [Some "1. Dental Health Fundamentals"; Some "2. Dental Treatments & Procedures"].
Proof.
  apply (processed_untyped_document (λ _, "x") NodeType SAMPLE_DATA).
  repeat constructor.
Defined.

Lemma startsWith_app (p s : string) : startsWith (p +:+ s) p = true.
Proof.
  unfold startsWith. induction p as [| a p IH]; [by destruct s |].
  change (String a p +:+ s) with (String a (p +:+ s)). simpl.
  by destruct (ascii_dec a a).
Qed.

Lemma string_app_assoc (a b c : string) : (a +:+ b) +:+ c = a +:+ (b +:+ c).
Proof.
  induction a as [| x a IH]; [reflexivity |].
  change (String x a +:+ b) with (String x (a +:+ b)).
  change (String x (a +:+ b) +:+ c) with (String x ((a +:+ b) +:+ c)).
  change (String x a +:+ (b +:+ c)) with (String x (a +:+ (b +:+ c))).
  by rewrite IH.
Qed.

(** The path of a keyword below a path that starts with [pillar]. *)
Lemma keyword_path_under (pillar k : string) (more : list string) :
  startsWith (join " > " (pillar :: more) +:+ " > " +:+ k) (pillar +:+ " > ") = true.
Proof.
  destruct more as [| next more].
  - cbn [join]. rewrite <- string_app_assoc. apply startsWith_app.
  - change (join " > " (pillar :: next :: more))
      with (pillar +:+ " > " +:+ join " > " (next :: more)).
    rewrite <- (string_app_assoc pillar), string_app_assoc. apply startsWith_app.
Qed.

Section KeywordPaths.
Variable randomSuffix : nat → string.
Variable NT : NodeTypes.
Variable pillar : string.

Lemma extractKeywords_filed kws more st record :
  record ∈ fst (extractKeywords randomSuffix NT kws (pillar :: more)
                  (join " > " (pillar :: more)) st) →
  filedUnder NT pillar record.
Proof.
  revert st. induction kws as [| kw rest IH]; intros st; [by intros ?%not_elem_of_nil |].
  simpl. destruct (kw_keyword kw) as [k |]; [| apply IH].
  destruct (decide (k ∈ seen st)); [apply IH |].
  specialize (IH {| seen := {[k]} ∪ seen st; draws := S (draws st) |}).
  destruct (extractKeywords randomSuffix NT rest _ _ _) as [recs st'].
  simpl in *. intros [-> | Hin]%elem_of_cons; [| by apply IH].
  split; [reflexivity |]. apply keyword_path_under.
Qed.

Lemma extractOwn_filed node more level st :
  let result := extractOwn randomSuffix NT node (pillar :: more) level st in
  (∃ more', result.1.2 = pillar :: more') ∧
  ∀ record, record ∈ keywordsList result.1.1 → filedUnder NT pillar record.
Proof.
  unfold extractOwn.
  set (newPath := if falsyStr (node_name node) then pillar :: more
                  else (pillar :: more) ++ [showStr (node_name node)]).
  assert (∃ more', newPath = pillar :: more') as [more' Hpath].
  { unfold newPath. destruct (falsyStr (node_name node)); eauto. }
  rewrite Hpath.
  repeat (destruct (typeIs (node_type node) _);
          [split; [by exists more' | by intros r ?%not_elem_of_nil] |]).
  destruct (typeIs (node_type node) (CLUSTER NT));
    [| split; [by exists more' | by intros r ?%not_elem_of_nil]].
  destruct (node_keywords node) as [kws |];
    [| split; [by exists more' | by intros r ?%not_elem_of_nil]].
  pose proof (λ r, extractKeywords_filed kws more'
                     {| seen := seen st; draws := S (draws st) |} r) as Hfiled.
  destruct (extractKeywords randomSuffix NT kws (pillar :: more') _ _) as [recs st2].
  split; [by exists more' | exact Hfiled].
Qed.

Lemma extractNode_filed (node : Node) :
  ∀ more level st record,
    record ∈ keywordsList (fst (extractNode randomSuffix NT node (pillar :: more) level st)) →
    filedUnder NT pillar record.
Proof.
  induction node as [node IH] using Node_ind. intros more level st record.
  rewrite extractNode_unfold.
  destruct (falsyStr (node_type node)); [by intros ?%not_elem_of_nil |].
  destruct (extractOwn_filed node more level st) as [[more' Hpath] Hown].
  destruct (extractOwn randomSuffix NT node (pillar :: more) level st)
    as [[own newPath] st1].
  simpl in Hpath, Hown. subst newPath. pose proof (IH : Forall _ (childrenOf node)) as IHcs.
  unfold childrenOf in IHcs. destruct (node_children node) as [cs |]; [| apply Hown].
  simpl in IHcs.
  assert (∀ lvl s r,
            r ∈ keywordsList
                  (fst (extractAllNodesAndKeywords randomSuffix NT cs (pillar :: more') lvl s)) →
            filedUnder NT pillar r) as Hnested.
  { clear Hown IH. induction IHcs as [| c rest Hc _ IHrest]; intros lvl s r;
      [by intros ?%not_elem_of_nil |].
    simpl. specialize (Hc more' lvl s r).
    destruct (extractNode randomSuffix NT c (pillar :: more') lvl s) as [e1 s1].
    specialize (IHrest lvl s1 r).
    destruct (extractAllNodesAndKeywords randomSuffix NT rest _ lvl s1) as [e2 s2].
    simpl in *. intros [Hin | Hin]%elem_of_app; [by apply Hc | by apply IHrest]. }
  specialize (Hnested (S level) st1 record).
  destruct (extractAllNodesAndKeywords randomSuffix NT cs _ (S level) st1) as [nested st2].
  simpl. intros [Hin | Hin]%elem_of_app; [by apply Hown | by apply Hnested].
Qed.

Lemma extractRoot_filed (root : Node) level st record :
  node_name root = Some pillar → pillar ≠ "" →
  record ∈ keywordsList
             (fst (extractAllNodesAndKeywords randomSuffix NT [root] [] level st)) →
  filedUnder NT pillar record.
Proof.
  intros Hname Hnonempty. simpl.
  rewrite extractNode_unfold.
  destruct (falsyStr (node_type root)); [by intros ?%not_elem_of_nil |].
  assert ((∀ r, r ∈ keywordsList (extractOwn randomSuffix NT root [] level st).1.1 →
                filedUnder NT pillar r) ∧
          (extractOwn randomSuffix NT root [] level st).1.2 = [pillar]) as [Hown Hpath].
  { unfold extractOwn. rewrite Hname. cbn [falsyStr showStr default app].
    apply String.eqb_neq in Hnonempty. rewrite Hnonempty. unfold id.
    repeat (destruct (typeIs (node_type root) _);
            [split; [by intros r ?%not_elem_of_nil | reflexivity] |]).
    destruct (typeIs (node_type root) (CLUSTER NT));
      [| split; [by intros r ?%not_elem_of_nil | reflexivity]].
    destruct (node_keywords root) as [kws |];
      [| split; [by intros r ?%not_elem_of_nil | reflexivity]].
    pose proof (λ r, extractKeywords_filed kws []
                       {| seen := seen st; draws := S (draws st) |} r) as Hfiled.
    destruct (extractKeywords randomSuffix NT kws [pillar] _ _) as [recs st2].
    split; [exact Hfiled | reflexivity]. }
  destruct (extractOwn randomSuffix NT root [] level st) as [[own newPath] st1].
  simpl in Hown, Hpath. subst newPath.
  destruct (node_children root) as [cs |].
  - assert (∀ lvl s r,
              r ∈ keywordsList
                    (fst (extractAllNodesAndKeywords randomSuffix NT cs [pillar] lvl s)) →
              filedUnder NT pillar r) as Hnested.
    { clear. induction cs as [| c rest IH]; intros lvl s r; [by intros ?%not_elem_of_nil |].
      simpl. pose proof (extractNode_filed c [] lvl s r) as Hc.
      destruct (extractNode randomSuffix NT c [pillar] lvl s) as [e1 s1].
      specialize (IH lvl s1 r).
      destruct (extractAllNodesAndKeywords randomSuffix NT rest _ lvl s1) as [e2 s2].
      simpl in *. intros [Hin | Hin]%elem_of_app; [by apply Hc | by apply IH]. }
    specialize (Hnested (S level) st1 record).
    destruct (extractAllNodesAndKeywords randomSuffix NT cs [pillar] (S level) st1)
      as [nested st2].
    simpl. rewrite app_nil_r.
    intros [Hin | Hin]%elem_of_app; [by apply Hown | by apply Hnested].
  - simpl. rewrite app_nil_r. apply Hown.
Qed.

(** X14.  Pillar scoping loses no keyword of the selected pillar: every
    keyword record extracted from under a top-level node named [pillar]
    has a path that starts with that name, a space, [>] and a space, and so
    the pillar-scoping stage of the flat filter, asked for [pillar], keeps
    all those records. *)
Theorem pillar_scope_keeps_own_keywords (root : Node) level st :
  node_name root = Some pillar → pillar ≠ "" → pillar ≠ "all" →
  KEYWORDS NT ≠ PILLAR NT →
  let records :=
    keywordsList (fst (extractAllNodesAndKeywords randomSuffix NT [root] [] level st)) in
  Forall (λ record, pathStartsWith (item_fullHierarchyPath record) (pillar +:+ " > ") = true)
    records ∧
  pillarFilteredList pillar NT records = records.
Proof.
  intros Hname Hnonempty Hall Htags records.
  assert (Forall (filedUnder NT pillar) records) as Hfiled.
  { apply Forall_forall. intros record. by apply extractRoot_filed. }
  split; [by eapply Forall_impl; [exact Hfiled | intros r [_ ?]] |].
  unfold pillarFilteredList.
  apply String.eqb_neq in Hall, Hnonempty. rewrite Hall, Hnonempty. cbn [negb andb].
  apply filter_fixed. eapply Forall_impl; [exact Hfiled |].
  intros record [Htype Hpath]. unfold inSelectedPillar, typeIs.
  destruct (item_fullHierarchyPath record) as [path |]; [| discriminate].
  rewrite Htype. apply String.eqb_neq in Htags. cbn [pathStartsWith] in Hpath.
  destruct path as [| a path]; [by destruct pillar |].
  cbn [String.eqb]. by rewrite Htags.
Qed.
End KeywordPaths.

Lemma pillar_scope_keeps_own_keywords_witness :
  let records :=
    keywordsList (fst (extractAllNodesAndKeywords (λ _, "x") NodeType [restorativePillar] [] 0
                         {| seen := ∅; draws := 0 |})) in
  Forall (λ record,
            pathStartsWith (item_fullHierarchyPath record) ("Restorative" +:+ " > ") = true)
    records ∧
  pillarFilteredList "Restorative" NodeType records = records.
Proof.
  apply (pillar_scope_keeps_own_keywords (λ _, "x") NodeType "Restorative" restorativePillar 0
           {| seen := ∅; draws := 0 |}); [reflexivity | discriminate ..].
Defined.


(** ** Aggregated metrics: totals *)

Lemma clustersUnder_unfold (NT : NodeTypes) (node : Node) :
  clustersUnder NT node
  = ((if typeIs (node_type node) (CLUSTER NT) then 1 else 0)
     + sum_list_with (clustersUnder NT) (childrenOf node))%nat.
Proof.
  by destruct node as [name type size tk tc kd cpc md kws [cs |]].
Qed.

Lemma countQ_add (a b : nat) : (countQ (a + b) == countQ a + countQ b)%Q.
Proof. unfold countQ. by rewrite Nat2Z.inj_add, inject_Z_plus. Qed.

Lemma sumQ_ones {A} (l : list A) : (sumQ (map (λ _, 1%Q) l) == countQ (length l))%Q.
Proof.
  induction l as [| x l IH]; [reflexivity |].
  change (length (x :: l)) with (1 + length l)%nat. rewrite countQ_add. simpl.
  rewrite IH. reflexivity.
Qed.

Lemma totalSearchVolume_additive : Additive totalSearchVolume volumeOf.
Proof. additive_selector. Qed.

Lemma totalKeywords_additive : Additive totalKeywords (λ _, 1%Q).
Proof. additive_selector. Qed.

Lemma totalClusters_keywords (kws : list Keyword) (metrics : Metrics) :
  totalClusters (fold_left addKeyword kws metrics) = totalClusters metrics.
Proof.
  revert metrics. induction kws as [| kw rest IH]; intros metrics; [reflexivity |].
  simpl. by rewrite IH.
Qed.

Lemma totalClusters_children (children : list Metrics) (metrics : Metrics) :
  (totalClusters (fold_left addChild children metrics)
   == totalClusters metrics + sumQ (map totalClusters children))%Q.
Proof.
  revert metrics. induction children as [| c rest IH]; intros metrics; simpl; [ring |].
  rewrite IH. simpl. ring.
Qed.

Lemma totalClusters_own (NT : NodeTypes) (node : Node) :
  totalClusters (ownMetrics NT node)
  = countQ (if typeIs (node_type node) (CLUSTER NT) then 1 else 0).
Proof.
  unfold ownMetrics.
  destruct (node_keywords node) as [kws |], (typeIs (node_type node) (CLUSTER NT));
    rewrite ?totalClusters_keywords; reflexivity.
Qed.

Lemma totalClusters_subtree (NT : NodeTypes) (node : Node) :
  (totalClusters (metricsOf NT node) == countQ (clustersUnder NT node))%Q.
Proof.
  induction node as [node IH] using Node_ind.
  rewrite metricsOf_unfold, clustersUnder_unfold, countQ_add.
  cbn [setAverages totalClusters]. rewrite totalClusters_children, totalClusters_own.
  apply Qplus_comp; [reflexivity |].
  induction IH as [| c rest Hc _ IHrest]; [reflexivity |].
  cbn [map sumQ fold_right sum_list_with]. rewrite countQ_add, <- IHrest, <- Hc. reflexivity.
Qed.

Lemma metricsOf_totals (NT : NodeTypes) (node : Node) :
  (totalSearchVolume (metricsOf NT node)
   == sumQ (map volumeOf (clusterKeywordsUnder NT node)))%Q ∧
  (totalKeywords (metricsOf NT node) == countQ (length (clusterKeywordsUnder NT node)))%Q ∧
  (totalClusters (metricsOf NT node) == countQ (clustersUnder NT node))%Q.
Proof.
  split; [apply (additive_subtree NT _ _ totalSearchVolume_additive) |].
  split; [| apply totalClusters_subtree].
  rewrite (additive_subtree NT _ _ totalKeywords_additive). apply sumQ_ones.
Qed.

(** With the fresh cache of [calculateMetricsForNode], the metrics are those
    computed without a cache. *)
Lemma calculateMetricsForNode_uncached (sameObject : Node → Node → bool) (NT : NodeTypes)
    (node : Node) :
  identityLike sameObject → calculateMetricsForNode sameObject NT node = metricsOf NT node.
Proof.
  intros Hid.
  destruct (calculateDynamicNodeMetrics_cached sameObject NT Hid node (Some []))
    as [Hrow _]; [intros n cached Hget; discriminate Hget | exact Hrow].
Qed.

(** X15.  The three totals of a node are totals over its whole subtree:
    [totalSearchVolume] is the sum of the numeric search volumes of the
    keywords of every cluster at or below the node, [totalKeywords] is the
    number of those keywords and [totalClusters] the number of
    Cluster-typed nodes at or below it.  A sound cache changes none of
    them. *)
Theorem calculateDynamicNodeMetrics_totals (sameObject : Node → Node → bool)
    (NT : NodeTypes) (node : Node) (cache : option Cache) :
  identityLike sameObject →
  cacheSound sameObject NT cache →
  let metrics := fst (calculateDynamicNodeMetrics sameObject NT node cache) in
  (totalSearchVolume metrics == sumQ (map volumeOf (clusterKeywordsUnder NT node)))%Q ∧
  (totalKeywords metrics == countQ (length (clusterKeywordsUnder NT node)))%Q ∧
  (totalClusters metrics == countQ (clustersUnder NT node))%Q.
Proof.
  intros Hid Hsound metrics.
  assert (metrics = metricsOf NT node) as ->.
  { by apply calculateDynamicNodeMetrics_cached. }
  apply metricsOf_totals.
Qed.

Lemma calculateDynamicNodeMetrics_totals_witness :
  let metrics :=
    fst (calculateDynamicNodeMetrics (λ _ _, false) NodeType twoClusterPillar (Some [])) in
  (totalSearchVolume metrics == 400)%Q ∧ (totalKeywords metrics == 2)%Q ∧
  (totalClusters metrics == 2)%Q.
Proof.
  assert (identityLike (λ _ _, false)) as Hid by (intros a b H; discriminate H).
  assert (cacheSound (λ _ _, false) NodeType (Some [])) as Hsound
    by (intros n m H; discriminate H).
  exact (calculateDynamicNodeMetrics_totals (λ _ _, false) NodeType twoClusterPillar
           (Some []) Hid Hsound).
Defined.

(** ** The global panel and the node metrics *)

Lemma average_compat (w w' v v' s s' i i' : Q) :
  (w == w')%Q → (v == v')%Q → (s == s')%Q → (i == i')%Q →
  (average w v s i == average w' v' s' i')%Q.
Proof.
  intros Hw Hv Hs Hi. unfold average.
  assert (Qltb 0 v = Qltb 0 v') as ->.
  { apply eq_true_iff_eq. by rewrite !Qltb_lt, Hv. }
  assert (Qltb 0 i = Qltb 0 i') as ->.
  { apply eq_true_iff_eq. by rewrite !Qltb_lt, Hi. }
  destruct (Qltb 0 v'); [by rewrite Hw, Hv |].
  destruct (Qltb 0 i'); [by rewrite Hs, Hi | reflexivity].
Qed.

Lemma aggregate_sum (f : Metrics → Q) (g : Keyword → Q) (additive : Additive f g)
    (NT : NodeTypes) (node : Node) :
  (f (fold_left addKeyword (clusterKeywordsUnder NT node) (initialMetrics false))
   == f (metricsOf NT node))%Q.
Proof.
  rewrite (additive_keywords f g additive), (additive_initial f g additive),
    (additive_subtree NT f g additive). ring.
Qed.

Lemma metricsOf_average_fields (NT : NodeTypes) (node : Node) :
  averageKD (metricsOf NT node)
  = average (weightedKDSum (metricsOf NT node)) (totalVolumeForKD (metricsOf NT node))
            (simpleKDSum (metricsOf NT node)) (itemsWithKD (metricsOf NT node)) ∧
  averageCPC (metricsOf NT node)
  = average (weightedCPCSum (metricsOf NT node)) (totalVolumeForCPC (metricsOf NT node))
            (simpleCPCSum (metricsOf NT node)) (itemsWithCPC (metricsOf NT node)).
Proof. by rewrite metricsOf_unfold. Qed.




(** ** Strings: reversal, trimming and lower case *)

Lemma string_app_nil_r (s : string) : s +:+ "" = s.
Proof.
  induction s as [| a s IH]; [reflexivity |].
  change (String a s +:+ "") with (String a (s +:+ "")). by rewrite IH.
Qed.

Lemma string_app_cons (a : ascii) (s t : string) : String a s +:+ t = String a (s +:+ t).
Proof. reflexivity. Qed.

Lemma rev_app_spec (s1 s2 : string) : String.rev_app s1 s2 = String.rev s1 +:+ s2.
Proof.
  unfold String.rev. revert s2. induction s1 as [| a s1 IH]; intros s2; [reflexivity |].
  simpl. rewrite (IH (String a s2)), (IH (String a "")), string_app_assoc. reflexivity.
Qed.

Lemma rev_cons (a : ascii) (s : string) :
  String.rev (String a s) = String.rev s +:+ String a "".
Proof. unfold String.rev at 1. simpl. apply rev_app_spec. Qed.

Lemma rev_app_distr (s t : string) :
  String.rev (s +:+ t) = String.rev t +:+ String.rev s.
Proof.
  induction s as [| a s IH]; [by rewrite string_app_nil_r |].
  rewrite string_app_cons, !rev_cons, IH, string_app_assoc. reflexivity.
Qed.

Lemma rev_involutive (s : string) : String.rev (String.rev s) = s.
Proof.
  induction s as [| a s IH]; [reflexivity |].
  rewrite rev_cons, rev_app_distr, IH. reflexivity.
Qed.

Lemma lowerAscii_idempotent (c : ascii) : lowerAscii (lowerAscii c) = lowerAscii c.
Proof. destruct c as [[] [] [] [] [] [] [] []]; reflexivity. Qed.

Lemma is_space_lowerAscii (c : ascii) : Ascii.is_space (lowerAscii c) = Ascii.is_space c.
Proof. destruct c as [[] [] [] [] [] [] [] []]; reflexivity. Qed.

Lemma toLowerCase_idempotent (s : string) : toLowerCase (toLowerCase s) = toLowerCase s.
Proof.
  induction s as [| a s IH]; [reflexivity |]. simpl. by rewrite lowerAscii_idempotent, IH.
Qed.

Lemma toLowerCase_app (s t : string) :
  toLowerCase (s +:+ t) = toLowerCase s +:+ toLowerCase t.
Proof.
  induction s as [| a s IH]; [reflexivity |].
  rewrite string_app_cons. simpl. by rewrite IH.
Qed.

Lemma toLowerCase_rev (s : string) : toLowerCase (String.rev s) = String.rev (toLowerCase s).
Proof.
  induction s as [| a s IH]; [reflexivity |].
  simpl. by rewrite !rev_cons, toLowerCase_app, IH.
Qed.

Lemma toLowerCase_trimStart (s : string) :
  toLowerCase (trimStart s) = trimStart (toLowerCase s).
Proof.
  induction s as [| a s IH]; [reflexivity |].
  simpl. rewrite is_space_lowerAscii. by destruct (Ascii.is_space a).
Qed.

Lemma toLowerCase_trim (s : string) : toLowerCase (trim s) = trim (toLowerCase s).
Proof.
  unfold trim. by rewrite toLowerCase_rev, toLowerCase_trimStart, toLowerCase_rev,
    toLowerCase_trimStart.
Qed.

Lemma trimStart_noLeadingSpace (s : string) : noLeadingSpace (trimStart s).
Proof.
  induction s as [| a s IH]; [exact I |].
  simpl. by destruct (Ascii.is_space a) eqn:Hspace.
Qed.

Lemma trimStart_fixed (s : string) : noLeadingSpace s → trimStart s = s.
Proof. destruct s as [| a s]; [done |]. simpl. by intros ->. Qed.

(** What [trimStart] removes is a prefix. *)
Lemma trimStart_suffix (s : string) : ∃ spaces, s = spaces +:+ trimStart s.
Proof.
  induction s as [| a s [spaces IH]]; [by exists "" |].
  simpl. destruct (Ascii.is_space a); [| by exists ""].
  exists (String a spaces). by rewrite string_app_cons, <- IH.
Qed.

Lemma noLeadingSpace_prefix (s t : string) :
  noLeadingSpace (s +:+ t) → s ≠ "" → noLeadingSpace s.
Proof. by destruct s. Qed.

Lemma trim_noLeadingSpace (s : string) : noLeadingSpace (trim s).
Proof.
  unfold trim.
  pose proof (trimStart_noLeadingSpace s) as Hstart.
  destruct (trimStart_suffix (String.rev (trimStart s))) as [spaces Hspaces].
  apply (f_equal String.rev) in Hspaces. rewrite rev_involutive, rev_app_distr in Hspaces.
  rewrite Hspaces in Hstart.
  destruct (String.rev (trimStart (String.rev (trimStart s)))) eqn:Hrev; [exact I |].
  by apply (noLeadingSpace_prefix _ _ Hstart).
Qed.

Lemma trim_fixed (s : string) :
  noLeadingSpace s → noLeadingSpace (String.rev s) → trim s = s.
Proof.
  intros Hs Hrev. unfold trim.
  by rewrite (trimStart_fixed s Hs), (trimStart_fixed _ Hrev), rev_involutive.
Qed.

Lemma trim_idempotent (s : string) : trim (trim s) = trim s.
Proof.
  apply trim_fixed; [apply trim_noLeadingSpace |].
  unfold trim. rewrite rev_involutive. apply trimStart_noLeadingSpace.
Qed.

Lemma normalise_idempotent (s : string) : normalise (normalise s) = normalise s.
Proof.
  unfold normalise.
  by rewrite <- toLowerCase_trim, trim_idempotent, toLowerCase_idempotent.
Qed.


(** ** The exclusion list *)

Lemma uniqueInOrder_from (array set : list string) :
  NoDup set →
  let result := fold_left (λ set x, if bool_decide (x ∈ set) then set else set ++ [x])
                  array set in
  NoDup result ∧ ∀ x, x ∈ result ↔ x ∈ set ∨ x ∈ array.
Proof.
  revert set. induction array as [| y array IH]; intros set Hset; simpl.
  - split; [exact Hset |]. intros x. rewrite elem_of_nil. tauto.
  - destruct (bool_decide_reflect (y ∈ set)) as [Hin | Hout].
    + destruct (IH set Hset) as [Hnodup Helem]. split; [exact Hnodup |].
      intros x. rewrite Helem, elem_of_cons.
      split; [tauto |]. intros [? | [-> | ?]]; tauto.
    + destruct (IH (set ++ [y])) as [Hnodup Helem].
      { apply NoDup_app. split; [exact Hset |]. split; [| apply NoDup_singleton].
        by intros x Hx ->%list_elem_of_singleton. }
      split; [exact Hnodup |]. intros x.
      rewrite Helem, elem_of_app, list_elem_of_singleton, elem_of_cons. tauto.
Qed.

Lemma uniqueInOrder_spec (array : list string) :
  NoDup (uniqueInOrder array) ∧ ∀ x, x ∈ uniqueInOrder array ↔ x ∈ array.
Proof.
  destruct (uniqueInOrder_from array [] (NoDup_nil_2 (A := string))) as [Hnodup Helem].
  split; [exact Hnodup |]. intros x. unfold uniqueInOrder. rewrite Helem, elem_of_nil. tauto.
Qed.

(** What holds of the exclusion list at all times. *)
Lemma exclusionStep_invariant (prev : list string) (call : ExclusionCall) :
  NoDup prev ∧ Forall (λ k, k ≠ "" ∧ normalise k = k) prev →
  NoDup (exclusionStep prev call) ∧
  Forall (λ k, k ≠ "" ∧ normalise k = k) (exclusionStep prev call).
Proof.
  intros [Hnodup Hall]. destruct call as [raw | raw | raw |]; simpl.
  - unfold handleAddExcludedKeyword.
    destruct (String.eqb_spec (normalise (stripQuotes raw)) "") as [Hempty | Hnonempty];
      [done |].
    destruct (bool_decide_reflect (normalise (stripQuotes raw) ∈ prev)) as [Hin | Hout];
      [done |].
    split.
    + apply NoDup_app. split; [exact Hnodup |]. split; [| apply NoDup_singleton].
      by intros x Hx ->%list_elem_of_singleton.
    + apply Forall_app. split; [exact Hall |]. constructor; [| constructor].
      split; [exact Hnonempty | apply normalise_idempotent].
  - unfold handleRemoveExcludedKeyword. split; [by apply NoDup_filter |].
    apply Forall_forall. intros k [_ Hk]%list_elem_of_filter.
    by apply (proj1 (Forall_forall _ _) Hall).
  - unfold handleAddMultipleExcludedKeywords.
    destruct (filter _ _) as [| t terms] eqn:Hterms; [done |].
    destruct (uniqueInOrder_spec (prev ++ t :: terms)) as [Hunique Helem].
    split; [exact Hunique |]. apply Forall_forall. intros k [Hk | Hk]%Helem%elem_of_app.
    + by apply (proj1 (Forall_forall _ _) Hall).
    + rewrite <- Hterms in Hk. apply list_elem_of_filter in Hk as [Hnonempty Hk].
      apply list_elem_of_fmap in Hk as (part & -> & _).
      split; [exact Hnonempty | apply normalise_idempotent].
  - split; constructor.
Qed.

(** X17.  Whatever handlers are called in whatever order, the exclusion
    list never holds a word twice, never holds the empty string, and every
    word in it is trimmed and in lower case (normalising it again changes
    nothing), which is what the filters' lower-cased substring test needs. *)
Theorem exclusion_list_invariant (calls : list ExclusionCall) :
  NoDup (excludedAfter calls) ∧
  Forall (λ k, k ≠ "" ∧ normalise k = k) (excludedAfter calls).
Proof.
  unfold excludedAfter.
  assert (∀ prev, NoDup prev ∧ Forall (λ k, k ≠ "" ∧ normalise k = k) prev →
                  NoDup (fold_left exclusionStep calls prev) ∧
                  Forall (λ k, k ≠ "" ∧ normalise k = k) (fold_left exclusionStep calls prev))
    as Hrun.
  { induction calls as [| call calls IH]; intros prev Hprev; [exact Hprev |].
    simpl. by apply IH, exclusionStep_invariant. }
  apply Hrun. split; constructor.
Qed.

Lemma filter_ne_absent (k : string) (l : list string) :
  k ∉ l → filter (λ x, x ≠ k) l = l.
Proof.
  intros Hk. apply filter_fixed, Forall_forall. by intros x Hx ->.
Qed.

(** X18.  Excluding a word and then removing the chip it made restores the
    list: the word stored for [rawKeyword], which is its trimmed,
    lower-cased text without surrounding double quotes, is in the list
    after [handleAddExcludedKeyword]; adding it a second time changes
    nothing; and [handleRemoveExcludedKeyword], called with the stored
    word, gives back the list as it was. *)
Theorem exclude_then_remove_restores (rawKeyword : string) (prev : list string) :
  let keyword := normalise (stripQuotes rawKeyword) in
  let added := handleAddExcludedKeyword rawKeyword prev in
  keyword ≠ "" → keyword ∉ prev →
  added = prev ++ [keyword] ∧
  handleAddExcludedKeyword rawKeyword added = added ∧
  handleRemoveExcludedKeyword keyword added = prev.
Proof.
  intros keyword added Hnonempty Hfresh.
  assert (added = prev ++ [keyword]) as Hadded.
  { unfold added, handleAddExcludedKeyword. fold keyword.
    apply String.eqb_neq in Hnonempty. rewrite Hnonempty.
    by rewrite bool_decide_eq_false_2. }
  split; [exact Hadded |]. split.
  - unfold handleAddExcludedKeyword. fold keyword.
    apply String.eqb_neq in Hnonempty. rewrite Hnonempty.
    rewrite bool_decide_eq_true_2; [reflexivity |].
    rewrite Hadded, elem_of_app, list_elem_of_singleton. by right.
  - unfold handleRemoveExcludedKeyword, keyword. rewrite normalise_idempotent. fold keyword.
    rewrite Hadded, filter_app, (filter_ne_absent keyword prev Hfresh).
    rewrite filter_cons, decide_False by (by intros H; apply H).
    rewrite filter_nil. apply app_nil_r.
Qed.

Lemma exclude_then_remove_restores_witness :
  handleAddExcludedKeyword "  Dental CROWN " ["implant"] = ["implant"; "dental crown"] ∧
  handleAddExcludedKeyword "  Dental CROWN " ["implant"; "dental crown"]
  = ["implant"; "dental crown"] ∧
  handleRemoveExcludedKeyword "dental crown" ["implant"; "dental crown"] = ["implant"].
Proof.
  assert (normalise (stripQuotes "  Dental CROWN ") ≠ "") as Hnonempty by discriminate.
  assert (normalise (stripQuotes "  Dental CROWN ") ∉ ["implant"]) as Hfresh.
  { by intros Hin%list_elem_of_singleton. }
  exact (exclude_then_remove_restores "  Dental CROWN " ["implant"] Hnonempty Hfresh).
Defined.


Lemma includes_empty_text (k : string) : k ≠ "" → includes "" k = false.
Proof. by destruct k. Qed.

Lemma isExcluded_false_word (excluded : list string) (name k : string) :
  isExcluded excluded (Some name) = false → k ∈ excluded → k ≠ "" →
  includes (normalise name) k = false.
Proof.
  unfold isExcluded, normalise. intros Hex Hk Hnonempty.
  destruct (String.eqb_spec name "") as [-> | _]; [by apply includes_empty_text |].
  destruct (includes (toLowerCase (trim name)) k) eqn:Hincl; [| reflexivity].
  rewrite <- Hex. symmetry. apply existsb_exists. exists k.
  split; [by apply list_elem_of_In | exact Hincl].
Qed.

Lemma handleAddExcludedKeyword_holds (rawKeyword : string) (prev : list string) :
  normalise (stripQuotes rawKeyword) ≠ "" →
  normalise (stripQuotes rawKeyword) ∈ handleAddExcludedKeyword rawKeyword prev.
Proof.
  intros Hnonempty. unfold handleAddExcludedKeyword.
  apply String.eqb_neq in Hnonempty. rewrite Hnonempty.
  destruct (bool_decide_reflect (normalise (stripQuotes rawKeyword) ∈ prev)); [done |].
  rewrite elem_of_app, list_elem_of_singleton. by right.
Qed.

Section ExcludedWords.
Variable filters : Filters.
Variable selectedPillar : string.
Variable searchTermsArray : list SearchTerm.
Variable singleSelectedType : string.
Variable NT : NodeTypes.
Variable applyFiltersToNodeNames : bool.
Variable rangeCheckFunc : value → RangeFilter → gmap string Range → bool.
Variables sv kd cpc : gmap string Range.

(** X19.  Once a word is excluded it shows in neither view, whatever its
    case: with the list [handleAddExcludedKeyword] returns, the flat
    filter keeps no record, and the tree filter keeps no keyword at any
    depth, whose trimmed, lower-cased name contains the stored word. *)
Theorem excluded_word_never_survives (rawKeyword : string) (prev : list string) :
  let keyword := normalise (stripQuotes rawKeyword) in
  let excluded := handleAddExcludedKeyword rawKeyword prev in
  keyword ≠ "" →
  (∀ sourceList record name,
     record ∈ filterFlatListByType_internal filters selectedPillar searchTermsArray
                singleSelectedType NT rangeCheckFunc sv kd cpc excluded sourceList →
     item_name record = Some name →
     includes (normalise name) keyword = false) ∧
  (∀ nodesToFilter root n kw k,
     root ∈ filterHierarchicalTreeRecursive_internal filters searchTermsArray NT
              applyFiltersToNodeNames rangeCheckFunc sv kd cpc excluded nodesToFilter →
     subnode n root →
     kw ∈ default [] (node_keywords n) → kw_keyword kw = Some k →
     includes (normalise k) keyword = false).
Proof.
  intros keyword excluded Hnonempty.
  pose proof (handleAddExcludedKeyword_holds rawKeyword prev Hnonempty) as Hin.
  fold keyword excluded in Hin. split.
  - intros sourceList record name Hkept Hname.
    rewrite filterFlat_as_filter in Hkept. apply list_elem_of_filter in Hkept as [Hkeeps _].
    unfold flatKeeps in Hkeeps. rewrite !andb_true_iff, negb_true_iff in Hkeeps.
    destruct Hkeeps as [[[_ _] Hex] _]. rewrite Hname in Hex.
    by apply (isExcluded_false_word excluded).
  - intros nodesToFilter root n kw k (node & _ & Hkept)%filterTree_elem Hsub Hkw Hk.
    destruct (filterNode_sound _ _ _ _ _ _ _ _ _ node root Hkept n Hsub) as [_ Hkws].
    destruct (keywordPasses_not_excluded _ _ _ _ _ _ _ kw (Hkws kw Hkw)) as (k' & Hk' & Hex).
    rewrite Hk in Hk'. injection Hk' as <-.
    by apply (isExcluded_false_word excluded).
Qed.
End ExcludedWords.

Lemma excluded_word_never_survives_witness :
  Forall (λ record, ∀ name, item_name record = Some name →
                            includes (normalise name) "crown" = false)
    (filterFlatListByType_internal INITIAL_FILTERS_STATE "all" [] "keywords" NodeType
       checkRangeSelectionFilter_internal SEARCH_VOLUME_RANGES
       KEYWORD_DIFFICULTY_RANGES CPC_RANGES
       (handleAddExcludedKeyword " CROWN" ["implant"])
       [keywordRecord "Dental Crown" "Restorative > Crowns > Dental Crown"
          (VNum 900) (VNum 40) (VNum 2);
        keywordRecord "Dental Bridge" "Restorative > Bridges > Dental Bridge"
          (VNum 500) (VNum 30) (VNum 2)]).
Proof.
  assert (normalise (stripQuotes " CROWN") ≠ "") as Hnonempty by discriminate.
  apply Forall_forall. intros record Hin name.
  exact (proj1 (excluded_word_never_survives INITIAL_FILTERS_STATE "all" [] "keywords"
                  NodeType false checkRangeSelectionFilter_internal SEARCH_VOLUME_RANGES
                  KEYWORD_DIFFICULTY_RANGES CPC_RANGES " CROWN" ["implant"] Hnonempty)
           _ record name Hin).
Defined.


(** ** The search box *)

Lemma startsWith_empty (s : string) : startsWith s "" = true.
Proof. by destruct s. Qed.

Lemma startsWith_char (a c : ascii) (r : string) :
  startsWith (String a r) (String c "") = bool_decide (c = a).
Proof.
  unfold startsWith. simpl. destruct (ascii_dec c a) as [-> | Hne].
  - rewrite bool_decide_eq_true_2 by done. apply startsWith_empty.
  - by rewrite bool_decide_eq_false_2.
Qed.

Lemma includes_char_cons (a c : ascii) (r : string) :
  includes (String a r) (String c "") = bool_decide (c = a) || includes r (String c "").
Proof. cbn [includes]. by rewrite startsWith_char. Qed.

Lemma includes_char_app (c : ascii) (s t : string) :
  includes (s +:+ t) (String c "") = includes s (String c "") || includes t (String c "").
Proof.
  induction s as [| a s IH]; [reflexivity |].
  rewrite string_app_cons, !includes_char_cons, IH. apply orb_assoc.
Qed.

Lemma splitComma_single (s : string) : includes s "," = false → splitComma s = [s].
Proof.
  induction s as [| a s IH]; [reflexivity |].
  rewrite includes_char_cons. intros [Hhead Hrest]%orb_false_iff.
  apply bool_decide_eq_false in Hhead. simpl.
  destruct (Ascii.eqb_spec a ","%char) as [-> | _]; [done |]. by rewrite (IH Hrest).
Qed.

Lemma length_app_char (s : string) (c : ascii) :
  String.length (s +:+ String c "") = S (String.length s).
Proof.
  induction s as [| a s IH]; [reflexivity |]. rewrite string_app_cons. simpl. by rewrite IH.
Qed.

Lemma toLowerCase_nonempty (s : string) : s ≠ "" → toLowerCase s ≠ "".
Proof. by destruct s. Qed.

Lemma length_positive (s : string) : (0 <? String.length s)%nat = true ↔ s ≠ "".
Proof. destruct s; simpl; split; done. Qed.

(** A phrase typed between double quotes. *)
Lemma rev_quoted (phrase : string) :
  String.rev (String dquote (phrase +:+ String dquote ""))
  = String dquote (String.rev phrase +:+ String dquote "").
Proof. by rewrite rev_cons, rev_app_distr. Qed.

Lemma parseSearchTerm_quoted (phrase : string) :
  parseSearchTerm (String dquote (phrase +:+ String dquote ""))
  = Some {| term_value := toLowerCase phrase; isExact := true |}.
Proof.
  unfold parseSearchTerm.
  rewrite trim_fixed by (by rewrite ?rev_quoted).
  unfold endsWith. rewrite rev_quoted.
  change (String.rev (String dquote "")) with (String dquote "").
  rewrite !startsWith_char, !bool_decide_eq_true_2 by done.
  cbn [String.length Nat.eqb andb]. rewrite length_app_char.
  cbn [Nat.ltb Nat.leb]. unfold sliceInner.
  rewrite rev_app_distr. change (String.rev (String dquote "")) with (String dquote "").
  change (String dquote "" +:+ String.rev phrase) with (String dquote (String.rev phrase)).
  cbv iota. by rewrite rev_involutive.
Qed.

(** X20.  Every term the application hands to the filters is well formed:
    its text is never empty and is in lower case (so that the filters,
    which lower-case the text they search, match without regard to case),
    and the text of a term that is not exact has no white space around
    it. *)
Theorem parseSearchTerms_wellformed (debouncedSearchTerm : string) :
  Forall (λ termObj,
            term_value termObj ≠ "" ∧
            toLowerCase (term_value termObj) = term_value termObj ∧
            (isExact termObj = false → trim (term_value termObj) = term_value termObj))
    (parseSearchTerms debouncedSearchTerm).
Proof.
  apply Forall_forall. intros termObj [Hlength Hin]%list_elem_of_filter.
  apply length_positive in Hlength. split; [exact Hlength |].
  apply list_elem_of_omap in Hin as (part & _ & Hparse).
  unfold parseSearchTerm in Hparse.
  destruct (String.length (trim part) =? 0)%nat; [discriminate |].
  destruct (_ && _); injection Hparse as <-; cbn [term_value isExact].
  - split; [apply toLowerCase_idempotent | discriminate].
  - split; [apply toLowerCase_idempotent |]. intros _.
    by rewrite <- toLowerCase_trim, trim_idempotent.
Qed.

(** X21.  A phrase typed between double quotes, with no comma in it, is
    read as one exact term holding the phrase in lower case, and in the
    flat keyword view such a search keeps a record exactly when its whole
    name is the phrase, letter case apart. *)
Theorem quoted_search_is_whole_name (phrase : string) (NT : NodeTypes) (item : FlatRecord) :
  includes phrase "," = false → phrase ≠ "" →
  let typed := String dquote (phrase +:+ String dquote "") in
  parseSearchTerms typed = [{| term_value := toLowerCase phrase; isExact := true |}] ∧
  itemPassesSearch (parseSearchTerms typed) (KEYWORDS NT) NT item
  = String.eqb (lowerOrEmpty (item_name item)) (toLowerCase phrase).
Proof.
  intros Hcomma Hnonempty typed.
  assert (parseSearchTerms typed
          = [{| term_value := toLowerCase phrase; isExact := true |}]) as ->.
  { unfold parseSearchTerms, typed. rewrite splitComma_single.
    - cbn [omap list_omap]. rewrite parseSearchTerm_quoted. cbn [omap list_omap].
      rewrite filter_cons, decide_True; [by rewrite filter_nil |].
      by apply length_positive, toLowerCase_nonempty.
    - rewrite includes_char_cons, includes_char_app, Hcomma. reflexivity. }
  split; [reflexivity |].
  unfold itemPassesSearch. rewrite String.eqb_refl, andb_false_r.
  cbn [existsb termMatches isExact term_value]. apply orb_false_r.
Qed.

Lemma quoted_search_is_whole_name_witness :
  let typed := String dquote ("Dental Crown" +:+ String dquote "") in
  parseSearchTerms typed = [quotedDentalCrown] ∧
  itemPassesSearch (parseSearchTerms typed) "keywords" NodeType
    (keywordRecord "DENTAL crown" "Restorative > Crowns > DENTAL crown"
       (VNum 900) (VNum 40) (VNum 2))
  = true.
Proof.
  apply (quoted_search_is_whole_name "Dental Crown" NodeType
           (keywordRecord "DENTAL crown" "Restorative > Crowns > DENTAL crown"
              (VNum 900) (VNum 40) (VNum 2)));
    [reflexivity | discriminate].
Defined.


(** ** Sorting the flat list *)

Section ArraySortFacts.
Context {A : Type}.
Variable compareFn : A → A → Q.

Lemma insertInOrder_perm (x : A) (sorted : list A) :
  insertInOrder compareFn x sorted ≡ₚ x :: sorted.
Proof.
  induction sorted as [| y rest IH]; [done |].
  simpl. destruct (Qltb 0 (compareFn x y)); [| done].
  rewrite IH. apply Permutation_swap.
Qed.

Lemma arraySort_perm (array : list A) : arraySort compareFn array ≡ₚ array.
Proof.
  induction array as [| x array IH]; [done |].
  simpl. by rewrite insertInOrder_perm, IH.
Qed.

Section Ordered.
(** The elements [compareFn] orders, and the order it puts them in. *)
Variable D : A → Prop.
Variable R : A → A → Prop.
Hypothesis after : ∀ x y, D x → D y → Qltb 0 (compareFn x y) = true → R y x.
Hypothesis before : ∀ x y, D x → D y → Qltb 0 (compareFn x y) = false → R x y.
Hypothesis transitive : ∀ x y z, D x → D y → D z → R x y → R y z → R x z.

Lemma insertInOrder_sorted (x : A) (sorted : list A) :
  D x → Forall D sorted → StronglySorted R sorted →
  StronglySorted R (insertInOrder compareFn x sorted).
Proof.
  intros Hx. induction sorted as [| y rest IH]; intros Hall Hsorted.
  - repeat constructor.
  - apply Forall_cons in Hall as [Hy Hrest].
    apply StronglySorted_inv in Hsorted as [Hsorted Hbelow].
    simpl. destruct (Qltb 0 (compareFn x y)) eqn:Hcompare.
    + constructor; [by apply IH |].
      rewrite insertInOrder_perm. constructor; [by apply after | exact Hbelow].
    + constructor; [by constructor |].
      constructor; [by apply before |].
      rewrite Forall_forall in Hbelow, Hrest. apply Forall_forall. intros z Hz.
      apply (transitive x y z); auto.
Qed.

Lemma arraySort_sorted (array : list A) :
  Forall D array → StronglySorted R (arraySort compareFn array).
Proof.
  induction array as [| x array IH]; intros Hall; [constructor |].
  apply Forall_cons in Hall as [Hx Hrest]. simpl.
  apply insertInOrder_sorted; [exact Hx | by rewrite arraySort_perm | by apply IH].
Qed.
End Ordered.

Section Stable.
(** A class of elements none of which [compareFn] puts after another. *)
Variable D : A → Prop.
Variable E : A → bool.
Hypothesis level : ∀ a b, D a → D b → E a = true → E b = true →
                          Qltb 0 (compareFn a b) = false.

Lemma insertInOrder_stable (x : A) (sorted : list A) :
  D x → Forall D sorted →
  filter (λ a, E a = true) (insertInOrder compareFn x sorted)
  = filter (λ a, E a = true) (x :: sorted).
Proof.
  intros Hx. induction sorted as [| y rest IH]; intros Hall; [reflexivity |].
  apply Forall_cons in Hall as [Hy Hrest]. simpl.
  destruct (Qltb 0 (compareFn x y)) eqn:Hcompare; [| reflexivity].
  rewrite (filter_cons _ y), (IH Hrest), !(filter_cons _ x), (filter_cons _ y).
  destruct (decide (E x = true)) as [Ex | Ex], (decide (E y = true)) as [Ey | Ey];
    try reflexivity.
  by rewrite (level x y Hx Hy Ex Ey) in Hcompare.
Qed.

Lemma arraySort_stable (array : list A) :
  Forall D array →
  filter (λ a, E a = true) (arraySort compareFn array) = filter (λ a, E a = true) array.
Proof.
  induction array as [| x array IH]; intros Hall; [reflexivity |].
  apply Forall_cons in Hall as [Hx Hrest]. simpl.
  rewrite insertInOrder_stable; [| exact Hx | by rewrite arraySort_perm].
  by rewrite !(filter_cons _ x), (IH Hrest).
Qed.
End Stable.
End ArraySortFacts.

Lemma orZero_number (q : Q) : (numberOrZero (orZero (VNum q)) == q)%Q.
Proof.
  unfold orZero, truthy. destruct (Qeq_bool q 0) eqn:Hzero; [| reflexivity].
  simpl. symmetry. by apply Qeq_bool_iff.
Qed.

Section SortFacts.
Variable numberToString : Q → string.
Variable localeCompare : string → string → Q.
Variable localeCompareDefault : string → string → Q.

(** On two numbers the comparison is their difference, negated for
    ['desc']. *)
Lemma compareBy_numbers sortKey direction effectiveCustomSort (a b : FlatRecord) (qa qb : Q) :
  sortKey ≠ "name" → sortKey ≠ "fullHierarchyPath" → sortKey ≠ "type" →
  fieldOf sortKey a = VNum qa → fieldOf sortKey b = VNum qb →
  (compareBy numberToString localeCompare sortKey direction effectiveCustomSort a b
   == if String.eqb direction "desc" then - (qa - qb) else qa - qb)%Q.
Proof.
  intros Hname%String.eqb_neq Hpath%String.eqb_neq Htype%String.eqb_neq Ha Hb.
  unfold compareBy. rewrite Hname, Hpath, Htype, Ha, Hb. cbn [orb].
  destruct (String.eqb direction "desc"); by rewrite !orZero_number.
Qed.

(** X22.  Sorting by a column that holds a number in every record orders
    the records by that number, upwards, or downwards for ['desc']; the
    result holds the same records; and records with the same number keep
    the order they had, in both directions. *)
Theorem sort_numeric_column (records : list FlatRecord) (sortKey direction : string)
    (customSortFunc : option (value → value → Q)) :
  sortKey ≠ "" → sortKey ≠ "name" → sortKey ≠ "fullHierarchyPath" → sortKey ≠ "type" →
  numericColumn sortKey records →
  let sorted :=
    sortFlatDataList_internal numberToString localeCompare localeCompareDefault
      (Some records) (Some {| sort_key := sortKey; sort_direction := direction |})
      customSortFunc in
  sorted ≡ₚ records ∧
  StronglySorted (λ a b, if String.eqb direction "desc"
                         then (numberIn sortKey b <= numberIn sortKey a)%Q
                         else (numberIn sortKey a <= numberIn sortKey b)%Q) sorted ∧
  ∀ v, withNumber sortKey v sorted = withNumber sortKey v records.
Proof.
  intros Hkey Hname Hpath Htype Hnumbers sorted.
  assert (sorted = arraySort (compareBy numberToString localeCompare sortKey direction
                                (default (fallbackSort numberToString localeCompareDefault)
                                   customSortFunc)) records) as ->.
  { unfold sorted, sortFlatDataList_internal. cbn [sort_key sort_direction].
    apply String.eqb_neq in Hkey. by rewrite Hkey. }
  set (compareFn := compareBy _ _ _ _ _).
  assert (∀ a b, (∃ q, fieldOf sortKey a = VNum q) → (∃ q, fieldOf sortKey b = VNum q) →
                 (compareFn a b
                  == if String.eqb direction "desc"
                     then - (numberIn sortKey a - numberIn sortKey b)
                     else numberIn sortKey a - numberIn sortKey b)%Q) as Hcompare.
  { intros a b [qa Ha] [qb Hb]. unfold compareFn, numberIn.
    rewrite (compareBy_numbers _ _ _ a b qa qb) by done. by rewrite Ha, Hb. }
  split; [apply arraySort_perm |]. split.
  - apply (arraySort_sorted compareFn (λ item, ∃ q, fieldOf sortKey item = VNum q));
      [| | | exact Hnumbers].
    + intros x y Hx Hy Hafter%Qltb_lt. rewrite (Hcompare x y Hx Hy) in Hafter.
      destruct (String.eqb direction "desc"); lra.
    + intros x y Hx Hy Hbefore%not_true_iff_false. rewrite Qltb_lt in Hbefore.
      rewrite (Hcompare x y Hx Hy) in Hbefore.
      destruct (String.eqb direction "desc"); lra.
    + intros x y z _ _ _. destruct (String.eqb direction "desc"); lra.
  - intros v. unfold withNumber.
    apply (arraySort_stable compareFn (λ item, ∃ q, fieldOf sortKey item = VNum q)
             (λ item, Qeq_bool (numberIn sortKey item) v)); [| exact Hnumbers].
    intros a b Ha Hb Hav%Qeq_bool_iff Hbv%Qeq_bool_iff.
    apply not_true_iff_false. rewrite Qltb_lt, (Hcompare a b Ha Hb).
    destruct (String.eqb direction "desc"); lra.
Qed.
End SortFacts.


Lemma sort_numeric_column_witness :
  let records :=
    [keywordRecord "crown cost" "Restorative > Crowns > crown cost" (VNum 900) (VNum 40) (VNum 2);
     keywordRecord "bridge" "Restorative > Bridges > bridge" (VNum 100) (VNum 30) (VNum 1);
     keywordRecord "veneer" "Cosmetic > Veneers > veneer" (VNum 900) (VNum 20) (VNum 3)] in
  let sorted :=
    sortFlatDataList_internal (λ _, "") byLength byLength (Some records)
      (Some {| sort_key := "searchVolume"; sort_direction := "desc" |}) None in
  sorted ≡ₚ records ∧
  StronglySorted (λ a b, (numberIn "searchVolume" b <= numberIn "searchVolume" a)%Q) sorted ∧
  ∀ v, withNumber "searchVolume" v sorted = withNumber "searchVolume" v records.
Proof.
  apply (sort_numeric_column (λ _, "") byLength byLength _ "searchVolume" "desc" None);
    [discriminate .. |].
  repeat constructor; by eexists.
Defined.

Section NameSortFacts.
Variable numberToString : Q → string.
Variable localeCompare : string → string → Q.
Variable localeCompareDefault : string → string → Q.
Hypothesis consistent : consistentComparison localeCompare.

Abbreviation keywordSort := (customKeywordSort numberToString localeCompare).
Abbreviation categoryOf :=
  (λ v : value, getCategory (trim (stringOrEmpty numberToString v))).

Lemma inject_Z_pos (z : Z) : (0 < inject_Z z)%Q ↔ (0 < z)%Z.
Proof. change 0%Q with (inject_Z 0). by rewrite <- Zlt_Qlt. Qed.

Lemma inject_Z_neg (z : Z) : (inject_Z z < 0)%Q ↔ (z < 0)%Z.
Proof. change 0%Q with (inject_Z 0). by rewrite <- Zlt_Qlt. Qed.

Lemma inject_Z_nonpos (z : Z) : (inject_Z z <= 0)%Q ↔ (z <= 0)%Z.
Proof. change 0%Q with (inject_Z 0). by rewrite <- Zle_Qle. Qed.

Lemma inject_Z_nonneg (z : Z) : (0 <= inject_Z z)%Q ↔ (0 <= z)%Z.
Proof. change 0%Q with (inject_Z 0). by rewrite <- Zle_Qle. Qed.

Lemma customKeywordSort_sign (a b : value) :
  (0 < keywordSort a b)%Q ↔ (keywordSort b a < 0)%Q.
Proof.
  unfold customKeywordSort. rewrite (Z.eqb_sym (categoryOf b)).
  destruct (Z.eqb_spec (categoryOf a) (categoryOf b)) as [Hsame | Hdiffer]; cbn [negb].
  - apply (proj1 consistent).
  - rewrite inject_Z_pos, inject_Z_neg. lia.
Qed.

Lemma customKeywordSort_transitive (a b c : value) :
  (keywordSort a b <= 0)%Q → (keywordSort b c <= 0)%Q → (keywordSort a c <= 0)%Q.
Proof.
  unfold customKeywordSort.
  destruct (Z.eqb_spec (categoryOf a) (categoryOf b)) as [Hab | Hab],
           (Z.eqb_spec (categoryOf b) (categoryOf c)) as [Hbc | Hbc],
           (Z.eqb_spec (categoryOf a) (categoryOf c)) as [Hac | Hac];
    cbn [negb]; rewrite ?inject_Z_nonpos;
    first [lia | apply (proj2 consistent) | intros H1 H2; exfalso; lia].
Qed.

Lemma customKeywordSort_category_le (a b : value) :
  (keywordSort a b <= 0)%Q → (categoryOf a <= categoryOf b)%Z.
Proof.
  unfold customKeywordSort.
  destruct (Z.eqb_spec (categoryOf a) (categoryOf b)) as [Hsame | Hdiffer]; cbn [negb];
    rewrite ?inject_Z_nonpos; lia.
Qed.

Lemma customKeywordSort_category_ge (a b : value) :
  (0 <= keywordSort a b)%Q → (categoryOf b <= categoryOf a)%Z.
Proof.
  unfold customKeywordSort.
  destruct (Z.eqb_spec (categoryOf a) (categoryOf b)) as [Hsame | Hdiffer]; cbn [negb];
    rewrite ?inject_Z_nonneg; lia.
Qed.

(** X23.  Sorting by name, with a [localeCompare] that orders strings
    consistently, puts the records in the order of [customKeywordSort]:
    names that begin with a letter come first, then names that begin with a
    digit, then all others, and within a group the names are in the order
    of their lower-cased text; ['desc'] gives the opposite order.  The
    result holds the same records, and the default sort, without a
    configuration, is the ascending sort by name. *)
Theorem sort_by_name (records : list FlatRecord) (direction : string) :
  let sort := sortFlatDataList numberToString localeCompare localeCompareDefault in
  let sorted := sort records (Some {| sort_key := "name"; sort_direction := direction |}) in
  let inNameOrder a b :=
    (keywordSort (stringField (item_name a)) (stringField (item_name b)) <= 0)%Q in
  let inGroupOrder a b :=
    (nameCategory numberToString a <= nameCategory numberToString b)%Z in
  sorted ≡ₚ records ∧
  StronglySorted (λ a b, if String.eqb direction "desc" then inNameOrder b a
                         else inNameOrder a b) sorted ∧
  StronglySorted (λ a b, if String.eqb direction "desc" then inGroupOrder b a
                         else inGroupOrder a b) sorted ∧
  sort records None = sort records (Some {| sort_key := "name"; sort_direction := "asc" |}).
Proof.
  intros sort sorted inNameOrder inGroupOrder.
  assert (∀ x y,
            (compareBy numberToString localeCompare "name" direction keywordSort x y
             == if String.eqb direction "desc"
                then - keywordSort (stringField (item_name x)) (stringField (item_name y))
                else keywordSort (stringField (item_name x)) (stringField (item_name y)))%Q)
    as Hcompare.
  { intros x y. unfold compareBy. cbn [String.eqb Ascii.eqb Bool.eqb orb fieldOf].
    by destruct (String.eqb direction "desc"). }
  pose proof customKeywordSort_sign as Hsign.
  pose proof customKeywordSort_transitive as Htrans.
  split; [apply arraySort_perm |]. split; [| split; [| reflexivity]].
  - apply (arraySort_sorted _ (λ _, True)); [| | | by apply Forall_forall].
    + intros x y _ _ Hafter%Qltb_lt. rewrite Hcompare in Hafter. unfold inNameOrder.
      destruct (String.eqb direction "desc").
      * apply Qlt_le_weak. lra.
      * apply Qlt_le_weak, Hsign. exact Hafter.
    + intros x y _ _ Hbefore%not_true_iff_false. rewrite Qltb_lt, Hcompare in Hbefore.
      unfold inNameOrder. destruct (String.eqb direction "desc").
      * apply Qnot_lt_le. intros Hlt%Hsign. lra.
      * by apply Qnot_lt_le.
    + intros x y z _ _ _. unfold inNameOrder.
      destruct (String.eqb direction "desc"); eauto.
  - apply (arraySort_sorted _ (λ _, True)); [| | | by apply Forall_forall].
    + intros x y _ _ Hafter%Qltb_lt. rewrite Hcompare in Hafter.
      unfold inGroupOrder, nameCategory. destruct (String.eqb direction "desc").
      * apply customKeywordSort_category_le. lra.
      * apply customKeywordSort_category_ge. lra.
    + intros x y _ _ Hbefore%not_true_iff_false. rewrite Qltb_lt, Hcompare in Hbefore.
      unfold inGroupOrder, nameCategory. destruct (String.eqb direction "desc").
      * apply customKeywordSort_category_ge. lra.
      * apply customKeywordSort_category_le. lra.
    + intros x y z _ _ _. unfold inGroupOrder.
      destruct (String.eqb direction "desc"); lia.
Qed.
End NameSortFacts.

Lemma byLength_consistent : consistentComparison byLength.
Proof.
  unfold byLength. split.
  - intros a b. rewrite inject_Z_pos, inject_Z_neg. lia.
  - intros a b c. rewrite !inject_Z_nonpos. lia.
Qed.

Lemma sort_by_name_witness :
  let records :=
    [keywordRecord "24 hour dentist" "Care > Urgent > 24 hour dentist" (VNum 90) (VNum 4) (VNum 2);
     keywordRecord "#1 dentist" "Care > Urgent > #1 dentist" (VNum 10) (VNum 3) (VNum 1);
     keywordRecord "Veneer" "Cosmetic > Veneers > Veneer" (VNum 900) (VNum 20) (VNum 3)] in
  let sorted :=
    sortFlatDataList (λ _, "") byLength byLength records
      (Some {| sort_key := "name"; sort_direction := "asc" |}) in
  sorted ≡ₚ records ∧
  map (nameCategory (λ _, "")) sorted = [1; 2; 3]%Z ∧
  StronglySorted (λ a b, (nameCategory (λ _, "") a <= nameCategory (λ _, "") b)%Z) sorted.
Proof.
  destruct (sort_by_name (λ _, "") byLength byLength byLength_consistent
              [keywordRecord "24 hour dentist" "Care > Urgent > 24 hour dentist"
                 (VNum 90) (VNum 4) (VNum 2);
               keywordRecord "#1 dentist" "Care > Urgent > #1 dentist"
                 (VNum 10) (VNum 3) (VNum 1);
               keywordRecord "Veneer" "Cosmetic > Veneers > Veneer"
                 (VNum 900) (VNum 20) (VNum 3)] "asc") as (Hperm & _ & Hgroups & _).
  split; [exact Hperm |]. split; [reflexivity | exact Hgroups].
Defined.


(** ** Pages of the flat view *)

Lemma slice_chunk {A} (array : list A) (s n : nat) :
  slice array (Z.of_nat s) (Z.of_nat s + Z.of_nat n) = take n (drop s array).
Proof.
  unfold slice.
  assert ((Z.of_nat s <? 0)%Z = false) as -> by (apply Z.ltb_ge; lia).
  assert ((Z.of_nat s + Z.of_nat n <? 0)%Z = false) as -> by (apply Z.ltb_ge; lia).
  destruct (decide (s ≤ length array)%nat) as [Hin | Hout].
  - assert (Z.min (Z.of_nat s) (Z.of_nat (length array)) = Z.of_nat s) as -> by lia.
    rewrite Nat2Z.id.
    destruct (decide (s + n ≤ length array)%nat) as [Hfull | Hpart].
    + assert (Z.min (Z.of_nat s + Z.of_nat n) (Z.of_nat (length array)) - Z.of_nat s
              = Z.of_nat n)%Z as -> by lia.
      by rewrite Nat2Z.id.
    + assert (Z.min (Z.of_nat s + Z.of_nat n) (Z.of_nat (length array)) - Z.of_nat s
              = Z.of_nat (length array - s))%Z as -> by lia.
      rewrite Nat2Z.id, !take_ge; [reflexivity | |]; rewrite length_drop; lia.
  - assert (Z.min (Z.of_nat s) (Z.of_nat (length array)) = Z.of_nat (length array))
      as -> by lia.
    assert (Z.min (Z.of_nat s + Z.of_nat n) (Z.of_nat (length array))
            = Z.of_nat (length array)) as -> by lia.
    rewrite Z.sub_diag, Nat2Z.id. simpl. rewrite (drop_ge array s) by lia.
    by rewrite take_nil.
Qed.

(** A list is its chunks of [n], one after the other. *)
Lemma chunks_concat {A} (n : nat) (pages : nat) :
  ∀ array : list A, (length array ≤ pages * n)%nat →
    concat (map (λ i, take n (drop (i * n) array)) (seq 0 pages)) = array.
Proof.
  induction pages as [| pages IH]; intros array Hlen.
  - destruct array; [reflexivity | simpl in Hlen; lia].
  - cbn [seq map concat]. rewrite <- seq_shift, map_map.
    change (drop (0 * n) array) with array.
    etrans; [| apply (take_drop n array)]. f_equal.
    etrans; [| apply (IH (drop n array)); rewrite length_drop; lia].
    f_equal. apply map_ext. intros i. by rewrite drop_drop.
Qed.

Lemma paginatedViewData_page (filters : Filters) (i : nat) (filteredData : list FlatRecord) :
  length (selectedNodeTypesArray filters) = 1%nat →
  paginatedViewData filters (Z.of_nat (S i)) filteredData
  = take 100 (drop (i * 100) filteredData).
Proof.
  intros Hflat. unfold paginatedViewData. rewrite Hflat. cbn [Nat.eqb andb].
  destruct filteredData as [| item rest]; [by rewrite drop_nil |].
  cbn [length Nat.ltb Nat.leb]. unfold ITEMS_PER_PAGE.
  assert ((Z.of_nat (S i) - 1) * 100 = Z.of_nat (i * 100))%Z as -> by lia.
  apply (slice_chunk _ (i * 100) 100).
Qed.

Lemma pages_concat (filters : Filters) (filteredData : list FlatRecord) :
  length (selectedNodeTypesArray filters) = 1%nat →
  concat (map (λ i, paginatedViewData filters (Z.of_nat (S i)) filteredData)
            (seq 0 (Z.to_nat (ceilDiv (Z.of_nat (length filteredData)) ITEMS_PER_PAGE))))
  = filteredData.
Proof.
  intros Hflat.
  rewrite (map_ext _ (λ i, take 100 (drop (i * 100) filteredData)))
    by (intros i; by apply paginatedViewData_page).
  apply chunks_concat. unfold ceilDiv, ITEMS_PER_PAGE. Z.div_mod_to_equations. lia.
Qed.

(** X24.  In flat mode the pages cut the sorted list into consecutive
    runs of 100: the pages from 1 to the last, one after the other, are the
    whole list; every one of them holds between 1 and 100 records; a page
    beyond the last is empty; and the [Previous] and [Next] buttons never
    leave the pages from 1 to the last. *)
Theorem pages_partition (filters : Filters) (filteredData : list FlatRecord) :
  length (selectedNodeTypesArray filters) = 1%nat →
  let page p := paginatedViewData filters p filteredData in
  let count := Z.of_nat (length filteredData) in
  let last := ceilDiv count ITEMS_PER_PAGE in
  concat (map (λ i, page (Z.of_nat (S i))) (seq 0 (Z.to_nat last))) = filteredData ∧
  (∀ p, (1 <= p <= last)%Z →
        (1 ≤ length (page p) ≤ 100)%nat ∧
        (1 <= previousPage p <= last)%Z ∧ (1 <= nextPage count p <= last)%Z) ∧
  (∀ p, (last < p)%Z → page p = []).
Proof.
  intros Hflat page count last.
  assert (∀ p, (1 <= p)%Z → ((p - 1) * 100 < count ↔ p <= last)%Z) as Hlast.
  { intros p Hp. unfold last, ceilDiv, ITEMS_PER_PAGE. Z.div_mod_to_equations. lia. }
  assert (0 <= last)%Z as Hnonneg.
  { unfold last, ceilDiv, ITEMS_PER_PAGE, count. Z.div_mod_to_equations. lia. }
  split; [| split].
  - by apply pages_concat.
  - intros p [Hlow Hhigh].
    assert (p = Z.of_nat (S (Z.to_nat (p - 1)))) as Hp by lia.
    pose proof (proj2 (Hlast p Hlow) Hhigh) as Hstart.
    split; [| unfold previousPage, nextPage; fold last; lia].
    unfold page. rewrite Hp, paginatedViewData_page by exact Hflat.
    rewrite length_take, length_drop. unfold count in Hstart. lia.
  - intros p Hbeyond.
    assert (p = Z.of_nat (S (Z.to_nat (p - 1)))) as Hp by lia.
    assert (¬ ((p - 1) * 100 < count)%Z) as Hstart by (rewrite Hlast; lia).
    unfold page. rewrite Hp, paginatedViewData_page by exact Hflat.
    rewrite drop_ge; [apply take_nil |]. unfold count in Hstart. lia.
Qed.

Lemma pages_partition_witness :
  let filteredData :=
    replicate 250 (keywordRecord "veneer" "Cosmetic > Veneers > veneer"
                     (VNum 900) (VNum 20) (VNum 3)) in
  let page p := paginatedViewData keywordsOnly p filteredData in
  page 1%Z ++ page 2%Z ++ page 3%Z ++ [] = filteredData ∧
  (∀ p, (1 <= p <= 3)%Z →
        (1 ≤ length (page p) ≤ 100)%nat ∧
        (1 <= previousPage p <= 3)%Z ∧ (1 <= nextPage 250 p <= 3)%Z) ∧
  (∀ p, (3 < p)%Z → page p = []).
Proof.
  assert (length (selectedNodeTypesArray keywordsOnly) = 1%nat) as Hflat
    by (vm_compute; reflexivity).
  exact (pages_partition keywordsOnly
           (replicate 250 (keywordRecord "veneer" "Cosmetic > Veneers > veneer"
                             (VNum 900) (VNum 20) (VNum 3))) Hflat).
Defined.


(** ** A written row reads back *)

Lemma readCells_plain_run (s cell rest : string) :
  includes s "," = false → includes s (String dquote "") = false →
  readCells Plain cell (s +:+ rest) = readCells Plain (cell +:+ s) rest.
Proof.
  revert cell. induction s as [| c s IH]; intros cell Hcomma Hquote.
  - by rewrite string_app_nil_r.
  - rewrite includes_char_cons in Hcomma, Hquote.
    apply orb_false_iff in Hcomma as [Hc1 Hcomma], Hquote as [Hc2 Hquote].
    apply bool_decide_eq_false in Hc1, Hc2.
    rewrite string_app_cons. cbn [readCells].
    destruct (Ascii.eqb_spec c ","%char) as [-> | _]; [done |].
    destruct (Ascii.eqb_spec c dquote) as [-> | _]; [done |].
    cbn [andb]. rewrite (IH _ Hcomma Hquote), string_app_assoc. reflexivity.
Qed.

Lemma readCells_quoted_run (s cell rest : string) :
  readCells Quoted cell (doubleQuotes s +:+ rest) = readCells Quoted (cell +:+ s) rest.
Proof.
  revert cell. induction s as [| c s IH]; intros cell.
  - by rewrite string_app_nil_r.
  - cbn [doubleQuotes]. destruct (Ascii.eqb_spec c dquote) as [-> | Hc].
    + rewrite !string_app_cons. cbn [readCells]. rewrite Ascii.eqb_refl.
      rewrite IH, string_app_assoc. reflexivity.
    + rewrite string_app_cons. cbn [readCells].
      apply Ascii.eqb_neq in Hc. rewrite Hc.
      rewrite IH, string_app_assoc. reflexivity.
Qed.

Lemma cellRead_plain (s : string) :
  includes s "," = false → includes s (String dquote "") = false → cellRead s s.
Proof.
  intros Hcomma Hquote. split.
  - rewrite <- (string_app_nil_r s) at 1. by rewrite readCells_plain_run.
  - intros rest. by rewrite readCells_plain_run.
Qed.

Lemma cellRead_quoted (s : string) :
  cellRead (String dquote (doubleQuotes s +:+ String dquote "")) s.
Proof.
  split.
  - cbn [readCells]. rewrite Ascii.eqb_refl. cbn [andb String.eqb].
    rewrite readCells_quoted_run. cbn [readCells]. by rewrite Ascii.eqb_refl.
  - intros rest. rewrite string_app_cons, string_app_assoc. cbn [readCells].
    rewrite Ascii.eqb_refl. cbn [andb String.eqb].
    rewrite readCells_quoted_run. rewrite string_app_cons. cbn [readCells].
    rewrite Ascii.eqb_refl. reflexivity.
Qed.

Lemma cellRead_value (numberToString : Q → string) (v : value) :
  plainNumbers numberToString →
  cellRead (cellToString numberToString (csvCell v)) (cellToString numberToString v).
Proof.
  intros Hnumbers. destruct v as [| | [] | q | s]; cbn [csvCell cellToString];
    try (by apply cellRead_plain).
  - destruct (Hnumbers q). by apply cellRead_plain.
  - destruct (includes s "," || includes s (String dquote "")) eqn:Hquoted.
    + apply cellRead_quoted.
    + apply orb_false_iff in Hquoted as [? ?]. by apply cellRead_plain.
Qed.

Lemma readRow_join (written texts : list string) :
  Forall2 cellRead written texts → written ≠ [] →
  readRow (join "," written) = texts.
Proof.
  unfold readRow. induction 1 as [| w t ws ts [Hlast Hmore] Hrest IH]; [done |]; intros _.
  destruct Hrest as [| w' t' ws' ts' Hw' Hrest]; [exact Hlast |].
  change (join "," (w :: w' :: ws')) with (w +:+ "," +:+ join "," (w' :: ws')).
  change ("," +:+ join "," (w' :: ws')) with (String ","%char (join "," (w' :: ws'))).
  rewrite Hmore. f_equal. apply IH. discriminate.
Qed.




(** ** Metrics of a filtered tree *)

Lemma sumQ_sublist {A} (g : A → Q) (l1 l2 : list A) :
  l1 `sublist_of` l2 → Forall (λ x, (0 <= g x)%Q) l2 →
  (sumQ (map g l1) <= sumQ (map g l2))%Q.
Proof.
  induction 1 as [| x l1 l2 _ IH | x l1 l2 _ IH]; intros Hall; simpl.
  - apply Qle_refl.
  - apply Forall_cons in Hall as [_ Hall]. specialize (IH Hall). lra.
  - apply Forall_cons in Hall as [Hx Hall]. specialize (IH Hall). lra.
Qed.

Lemma countQ_le (a b : nat) : (a ≤ b)%nat → (countQ a <= countQ b)%Q.
Proof. intros Hle. unfold countQ. rewrite <- Zle_Qle. lia. Qed.

Section FilteredMetrics.
Variable filters : Filters.
Variable searchTermsArray : list SearchTerm.
Variable NT : NodeTypes.
Variable applyFiltersToNodeNames : bool.
Variable checkRangeFunc : value → RangeFilter → gmap string Range → bool.
Variables SV_RANGES KD_RANGES CPC_RANGES_ : gmap string Range.
Variable excludedKeywords : list string.

Abbreviation filterNode__ :=
  (filterNode filters searchTermsArray NT applyFiltersToNodeNames checkRangeFunc
     SV_RANGES KD_RANGES CPC_RANGES_ excludedKeywords).
Abbreviation filterTree__ :=
  (filterHierarchicalTreeRecursive_internal filters searchTermsArray NT
     applyFiltersToNodeNames checkRangeFunc SV_RANGES KD_RANGES CPC_RANGES_ excludedKeywords).

Lemma filterNode_cluster_prunes (node : Node) :
  ∀ kept, filterNode__ node = Some kept →
    node_name kept = node_name node ∧
    clusterKeywordsUnder NT kept `sublist_of` clusterKeywordsUnder NT node ∧
    (clustersUnder NT kept ≤ clustersUnder NT node)%nat.
Proof.
  induction node as [node IH] using Node_ind. intros kept Hkept.
  apply (filterNode_Some _ _ _ _ _ _ _ _ _) in Hkept as [_ ->].
  split; [reflexivity |].
  rewrite !clusterKeywordsUnder_unfold, !clustersUnder_unfold, childrenOf_with.
  cbn [withChildrenAndKeywords node_keywords node_type].
  rewrite filterTree_omap.
  assert (flat_map (clusterKeywordsUnder NT) (omap filterNode__ (childrenOf node))
            `sublist_of` flat_map (clusterKeywordsUnder NT) (childrenOf node) ∧
          (sum_list_with (clustersUnder NT) (omap filterNode__ (childrenOf node))
           ≤ sum_list_with (clustersUnder NT) (childrenOf node))%nat) as [Hkws Hclusters].
  { induction IH as [| c rest Hc _ [IHkws IHclusters]]; [by split |].
    simpl. destruct (filterNode__ c) as [c' |] eqn:Hc'; simpl.
    - destruct (Hc c' eq_refl) as (_ & Hsub & Hle).
      split; [by apply sublist_app | by apply Nat.add_le_mono].
    - split; [by apply sublist_inserts_l |].
      transitivity (sum_list_with (clustersUnder NT) rest); [exact IHclusters | lia]. }
  split; [| by apply Nat.add_le_mono_l].
  apply sublist_app; [| exact Hkws].
  destruct (typeIs (node_type node) (CLUSTER NT)) eqn:Hcluster; [| constructor].
  change (default [] (Some ?kws)) with kws. unfold filteredKeywordsOf.
  destruct (node_keywords node) as [kws |]; [| constructor].
  destruct (_ && _); [apply filter_sublist | apply sublist_nil_l].
Qed.

(** X26.  The numbers shown for a filtered node never exceed those of the
    node it comes from: every node of the filter's result is an input node
    of the same name whose keyword count and cluster count are at least as
    large, and whose total search volume is at least as large when no
    keyword below it has a negative volume. *)
Theorem filtered_metrics_bounded (sameObject : Node → Node → bool)
    (nodesToFilter : list Node) (kept : Node) :
  identityLike sameObject →
  kept ∈ filterTree__ nodesToFilter →
  ∃ node, node ∈ nodesToFilter ∧ node_name kept = node_name node ∧
    let shown := calculateMetricsForNode sameObject NT kept in
    let whole := calculateMetricsForNode sameObject NT node in
    (totalKeywords shown <= totalKeywords whole)%Q ∧
    (totalClusters shown <= totalClusters whole)%Q ∧
    (Forall (λ kw, (0 <= volumeOf kw)%Q) (clusterKeywordsUnder NT node) →
     (totalSearchVolume shown <= totalSearchVolume whole)%Q).
Proof.
  intros Hid (node & Hnode & Hkept)%filterTree_elem.
  exists node. split; [exact Hnode |].
  destruct (filterNode_cluster_prunes node kept Hkept) as (Hname & Hkws & Hclusters).
  split; [exact Hname |].
  intros shown whole. unfold shown, whole.
  rewrite !calculateMetricsForNode_uncached by exact Hid.
  destruct (metricsOf_totals NT kept) as (Hvolume & Hcount & Hcl).
  destruct (metricsOf_totals NT node) as (Hvolume' & Hcount' & Hcl').
  split; [| split].
  - rewrite Hcount, Hcount'. by apply countQ_le, sublist_length.
  - rewrite Hcl, Hcl'. by apply countQ_le.
  - intros Hvolumes. rewrite Hvolume, Hvolume'. by apply sumQ_sublist.
Qed.
End FilteredMetrics.


Lemma filtered_metrics_bounded_witness :
  Forall (λ kept,
            ∃ node, node ∈ [restorativePillar] ∧ node_name kept = node_name node ∧
              let shown := calculateMetricsForNode (λ _ _, false) NodeType kept in
              let whole := calculateMetricsForNode (λ _ _, false) NodeType node in
              (totalKeywords shown <= totalKeywords whole)%Q ∧
              (totalClusters shown <= totalClusters whole)%Q ∧
              (Forall (λ kw, (0 <= volumeOf kw)%Q) (clusterKeywordsUnder NodeType node) →
               (totalSearchVolume shown <= totalSearchVolume whole)%Q))
    (filterHierarchicalTreeRecursive_internal INITIAL_FILTERS_STATE [] NodeType false
       checkRangeSelectionFilter_internal SEARCH_VOLUME_RANGES KEYWORD_DIFFICULTY_RANGES
       CPC_RANGES ["crowns"] [restorativePillar]).
Proof.
  apply Forall_forall. intros kept Hkept.
  apply (filtered_metrics_bounded INITIAL_FILTERS_STATE [] NodeType false
           checkRangeSelectionFilter_internal SEARCH_VOLUME_RANGES KEYWORD_DIFFICULTY_RANGES
           CPC_RANGES ["crowns"] (λ _ _, false) [restorativePillar] kept);
    [intros a b H; discriminate H | exact Hkept].
Defined.


(** ** The global panel *)

Lemma walk_unfold (NT : NodeTypes) (node : Node) (keywordMap : KeywordMap) :
  walk NT node keywordMap
  = fold_left (λ keywordMap child, walk NT child keywordMap) (childrenOf node)
      match node_keywords node with
      | Some kws =>
          if typeIs (node_type node) (CLUSTER NT) then fold_left walkKeyword kws keywordMap
          else keywordMap
      | None => keywordMap
      end.
Proof.
  destruct node as [name type size tk tc kd cpc md kws [cs |]]; [| reflexivity].
  cbn [walk childrenOf node_children default from_option id node_keywords node_type].
  match goal with
  | |- context [?loop cs] =>
      is_fix loop;
      assert (∀ l m, loop l m = fold_left (λ keywordMap child, walk NT child keywordMap) l m)
        as Hloop
  end.
  { induction l as [| c rest IH]; intros m; [reflexivity | apply IH]. }
  apply Hloop.
Qed.

(** Walking a tree is walking the keywords of its clusters in order. *)
Lemma walk_keywords (NT : NodeTypes) (node : Node) :
  ∀ keywordMap,
    walk NT node keywordMap = fold_left walkKeyword (clusterKeywordsUnder NT node) keywordMap.
Proof.
  induction node as [node IH] using Node_ind. intros keywordMap.
  rewrite walk_unfold, clusterKeywordsUnder_unfold, fold_left_app.
  assert (match node_keywords node with
          | Some kws =>
              if typeIs (node_type node) (CLUSTER NT)
              then fold_left walkKeyword kws keywordMap else keywordMap
          | None => keywordMap
          end
          = fold_left walkKeyword
              (if typeIs (node_type node) (CLUSTER NT)
               then default [] (node_keywords node) else []) keywordMap) as ->.
  { by destruct (node_keywords node), (typeIs (node_type node) (CLUSTER NT)). }
  generalize (fold_left walkKeyword
                (if typeIs (node_type node) (CLUSTER NT)
                 then default [] (node_keywords node) else []) keywordMap).
  induction IH as [| c rest Hc _ IHrest]; intros m; [reflexivity |].
  simpl. by rewrite fold_left_app, Hc, IHrest.
Qed.

Lemma walk_roots (NT : NodeTypes) (roots : list Node) (keywordMap : KeywordMap) :
  fold_left (λ keywordMap node, walk NT node keywordMap) roots keywordMap
  = fold_left walkKeyword (flat_map (clusterKeywordsUnder NT) roots) keywordMap.
Proof.
  revert keywordMap. induction roots as [| root roots IH]; intros m; [reflexivity |].
  simpl. by rewrite fold_left_app, walk_keywords, IH.
Qed.

(** The keys of the map are the distinct keys of the keywords walked. *)
Lemma walkKeyword_keys (kws : list Keyword) (keywordMap : KeywordMap) :
  (fold_left walkKeyword kws keywordMap).*1
  = fold_left (λ set x, if bool_decide (x ∈ set) then set else set ++ [x])
      (omap (λ kw, normalise <$> kw_keyword kw) kws) (keywordMap.*1).
Proof.
  revert keywordMap. induction kws as [| kw kws IH]; intros m; [reflexivity |].
  cbn [fold_left omap list_omap]. rewrite IH. unfold walkKeyword.
  destruct (kw_keyword kw) as [k |]; [| reflexivity].
  cbn [fmap option_fmap option_map fold_left]. fold (normalise k).
  destruct (bool_decide (normalise k ∈ m.*1)); [reflexivity |].
  by rewrite fmap_app.
Qed.

(** Keywords that all have a string, with keys that differ from one
    another and from those in the map, are all stored. *)
Lemma walkKeyword_all (kws : list Keyword) (keywordMap : KeywordMap) :
  Forall (λ kw, is_Some (kw_keyword kw)) kws →
  NoDup (keywordMap.*1 ++ omap (λ kw, normalise <$> kw_keyword kw) kws) →
  (fold_left walkKeyword kws keywordMap).*2 = keywordMap.*2 ++ kws.
Proof.
  revert keywordMap. induction kws as [| kw kws IH]; intros m Hstrings Hkeys.
  - by rewrite app_nil_r.
  - apply Forall_cons in Hstrings as [[k Hk] Hstrings].
    cbn [fold_left omap list_omap] in *. unfold walkKeyword at 2.
    rewrite Hk in *. cbn [fmap option_fmap option_map] in Hkeys. fold (normalise k) in *.
    assert (normalise k ∉ m.*1) as Hfresh.
    { apply NoDup_app in Hkeys as (_ & Hdisjoint & _). intros Hin.
      apply (Hdisjoint _ Hin). by left. }
    rewrite bool_decide_eq_false_2 by exact Hfresh.
    rewrite IH; [by rewrite fmap_app, <- app_assoc | exact Hstrings |].
    by rewrite fmap_app, <- app_assoc.
Qed.

Lemma uniqueInOrder_length (array : list string) :
  (length (uniqueInOrder array) ≤ length array)%nat.
Proof.
  destruct (uniqueInOrder_spec array) as [Hnodup Helem].
  apply submseteq_length, NoDup_submseteq; [exact Hnodup |].
  intros x. by rewrite Helem.
Qed.

Lemma length_omap_le {A B} (f : A → option B) (l : list A) :
  (length (omap f l) ≤ length l)%nat.
Proof.
  induction l as [| x l IH]; [done |]. simpl. destruct (f x); simpl.
  - apply (proj1 (Nat.succ_le_mono _ _)), IH.
  - apply Nat.le_le_succ_r, IH.
Qed.

Lemma aggregateMetrics_totals (itemList : list Keyword) :
  (global_totalKeywords (aggregateMetrics itemList) == countQ (length itemList))%Q ∧
  (global_totalSearchVolume (aggregateMetrics itemList) == sumQ (map volumeOf itemList))%Q.
Proof.
  unfold aggregateMetrics. cbn [global_totalKeywords global_totalSearchVolume]. split.
  - rewrite (additive_keywords _ _ totalKeywords_additive), sumQ_ones.
    rewrite (additive_initial _ _ totalKeywords_additive). ring.
  - rewrite (additive_keywords _ _ totalSearchVolume_additive).
    rewrite (additive_initial _ _ totalSearchVolume_additive). ring.
Qed.

Lemma rows_totals (NT : NodeTypes) (roots : list Node) :
  (sumQ (map (λ root, totalKeywords (metricsOf NT root)) roots)
   == countQ (length (flat_map (clusterKeywordsUnder NT) roots)))%Q ∧
  (sumQ (map (λ root, totalSearchVolume (metricsOf NT root)) roots)
   == sumQ (map volumeOf (flat_map (clusterKeywordsUnder NT) roots)))%Q.
Proof.
  induction roots as [| root roots [IHcount IHvolume]]; [by split |].
  destruct (metricsOf_totals NT root) as (Hvolume & Hcount & _).
  cbn [map flat_map].
  assert (∀ x l, sumQ (x :: l) = (x + sumQ l)%Q) as Hcons by reflexivity.
  rewrite !Hcons. split.
  - rewrite length_app, countQ_add, <- IHcount, <- Hcount. reflexivity.
  - rewrite map_app, sumQ_app, <- IHvolume, <- Hvolume. reflexivity.
Qed.

(** X27.  In the hierarchical view the global panel counts every keyword
    once: its keyword count is the number of distinct keys (the keyword
    trimmed and in lower case) among the cluster keywords of the filtered
    tree.  It is therefore at most the sum of the keyword counts shown for
    the roots, and when every keyword is a string and no two have the same
    key, both the count and the total search volume of the panel are the
    sums over the roots. *)
Theorem global_panel_counts_once (filters : Filters) (NT : NodeTypes)
    (sameObject : Node → Node → bool) (roots : list Node) (filteredData : list FlatRecord) :
  identityLike sameObject →
  length (selectedNodeTypesArray filters) ≠ 1%nat →
  let panel := globalMetrics filters NT (Some roots) filteredData in
  let rows := map (calculateMetricsForNode sameObject NT) roots in
  (global_totalKeywords panel == countQ (length (uniqueInOrder (keywordKeys NT roots))))%Q ∧
  (global_totalKeywords panel <= sumQ (map totalKeywords rows))%Q ∧
  (Forall (λ kw, is_Some (kw_keyword kw)) (flat_map (clusterKeywordsUnder NT) roots) →
   NoDup (keywordKeys NT roots) →
   (global_totalKeywords panel == sumQ (map totalKeywords rows))%Q ∧
   (global_totalSearchVolume panel == sumQ (map totalSearchVolume rows))%Q).
Proof.
  intros Hid Hmode panel rows.
  destruct (rows_totals NT roots) as [Hrowcount Hrowvolume].
  assert (sumQ (map totalKeywords rows)
          = sumQ (map (λ root, totalKeywords (metricsOf NT root)) roots) ∧
          sumQ (map totalSearchVolume rows)
          = sumQ (map (λ root, totalSearchVolume (metricsOf NT root)) roots)) as [-> ->].
  { unfold rows. rewrite !map_map. split; f_equal; apply map_ext; intros root;
      by rewrite calculateMetricsForNode_uncached. }
  rewrite Hrowcount, Hrowvolume.
  assert (panel = aggregateMetrics
                    ((fold_left walkKeyword (flat_map (clusterKeywordsUnder NT) roots) []).*2))
    as ->.
  { unfold panel, globalMetrics. apply Nat.eqb_neq in Hmode. rewrite Hmode. cbn [negb].
    destruct roots as [| root roots]; [reflexivity |].
    cbn [length Nat.ltb Nat.leb]. by rewrite walk_roots. }
  destruct (aggregateMetrics_totals
              ((fold_left walkKeyword (flat_map (clusterKeywordsUnder NT) roots) []).*2))
    as [Hcount Hvolume].
  assert (length ((fold_left walkKeyword (flat_map (clusterKeywordsUnder NT) roots) []).*2)
          = length (uniqueInOrder (keywordKeys NT roots))) as Hlength.
  { unfold uniqueInOrder, keywordKeys. rewrite <- (walkKeyword_keys _ []).
    by rewrite !length_fmap. }
  split; [by rewrite Hcount, Hlength |]. split.
  - rewrite Hcount, Hlength. apply countQ_le.
    etrans; [apply uniqueInOrder_length | apply length_omap_le].
  - intros Hstrings Hkeys.
    rewrite (walkKeyword_all _ [] Hstrings Hkeys) in Hcount, Hvolume |- *. by split.
Qed.

Lemma global_panel_counts_once_witness :
  let panel := globalMetrics INITIAL_FILTERS_STATE NodeType (Some seoTipsDocument) [] in
  let rows := map (calculateMetricsForNode (λ _ _, false) NodeType) seoTipsDocument in
  (global_totalKeywords panel == 2)%Q ∧ (sumQ (map totalKeywords rows) == 3)%Q ∧
  (global_totalKeywords panel <= sumQ (map totalKeywords rows))%Q.
Proof.
  assert (identityLike (λ _ _, false)) as Hid by (intros a b H; discriminate H).
  assert (length (selectedNodeTypesArray INITIAL_FILTERS_STATE) ≠ 1%nat) as Hmode
    by (vm_compute; discriminate).
  destruct (global_panel_counts_once INITIAL_FILTERS_STATE NodeType (λ _ _, false)
              seoTipsDocument [] Hid Hmode) as (Hcount & Hle & _).
  split; [exact Hcount |]. split; [reflexivity | exact Hle].
Defined.


(** ** The two views *)

(** X28.  With a pillar selected and more than one node type switched on,
    the view is the tree of that pillar alone: the flat list is emptied,
    and every root [getFilteredData] returns is a node of the data that
    has the Pillar type and the selected name. *)
Theorem getFilteredData_selected_pillar (NT : NodeTypes)
    (SV KD CPC_ : gmap string Range) (data : list Node) (processed : Processed)
    (filters : Filters) (selectedPillar debouncedSearchTerm : string)
    (excludedKeywords : list string) (fullFlatListData : list FlatRecord) :
  selectedPillar ≠ "all" → selectedPillar ≠ "" →
  (1 < length (selectedNodeTypesArray filters))%nat →
  ∃ roots,
    getFilteredData NT SV KD CPC_ (Some data) processed filters selectedPillar
      debouncedSearchTerm excludedKeywords fullFlatListData = (Some roots, []) ∧
    Forall (λ root, node_name root = Some selectedPillar ∧
                    node_type root = Some (PILLAR NT) ∧
                    ∃ node, node ∈ data ∧ node_name node = node_name root ∧
                            node_type node = node_type root) roots.
Proof.
  intros Hall%String.eqb_neq Hempty%String.eqb_neq Hmode.
  unfold getFilteredData. rewrite Hall, Hempty. cbn [orb].
  destruct (selectedNodeTypesArray filters) as [| first [| second more]];
    [simpl in Hmode; lia .. |].
  eexists. split; [reflexivity |].
  apply Forall_forall. intros root Hroot. unfold filterHierarchicalTreeRecursive in Hroot.
  apply filterTree_elem in Hroot as (node & Hnode & Hkept).
  apply filterNode_Some in Hkept as [_ ->].
  apply list_elem_of_filter in Hnode as [Hpillar Hnode].
  apply andb_true_iff in Hpillar as [Htype Hname%bool_decide_eq_true].
  cbn [withChildrenAndKeywords node_name node_type].
  assert (node_type node = Some (PILLAR NT)) as Htype'.
  { unfold typeIs in Htype. destruct (node_type node) as [t |]; [| discriminate].
    by apply String.eqb_eq in Htype as ->. }
  split; [exact Hname |]. split; [exact Htype' |]. by exists node.
Qed.

Lemma getFilteredData_selected_pillar_witness :
  ∃ roots,
    getFilteredData NodeType SEARCH_VOLUME_RANGES KEYWORD_DIFFICULTY_RANGES CPC_RANGES
      (Some [flaggedPillar; restorativePillar])
      (processSampleDataForApp (λ _, "x") NodeType [flaggedPillar; restorativePillar])
      INITIAL_FILTERS_STATE "Restorative" "" [] [] = (Some roots, []) ∧
    Forall (λ root, node_name root = Some "Restorative" ∧
                    node_type root = Some "pillar" ∧
                    ∃ node, node ∈ [flaggedPillar; restorativePillar] ∧
                            node_name node = node_name root ∧
                            node_type node = node_type root) roots.
Proof.
  apply (getFilteredData_selected_pillar NodeType SEARCH_VOLUME_RANGES
           KEYWORD_DIFFICULTY_RANGES CPC_RANGES [flaggedPillar; restorativePillar]
           (processSampleDataForApp (λ _, "x") NodeType [flaggedPillar; restorativePillar])
           INITIAL_FILTERS_STATE "Restorative" "" [] []);
    [discriminate | discriminate | vm_compute; lia].
Defined.


(** ** The filter controls *)

(** X29.  Choosing an entry of a range dropdown other than Custom leaves
    that filter with the chosen selection and no custom bounds, whatever
    was typed before, and touches nothing else; choosing Custom next
    starts from empty bounds, and a custom range with empty bounds rejects
    no value, so nothing is filtered out until a bound is typed. *)
Theorem dropdown_clears_custom_bounds (filterKey selectedValue : string)
    (prevFilters : Filters) :
  filterKey ∈ rangeKeys → selectedValue ≠ "custom" →
  let chosen := handleDropdownChange filterKey selectedValue prevFilters in
  let custom := handleDropdownChange filterKey "custom" chosen in
  rangeEntry filterKey chosen = Some (namedSelection selectedValue) ∧
  nodeTypes chosen = nodeTypes prevFilters ∧
  (∀ other, other ≠ filterKey → rangeEntry other chosen = rangeEntry other prevFilters) ∧
  rangeEntry filterKey custom = Some (namedSelection "custom") ∧
  (∀ v rangeCollection,
     checkRangeSelectionFilter_internal v (namedSelection "custom") rangeCollection = true).
Proof.
  intros Hkey Hnamed%String.eqb_neq chosen custom.
  assert (filterKey = "searchVolume" ∨ filterKey = "keywordDifficulty" ∨
          filterKey = "averageCPC") as Hcases.
  { unfold rangeKeys in Hkey. rewrite !elem_of_cons, elem_of_nil in Hkey. tauto. }
  split; [| split; [| split; [| split]]].
  - unfold chosen, handleDropdownChange, withRangeEntry, rangeEntry, namedSelection.
    rewrite Hnamed. by destruct Hcases as [-> | [-> | ->]].
  - unfold chosen, handleDropdownChange, withRangeEntry.
    by destruct Hcases as [-> | [-> | ->]].
  - intros other Hother. unfold chosen, handleDropdownChange, withRangeEntry, rangeEntry.
    destruct Hcases as [-> | [-> | ->]]; cbn [String.eqb Ascii.eqb Bool.eqb];
      apply String.eqb_neq in Hother; rewrite Hother;
      repeat (destruct (String.eqb other _); [reflexivity |]); reflexivity.
  - unfold custom, chosen, handleDropdownChange, withRangeEntry, rangeEntry, namedSelection.
    rewrite Hnamed. by destruct Hcases as [-> | [-> | ->]].
  - intros v rangeCollection.
    destruct (parseFloat v) as [val |] eqn:Hv.
    + by rewrite (checkRange_custom v (namedSelection "custom") rangeCollection val Hv
                    eq_refl).
    + unfold checkRangeSelectionFilter_internal. by rewrite Hv.
Qed.

Lemma dropdown_clears_custom_bounds_witness :
  let typed :=
    handleCustomInputChange "searchVolume" "customMin" "500"
      (handleDropdownChange "searchVolume" "custom" INITIAL_FILTERS_STATE) in
  rangeEntry "searchVolume" typed
  = Some {| currentSelection := Some "custom"; customMin := VStr "500";
            customMax := VStr "" |} ∧
  rangeEntry "searchVolume" (handleDropdownChange "searchVolume" "101-1000" typed)
  = Some (namedSelection "101-1000") ∧
  rangeEntry "searchVolume"
    (handleDropdownChange "searchVolume" "custom"
       (handleDropdownChange "searchVolume" "101-1000" typed))
  = Some (namedSelection "custom").
Proof.
  split; [reflexivity |].
  assert ("searchVolume" ∈ rangeKeys) as Hkey by (by left).
  assert ("101-1000" ≠ "custom") as Hnamed by discriminate.
  destruct (dropdown_clears_custom_bounds "searchVolume" "101-1000"
              (handleCustomInputChange "searchVolume" "customMin" "500"
                 (handleDropdownChange "searchVolume" "custom" INITIAL_FILTERS_STATE))
              Hkey Hnamed) as (Hchosen & _ & _ & Hcustom & _).
  split; [exact Hchosen | exact Hcustom].
Defined.

(** ** The flat view, from the filter to the page *)

Lemma sortFlatDataList_perm numberToString localeCompare localeCompareDefault
    (records : list FlatRecord) (sortConfig : option SortConfig) :
  sortFlatDataList numberToString localeCompare localeCompareDefault records sortConfig
  ≡ₚ records.
Proof.
  unfold sortFlatDataList, sortFlatDataList_internal.
  destruct sortConfig as [config |]; [| apply arraySort_perm].
  destruct (negb (String.eqb (sort_key config) "")); apply arraySort_perm.
Qed.

(** X30.  In the flat view nothing is lost and nothing is shown twice
    between the filter and the screen: with one node type switched on, the
    pages of the sorted list, taken together, hold exactly the records of
    that type's flat list that pass the flat filter, each as often as the
    list holds it, whatever the sort configuration. *)
Theorem flat_view_pipeline (numberToString : Q → string)
    (localeCompare localeCompareDefault : string → string → Q) (NT : NodeTypes)
    (SV KD CPC_ : gmap string Range) (data : list Node) (processed : Processed)
    (filters : Filters) (selectedPillar debouncedSearchTerm singleSelectedType : string)
    (excludedKeywords : list string) (previous : list FlatRecord)
    (sortConfig : list SortConfig) :
  selectedNodeTypesArray filters = [singleSelectedType] →
  let fullFlatListData :=
    snd (getFilteredData NT SV KD CPC_ (Some data) processed filters selectedPillar
           debouncedSearchTerm excludedKeywords previous) in
  let sorted :=
    sortedFlatData numberToString localeCompare localeCompareDefault fullFlatListData
      sortConfig in
  let last := Z.to_nat (ceilDiv (Z.of_nat (length sorted)) ITEMS_PER_PAGE) in
  concat (map (λ i, paginatedViewData filters (Z.of_nat (S i)) sorted) (seq 0 last))
  ≡ₚ filter (λ item, flatKeeps filters selectedPillar (parseSearchTerms debouncedSearchTerm)
                       singleSelectedType NT checkRangeSelectionFilter_internal SV KD CPC_
                       excludedKeywords item = true)
       (sourceDataForFlatList NT processed singleSelectedType).
Proof.
  intros Hsingle fullFlatListData sorted last.
  assert (length (selectedNodeTypesArray filters) = 1%nat) as Hflat by (by rewrite Hsingle).
  unfold last. rewrite (pages_concat filters sorted Hflat).
  unfold sorted, sortedFlatData. rewrite sortFlatDataList_perm.
  unfold fullFlatListData, getFilteredData. rewrite Hsingle. cbn [snd].
  unfold filterFlatListByType. by rewrite filterFlat_as_filter.
Qed.

Lemma flat_view_pipeline_witness :
  let processed := processSampleDataForApp (λ _, "x") NodeType [restorativePillar] in
  let fullFlatListData :=
    snd (getFilteredData NodeType SEARCH_VOLUME_RANGES KEYWORD_DIFFICULTY_RANGES CPC_RANGES
           (Some (hierarchicalData processed)) processed keywordsOnly "all" "crown"
           ["crowns"] []) in
  let sorted :=
    sortedFlatData (λ _, "") byLength byLength fullFlatListData
      (handleSort "searchVolume" []) in
  map item_name (paginatedViewData keywordsOnly 1 sorted) = [Some "dental crown"] ∧
  concat (map (λ i, paginatedViewData keywordsOnly (Z.of_nat (S i)) sorted) (seq 0 1))
  ≡ₚ filter (λ item, flatKeeps keywordsOnly "all" (parseSearchTerms "crown") "keywords"
                       NodeType checkRangeSelectionFilter_internal SEARCH_VOLUME_RANGES
                       KEYWORD_DIFFICULTY_RANGES CPC_RANGES ["crowns"] item = true)
       (sourceDataForFlatList NodeType processed "keywords").
Proof.
  split; [by vm_compute |].
  assert (selectedNodeTypesArray keywordsOnly = ["keywords"]) as Hsingle
    by (vm_compute; reflexivity).
  exact (flat_view_pipeline (λ _, "") byLength byLength NodeType SEARCH_VOLUME_RANGES
           KEYWORD_DIFFICULTY_RANGES CPC_RANGES
           (hierarchicalData (processSampleDataForApp (λ _, "x") NodeType [restorativePillar]))
           (processSampleDataForApp (λ _, "x") NodeType [restorativePillar])
           keywordsOnly "all" "crown" "keywords" ["crowns"] []
           (handleSort "searchVolume" []) Hsingle).
Defined.
